(** * ember-data-copyable: the Copyable mixin (addon/mixins/copyable.js)

    A shallow embedding of the copy engine of [addon/mixins/copyable.js]:
    the public [copy] entry point, the single-flight task runner
    [COPY_TASK_RUNNER] with its rollback, and the recursive worker
    [COPY_TASK] with its attribute pass, relationship pass and final merge.

    JavaScript objects used as dictionaries are finite maps from property
    names to values; a property that is absent reads as [VUndefined], and a
    property may also be present and hold [VUndefined] (the two differ for
    [assign] and [setProperties], which walk the own keys).  Records live in
    a heap indexed by their guid; the source mutates the clone it builds and
    the session object [_meta], so both are threaded through a state monad
    whose outcome is a normal return, a thrown exception, or the exhaustion
    of the recursion budget.

    ember-concurrency runs the task instances of one session as cooperative
    coroutines.  The embedding resolves that schedule sequentially: every
    [perform] that the source yields on runs to completion at the yield, and
    the members of a to-many relationship are performed in collection
    order.

    Two effects of the source fall outside the state of the embedding.
    Option objects are values, not objects of the heap, so the three keys
    that the task writes onto the [_options] it was given (lines 249-253)
    are handed back by the task instead; the task reads none of them.  And
    of a relationship only the side of the record that holds it is kept:
    what the private [addRecords] of Ember Data does to the inverse
    relationship of the related records is not represented.  No statement
    below speaks of an option object after a copy, or of the related
    records after a reference link. *)

From stdpp Require Import gmap strings list fin_maps.

Open Scope string_scope.
Open Scope list_scope.
Set Warnings "-register-all".

(** ** Values, exceptions and outcomes *)

Abbreviation guid := positive.

Inductive value : Type :=
| VUndefined
| VNull
| VBool (b : bool)
| VNumber (z : Z)
| VString (s : string)
| VObject (g : guid)
| VArray (vs : list value).

(** What a [throw] carries.  [NewError e] is the object built by
    [new Error(e)]: a fresh [Error] whose message is the string form of
    [e]. *)
Inductive exn : Type :=
| TypeError (msg : string)
| Thrown (v : value)
| NewError (cause : exn).

(** Result of a collaborator call that may throw. *)
Inductive result (A : Type) : Type :=
| Return (a : A)
| Raise (e : exn).
Arguments Return {A} a.
Arguments Raise {A} e.

(** Result of running a task: [OutOfFuel] marks a recursion that was cut
    by the budget of the embedding, it is not a behaviour of the source. *)
Inductive outcome (A : Type) : Type :=
| Ok (a : A)
| Throw (e : exn)
| OutOfFuel.
Arguments Ok {A} a.
Arguments Throw {A} e.
Arguments OutOfFuel {A}.

(** [obj\[name\]] on a dictionary. *)
Definition prop (o : gmap string value) (name : string) : value :=
  default VUndefined (o !! name).

(** JavaScript truthiness, for [value && ...] and [firstObject && ...]. *)
Definition truthy (v : value) : bool :=
  match v with
  | VUndefined | VNull => false
  | VBool b => b
  | VNumber z => negb (z =? 0)%Z
  | VString s => negb (String.eqb s "")
  | VObject _ | VArray _ => true
  end.

(** [Array.prototype.includes] on a list of names. *)
Definition includes (name : string) (l : list string) : bool :=
  bool_decide (name ∈ l).

(** Modelled from the spec: [utils/is-undefined] is not part of the
    sources at hand; the spec reads [!isUndefined(overwrite\[name\])] as
    "[overwrite\[name\]] is defined", so the helper holds exactly of the
    undefined value. *)
Definition isUndefined (v : value) : bool :=
  match v with VUndefined => true | _ => false end.

(** [Ember.isEmpty] on the declared type of an attribute, a string or
    nothing at all: it holds of [undefined] and of the empty string. *)
Definition isEmpty (type : option string) : bool :=
  match type with
  | None => true
  | Some t => String.eqb t ""
  end.

Definition PRIMITIVE_TYPES : list string := ["string"; "number"; "boolean"].

(** ** Options *)

(** An options object as a caller or a model class writes it: every key is
    optional.  [relationships] maps a relationship name to the options
    object handed to the copy of that relationship, which may carry a
    [deep] flag of its own. *)
Inductive options : Type :=
  Options {
    ignoreAttributes : option (list string);
    otherAttributes : option (list string);
    copyByReference : option (list string);
    overwrite : option (gmap string value);
    relationships : option (gmap string options);
    createAsModel : option bool;
    objectDefinition : option (option string);
    (* the [deep] key of the options of one relationship, when a boolean *)
    rel_deep : option bool
  }.

Definition no_options : options :=
  Options None None None None None None None None.

(** The options a task works with after [assign] has filled every key. *)
Record merged_options : Type :=
  Merged {
    m_ignoreAttributes : list string;
    m_otherAttributes : list string;
    m_copyByReference : list string;
    m_overwrite : gmap string value;
    m_relationships : gmap string options;
    m_createAsModel : bool;
    m_objectDefinition : option string
  }.

Definition DEFAULT_OPTIONS : merged_options :=
  {| m_ignoreAttributes := [];
     m_otherAttributes := [];
     m_copyByReference := [];
     m_overwrite := ∅;
     m_relationships := ∅;
     m_createAsModel := true;
     m_objectDefinition := None |}.

(** One step of [assign(target, source)]: the own keys of [source]
    replace those of [target]; [source] may be [undefined]. *)
Definition assign1 (target : merged_options) (source : option options)
  : merged_options :=
  match source with
  | None => target
  | Some o =>
      {| m_ignoreAttributes := default (m_ignoreAttributes target) (ignoreAttributes o);
         m_otherAttributes := default (m_otherAttributes target) (otherAttributes o);
         m_copyByReference := default (m_copyByReference target) (copyByReference o);
         m_overwrite := default (m_overwrite target) (overwrite o);
         m_relationships := default (m_relationships target) (relationships o);
         m_createAsModel := default (m_createAsModel target) (createAsModel o);
         m_objectDefinition := default (m_objectDefinition target) (objectDefinition o) |}
  end.

(** [assign({}, DEFAULT_OPTIONS, this.get('copyableOptions'), _options)] *)
Definition assign_options (copyableOptions _options : option options)
  : merged_options :=
  assign1 (assign1 DEFAULT_OPTIONS copyableOptions) _options.

(** [assign(a, b)] on dictionaries: keys of [b] win. *)
Definition assign (a b : gmap string value) : gmap string value := b ∪ a.

(** ** Records, the heap and the session *)

Inductive kind : Type := belongsTo | hasMany.

Record attr_meta : Type :=
  AttrMeta {
    attr_type : option string;
    attr_options : value
  }.

(** What a heap cell is: a model instance managed by the store, or a plain
    object ([{}], or the product of [objectDefinition.create({})]). *)
Inductive shape : Type :=
| Model
| Plain (definition : option string).

Record object : Type :=
  Object {
    obj_shape : shape;
    modelName : string;
    (* the IS_COPYABLE marker of the mixin, and with it COPY_TASK *)
    IS_COPYABLE : bool;
    copyableOptions : option options;
    (* what eachAttribute and eachRelationship enumerate *)
    attributes : list (string * attr_meta);
    relationship_defs : list (string * kind);
    (* what get(name) reads and setProperties writes *)
    fields : gmap string value;
    (* the membership state behind this.hasMany(name) / this.belongsTo(name) *)
    members : gmap string (list guid)
  }.

Record transform : Type :=
  Transform {
    serialize : value -> value -> result value;
    deserialize : value -> value -> result value
  }.

(** The session object [_meta = { copies: {}, transforms: {} }].  The
    keys of [copies] are guids, strings that are no array indices, and a
    JavaScript object lists such keys in the order in which they were
    added; [keys(_meta.copies)] is walked in that order by the rollback:
    [copy_keys] is that list. *)
Record meta : Type :=
  Meta {
    copies : gmap guid guid;
    transforms : gmap string transform;
    copy_keys : list guid
  }.

Definition new_meta : meta := Meta ∅ ∅ [].

Record state : Type :=
  State {
    heap : gmap guid object;
    (* the records the store currently holds *)
    store : gset guid;
    _meta : meta;
    (* record of every COPY_TASK perform, in order: the guid it ran on *)
    performed : list guid
  }.

(** The collaborators outside the mixin. *)
Record environment : Type :=
  Environment {
    (* the container lookup behind getTransform; None: no such transform *)
    lookup_transform : string -> option transform;
    (* Ember.Copyable, when the framework still has it: detect and copy *)
    Copyable : option ((value -> bool) * (value -> bool -> result value));
    (* the private relationship API of Ember Data: the exception, if any,
       that linking relationship [name] of a source into a clone raises *)
    link_error : guid -> guid -> kind -> string -> option exn
  }.

(** ** The task monad *)

Definition M (A : Type) : Type := state -> state * outcome A.

Definition ret {A} (a : A) : M A := fun s => (s, Ok a).

Definition throw {A} (e : exn) : M A := fun s => (s, Throw e).

Definition bind {A B} (m : M A) (k : A -> M B) : M B :=
  fun s =>
    match m s with
    | (s', Ok a) => k a s'
    | (s', Throw e) => (s', Throw e)
    | (s', OutOfFuel) => (s', OutOfFuel)
    end.

Notation "x <- m ;; k" := (bind m (fun x => k))
  (at level 100, m at next level, right associativity).

(** [try { m } catch (e) { h e }]: what [m] wrote before it threw stays. *)
Definition try_catch {A} (m : M A) (h : exn -> M A) : M A :=
  fun s =>
    match m s with
    | (s', Throw e) => h e s'
    | r => r
    end.

Definition lift {A} (r : result A) : M A :=
  match r with
  | Return a => ret a
  | Raise e => throw e
  end.

(** The loop of [eachAttribute] and the [for] loop over the relationships:
    an accumulator threaded through the elements in order. *)
Fixpoint foldM {A B} (f : A -> B -> M A) (a : A) (l : list B) : M A :=
  match l with
  | [] => ret a
  | x :: l' => a' <- f a x ;; foldM f a' l'
  end.

(** One task per element, each run to completion, results in order. *)
Fixpoint mapM {A B} (f : A -> M B) (l : list A) : M (list B) :=
  match l with
  | [] => ret []
  | x :: l' => y <- f x ;; ys <- mapM f l' ;; ret (y :: ys)
  end.

(** ** Reads and writes on the heap *)

(** What [record.get(name)] reads in a given state. *)
Definition read (this : guid) (name : string) (s : state) : value :=
  match heap s !! this with
  | Some o => prop (fields o) name
  | None => VUndefined
  end.

(** [record.get(name)] *)
Definition get (this : guid) (name : string) : M value :=
  fun s => (s, Ok (read this name s)).

(** [this.getProperties(names)]: one key per listed name. *)
Definition getProperties (o : object) (names : list string)
  : gmap string value :=
  list_to_map ((fun n => (n, prop (fields o) n)) <$> names).

Definition set_heap (h : gmap guid object) (s : state) : state :=
  {| heap := h; store := store s; _meta := _meta s; performed := performed s |}.

Definition set_store (st : gset guid) (s : state) : state :=
  {| heap := heap s; store := st; _meta := _meta s; performed := performed s |}.

Definition set_meta (m : meta) (s : state) : state :=
  {| heap := heap s; store := store s; _meta := m; performed := performed s |}.

Definition set_fields (f : gmap string value) (o : object) : object :=
  {| obj_shape := obj_shape o; modelName := modelName o;
     IS_COPYABLE := IS_COPYABLE o; copyableOptions := copyableOptions o;
     attributes := attributes o; relationship_defs := relationship_defs o;
     fields := f; members := members o |}.

Definition set_members (m : gmap string (list guid)) (o : object) : object :=
  {| obj_shape := obj_shape o; modelName := modelName o;
     IS_COPYABLE := IS_COPYABLE o; copyableOptions := copyableOptions o;
     attributes := attributes o; relationship_defs := relationship_defs o;
     fields := fields o; members := m |}.

(** [store.createRecord(modelName)]: a new, unpopulated instance of the
    class of [this]; the class brings the mixin, its options and its
    schema. *)
Definition createRecord (template : object) : M guid :=
  fun s =>
    let g := fresh (dom (heap s)) in
    let o := {| obj_shape := Model; modelName := modelName template;
                IS_COPYABLE := IS_COPYABLE template;
                copyableOptions := copyableOptions template;
                attributes := attributes template;
                relationship_defs := relationship_defs template;
                fields := ∅; members := ∅ |} in
    (set_store ({[g]} ∪ store s) (set_heap (<[g := o]> (heap s)) s), Ok g).

(** [objectDefinition.create({})] and the bare [{}]: an object outside the
    store, with no mixin and no schema. *)
Definition createPlain (definition : option string) : M guid :=
  fun s =>
    let g := fresh (dom (heap s)) in
    let o := {| obj_shape := Plain definition; modelName := "";
                IS_COPYABLE := false; copyableOptions := None;
                attributes := []; relationship_defs := [];
                fields := ∅; members := ∅ |} in
    (set_heap (<[g := o]> (heap s)) s, Ok g).

(** [store.unloadRecord(record)], which is [record.unloadRecord()]: a
    record of the store leaves it; a plain object has no such method. *)
Definition unloadRecord (g : guid) : M unit :=
  fun s =>
    match heap s !! g with
    | Some o =>
        match obj_shape o with
        | Model => (set_store (store s ∖ {[g]}) s, Ok tt)
        | Plain _ => (s, Throw (TypeError "record.unloadRecord is not a function"))
        end
    | None => (s, Throw (TypeError "Cannot read property 'unloadRecord' of undefined"))
    end.

(** Whether a target refuses the properties [attrs]: on a record of the
    store the setter of a to-many relationship takes its elements as
    records, and raises on a collection that holds [undefined].  A plain
    object refuses nothing. *)
Definition refuses (o : object) (attrs : gmap string value) : bool :=
  match obj_shape o with
  | Model =>
      existsb (fun r : string * kind =>
                 match r.2, attrs !! r.1 with
                 | hasMany, Some (VArray vs) => existsb isUndefined vs
                 | _, _ => false
                 end)
              (relationship_defs o)
  | Plain _ => false
  end.

(** [setProperties(model, attrs)]: every own key of [attrs] is set.  When
    a setter raises, the keys that were set before it are not kept here. *)
Definition setProperties (model : guid) (attrs : gmap string value) : M unit :=
  fun s =>
    match heap s !! model with
    | Some o =>
        if refuses o attrs
        then (s, Throw (TypeError "Cannot read property '_internalModel' of undefined"))
        else
          (set_heap (<[model := set_fields (assign (fields o) attrs) o]> (heap s)) s,
           Ok tt)
    | None => (s, Throw (TypeError "setProperties called on undefined"))
    end.

(** [value.get(IS_COPYABLE)] on a value that was found truthy. *)
Definition get_IS_COPYABLE (v : value) : M bool :=
  fun s =>
    match v with
    | VObject g =>
        (s, Ok (match heap s !! g with
                | Some o => IS_COPYABLE o
                | None => false
                end))
    | VArray _ => (s, Ok false)
    | _ => (s, Throw (TypeError "value.get is not a function"))
    end.

(** [relationship.members] is an ordered set: [addRecords] appends the
    records that are not members yet. *)
Definition addRecords (old new : list guid) : list guid :=
  fold_left (fun acc g => if bool_decide (g ∈ acc) then acc else acc ++ [g])
            new old.

(** ** The copy task *)

Section CopyTask.

Variable env : environment.

(** Modelled from the spec: [utils/get-transform] is not part of the
    sources at hand; the spec has a transform resolved once per type and
    session and kept in [_meta.transforms].  A type the container does not
    know resolves to [undefined]. *)
Definition getTransform (type : string) : M (option transform) :=
  fun s =>
    match transforms (_meta s) !! type with
    | Some t => (s, Ok (Some t))
    | None =>
        match lookup_transform env type with
        | Some t =>
            (set_meta (Meta (copies (_meta s)) (<[type := t]> (transforms (_meta s)))
                            (copy_keys (_meta s))) s,
             Ok (Some t))
        | None => (s, Ok None)
        end
    end.

(** [transform.serialize(value, attributeOptions)] followed by
    [transform.deserialize(value, attributeOptions)]. *)
Definition run_transform (t : option transform) (v attributeOptions : value)
  : M value :=
  match t with
  | None => throw (TypeError "Cannot read property 'serialize' of undefined")
  | Some t =>
      v1 <- lift (serialize t v attributeOptions) ;;
      lift (deserialize t v1 attributeOptions)
  end.

(** [Copyable && Copyable.detect(value)] *)
Definition Copyable_detect (v : value) : bool :=
  match Copyable env with
  | Some (detect, _) => detect v
  | None => false
  end.

(** [value.copy(deep)] on a value that [Copyable.detect] accepted. *)
Definition value_copy (v : value) (deep : bool) : M value :=
  match Copyable env with
  | Some (_, copy) => lift (copy v deep)
  | None => throw (TypeError "value.copy is not a function")
  end.

(** The callback handed to [this.eachAttribute] (lines 151-182). *)
Definition copyAttribute (this : guid) (deep : bool) (options : merged_options)
    (dAttrs : gmap string value) (a : string * attr_meta)
  : M (gmap string value) :=
  let name := a.1 in
  let type := attr_type a.2 in
  let attributeOptions := attr_options a.2 in
  if includes name (m_ignoreAttributes options) then
    ret dAttrs
  else if negb (isUndefined (prop (m_overwrite options) name)) then
    ret (<[name := prop (m_overwrite options) name]> dAttrs)
  else if negb (isEmpty type)
          && negb (includes name (m_copyByReference options))
          && negb (match type with
                   | Some t => includes t PRIMITIVE_TYPES
                   | None => false
                   end)
  then
    value <- get this name ;;
    if Copyable_detect value then
      value' <- value_copy value deep ;;
      ret (<[name := value']> dAttrs)
    else
      transform <- getTransform (default "" type) ;;
      value' <- run_transform transform value attributeOptions ;;
      ret (<[name := value']> dAttrs)
  else
    value <- get this name ;;
    ret (<[name := value]> dAttrs).

(** The body of the [try] of lines 203-215: [this\[meta.kind\](name)] and
    [model\[meta.kind\](name)] exist on store models only, and the private
    [addRecords] may raise.  The members are added to the relationship of
    the clone; the inverse relationship that Ember Data keeps on the
    related records is not represented. *)
Definition link_members (this model : guid) (k : kind) (name : string)
  : M unit :=
  fun s =>
    match heap s !! this, heap s !! model with
    | Some src, Some tgt =>
        match obj_shape src, obj_shape tgt with
        | Model, Model =>
            match link_error env this model k name with
            | Some e => (s, Throw e)
            | None =>
                let linked :=
                  addRecords (default [] (members tgt !! name))
                             (default [] (members src !! name)) in
                (set_heap (<[model := set_members (<[name := linked]> (members tgt)) tgt]>
                             (heap s)) s,
                 Ok tt)
            end
        | _, _ => (s, Throw (TypeError "this[meta.kind] is not a function"))
        end
    | _, _ => (s, Throw (TypeError "Cannot read property of undefined"))
    end.

(** [value.get('firstObject')] *)
Definition get_firstObject (v : value) : M value :=
  match v with
  | VArray vs => ret (default VUndefined (head vs))
  | VObject _ => ret VUndefined
  | VUndefined | VNull =>
      throw (TypeError "Cannot read property 'get' of undefined")
  | _ => throw (TypeError "value.get is not a function")
  end.

(** [v && v.get(IS_COPYABLE)] *)
Definition and_IS_COPYABLE (v : value) : M bool :=
  if truthy v then get_IS_COPYABLE v else ret false.

(** One element of [value.getEach(COPY_TASK).invoke('perform', ...)]:
    [invoke] calls the method on the members that have it and sets the
    result at the index of the member; the index of any other member is
    left unset ([None]). *)
Definition perform_member (rec : guid -> bool -> option options -> M guid)
    (deepRel : bool) (relOptions : option options) (member : value)
  : M (option value) :=
  match member with
  | VObject g =>
      c <- get_IS_COPYABLE member ;;
      if c then
        copy <- rec g deepRel relOptions ;;
        ret (Some (VObject copy))
      else ret None
  | _ => ret None
  end.

(** The array that [invoke] returns, as [all] hands it on: it ends with
    the last index that was set, and an index left unset before that one
    reads [undefined]. *)
Fixpoint invoked (results : list (option value)) : list value :=
  match results with
  | [] => []
  | r :: results' =>
      match r, invoked results' with
      | None, [] => []
      | _, vs => default VUndefined r :: vs
      end
  end.

Definition array_items (v : value) : list value :=
  match v with
  | VArray vs => vs
  | _ => []
  end.

(** [relOptions && typeof relOptions.deep === 'boolean' ? relOptions.deep : deep] *)
Definition resolve_deep (relOptions : option options) (deep : bool) : bool :=
  match relOptions with
  | Some o => default deep (rel_deep o)
  | None => deep
  end.

(** One turn of the [for] loop over the relationships (lines 192-244). *)
Definition copyRelationship (rec : guid -> bool -> option options -> M guid)
    (this model : guid) (deep : bool) (options : merged_options)
    (rAttrs : gmap string value) (r : string * kind)
  : M (gmap string value) :=
  let name := r.1 in
  let meta_kind := r.2 in
  if negb (isUndefined (prop (m_overwrite options) name)) then
    ret (<[name := prop (m_overwrite options) name]> rAttrs)
  else if negb deep || includes name (m_copyByReference options) then
    try_catch
      (_ <- link_members this model meta_kind name ;; ret rAttrs)
      (fun e => value <- get this name ;; ret (<[name := value]> rAttrs))
  else
    value <- get this name ;;
    let relOptions := m_relationships options !! name in
    let deepRel := resolve_deep relOptions deep in
    match meta_kind with
    | belongsTo =>
        c <- and_IS_COPYABLE value ;;
        if c then
          match value with
          | VObject g =>
              copy <- rec g deepRel relOptions ;;
              ret (<[name := VObject copy]> rAttrs)
          | _ => ret (<[name := value]> rAttrs)
          end
        else ret (<[name := value]> rAttrs)
    | hasMany =>
        firstObject <- get_firstObject value ;;
        c <- and_IS_COPYABLE firstObject ;;
        if c then
          copies <- mapM (perform_member rec deepRel relOptions) (array_items value) ;;
          ret (<[name := VArray (invoked copies)]> rAttrs)
        else ret (<[name := value]> rAttrs)
    end.

(** [this.eachRelationship] with the filter of lines 185-189. *)
Definition collect_relationships (self : object) (options : merged_options)
  : list (string * kind) :=
  List.filter (fun r => negb (includes r.1 (m_ignoreAttributes options)))
              (relationship_defs self).

(** [copies\[guid\] = model] (line 148): a key that is new comes last in
    the order of the keys, a key that is there keeps its place. *)
Definition register (this model : guid) : M unit :=
  fun s =>
    let keys :=
      match copies (_meta s) !! this with
      | Some _ => copy_keys (_meta s)
      | None => copy_keys (_meta s) ++ [this]
      end in
    (set_meta (Meta (<[this := model]> (copies (_meta s))) (transforms (_meta s)) keys) s,
     Ok tt).

Definition read_properties (this : guid) (names : list string)
  : M (gmap string value) :=
  fun s =>
    (s, Ok (match heap s !! this with
            | Some o => getProperties o names
            | None => ∅
            end)).

(** What one run of the task hands back besides the clone: the three maps
    that the source stores on the [_options] object it was given, when it
    was given one (lines 249-253: [dAttrs], [rAttrs], [attrs]).  Option
    objects are values here, so the maps are returned instead of stored;
    the task reads none of the three keys. *)
Record copied : Type :=
  Copied {
    c_model : guid;
    c_dAttrs : gmap string value;
    c_rAttrs : gmap string value;
    c_attrs : gmap string value
  }.

(** Lines 137-146: the target of the copy. *)
Definition allocate (self : object) (options : merged_options) : M guid :=
  if m_createAsModel options then createRecord self
  else createPlain (m_objectDefinition options).

(** Lines 150-258: the attribute pass, the relationship pass, the merge
    and [setProperties]. *)
Definition populate (rec : guid -> bool -> option options -> M guid)
    (this : guid) (self : object) (model : guid) (deep : bool)
    (options : merged_options) : M copied :=
  dAttrs <- foldM (copyAttribute this deep options) ∅ (attributes self) ;;
  rAttrs <- foldM (copyRelationship rec this model deep options) ∅
                  (collect_relationships self options) ;;
  other <- read_properties this (m_otherAttributes options) ;;
  let attrs := assign (assign (assign other dAttrs) rAttrs) (m_overwrite options) in
  _ <- setProperties model attrs ;;
  ret (Copied model dAttrs rAttrs attrs).

(** Lines 137-258, entered once the memo has no clone for [this]: the
    target is registered in [copies] (line 148) before anything is
    copied. *)
Definition copy_fresh (rec : guid -> bool -> option options -> M guid)
    (this : guid) (self : object) (deep : bool) (options : merged_options)
  : M copied :=
  model <- allocate self options ;;
  _ <- register this model ;;
  populate rec this self model deep options.

(** Enters a perform of the task on [this] in the log; the log is not in
    the source, it is kept to state which performs a copy starts. *)
Definition log_perform (this : guid) : M unit :=
  fun s =>
    ({| heap := heap s; store := store s; _meta := _meta s;
        performed := performed s ++ [this] |}, Ok tt).

(** The generator of [COPY_TASK] (lines 120-259), with its recursive
    performs abstracted as [rec]. *)
Definition copy_body (rec : guid -> bool -> option options -> M guid)
    (this : guid) (deep : bool) (_options : option options) : M guid :=
  _ <- log_perform this ;;
  fun s =>
    match heap s !! this with
    | None => (s, Throw (TypeError "COPY_TASK performed on undefined"))
    | Some self =>
        let options := assign_options (copyableOptions self) _options in
        match copies (_meta s) !! this with
        | Some copy => (s, Ok copy)
        | None =>
            (c <- copy_fresh rec this self deep options ;; ret (c_model c)) s
        end
    end.

(** [this.get(COPY_TASK).perform(deep, _options, _meta)]; [fuel] bounds the
    depth of nested performs. *)
Fixpoint COPY_TASK (fuel : nat) (this : guid) (deep : bool)
    (_options : option options) {struct fuel} : M guid :=
  match fuel with
  | O => fun s => (s, OutOfFuel)
  | S fuel' => copy_body (COPY_TASK fuel') this deep _options
  end.

(** [store.unloadRecord(_meta.copies\[key\])] (line 106). *)
Definition unload_copy (key : guid) : M unit :=
  fun s =>
    match copies (_meta s) !! key with
    | Some c => unloadRecord c s
    | None => (s, Throw (TypeError "Cannot read property 'unloadRecord' of undefined"))
    end.

(** The [forEach] of the [finally] (lines 100-106): the keys of
    [_meta.copies] in their order; an exception ends the walk. *)
Definition unload_copies : M unit :=
  fun s => foldM (fun _ key => unload_copy key) tt (copy_keys (_meta s)) s.

(** The generator of [COPY_TASK_RUNNER] (lines 83-109): a new session and
    the copy task; on failure the [catch] throws [new Error(e)] and the
    [finally] runs the rollback, whose own exception, if it raises one,
    is the one that leaves the generator. *)
Definition COPY_TASK_RUNNER (fuel : nat) (this : guid) (deep : bool)
    (options : option options) : M guid :=
  fun s =>
    match COPY_TASK fuel this deep options (set_meta new_meta s) with
    | (s', Ok model) => (s', Ok model)
    | (s', Throw e) => (_ <- unload_copies ;; throw (NewError e)) s'
    | (s', OutOfFuel) => (s', OutOfFuel)
    end.

End CopyTask.

(** ** The entry point and the drop policy of its task *)

(** The two task declarations of the mixin: [task(...)] for [COPY_TASK]
    (the note above it: no concurrency policy, it would break cyclic
    relationships) and [task(...).drop()] for [COPY_TASK_RUNNER]. *)
Inductive policy : Type := Unrestricted | Drop.

Definition COPY_TASK_policy : policy := Unrestricted.
Definition COPY_TASK_RUNNER_policy : policy := Drop.

(** A running instance of the runner task: the record it was performed
    on and the arguments of the call. *)
Record call : Type :=
  Call {
    call_this : guid;
    call_deep : bool;
    call_options : option options
  }.

Inductive started : Type := Running | Dropped.

(** [task.perform(...)] against the instances of that task that run on
    the same object: a task that drops cancels the new instance before it
    starts whenever one is running. *)
Definition perform (p : policy) (running : list call) (c : call)
  : list call * started :=
  match p with
  | Unrestricted => (running ++ [c], Running)
  | Drop =>
      if existsb (fun r => Pos.eqb (call_this r) (call_this c)) running
      then (running, Dropped)
      else (running ++ [c], Running)
  end.

Record system : Type :=
  System {
    sys_state : state;
    in_flight : list call
  }.

(** [copy(deep, options)]: [this.get(COPY_TASK_RUNNER).perform(...arguments)]. *)
Definition copy (this : guid) (deep : bool) (options : option options)
    (sys : system) : system * started :=
  let r := perform COPY_TASK_RUNNER_policy (in_flight sys) (Call this deep options) in
  (System (sys_state sys) r.1, r.2).

(** The running instance at position [i] runs its generator to the end. *)
Definition settle (env : environment) (fuel : nat) (i : nat) (sys : system)
  : system * option (outcome guid) :=
  match in_flight sys !! i with
  | None => (sys, None)
  | Some c =>
      let r := COPY_TASK_RUNNER env fuel (call_this c) (call_deep c)
                                (call_options c) (sys_state sys) in
      (System r.1 (delete i (in_flight sys)), Some r.2)
  end.

(** The systems that calls of [copy] and completions of running copies
    lead to, starting with nothing in flight. *)
Inductive reachable (env : environment) : system -> Prop :=
| reach_init s : reachable env (System s [])
| reach_copy sys this deep options :
    reachable env sys -> reachable env (copy this deep options sys).1
| reach_settle sys fuel i :
    reachable env sys -> reachable env (settle env fuel i sys).1.

(** * Notions used by the statements *)

(** The state once a perform on [this] is entered in the log. *)
Definition logged (this : guid) (s : state) : state := (log_perform this s).1.

(** The options with the key [name] removed from [overwrite]. *)
Definition without_overwrite (name : string) (o : merged_options) : merged_options :=
  {| m_ignoreAttributes := m_ignoreAttributes o;
     m_otherAttributes := m_otherAttributes o;
     m_copyByReference := m_copyByReference o;
     m_overwrite := delete name (m_overwrite o);
     m_relationships := m_relationships o;
     m_createAsModel := m_createAsModel o;
     m_objectDefinition := m_objectDefinition o |}.

(** [keeps model name s s']: between [s] and [s'] the object [model] kept
    its fields and its membership for relationship [name]. *)
Definition keeps (model : guid) (name : string) (s s' : state) : Prop :=
  forall o, heap s !! model = Some o ->
            exists o', heap s' !! model = Some o' /\ fields o' = fields o /\
                       members o' !! name = members o !! name.

(** Whether a value is a record that carries the mixin: what
    [get(IS_COPYABLE)] and [get(COPY_TASK)] find. *)
Definition exposes_copy (v : value) (s : state) : bool :=
  match v with
  | VObject g =>
      match heap s !! g with
      | Some o => IS_COPYABLE o
      | None => false
      end
  | _ => false
  end.

(** [members_performed rec deepRel relOptions items s cs s']: starting in
    [s], the members [items] were gone through in order; a member that
    exposes the copy capability was performed with [deepRel] and
    [relOptions] and left its clone at its index, the index of any other
    member was left unset; [cs] collects the results in the order of
    [items] and [s'] is the state reached. *)
Inductive members_performed (rec : guid -> bool -> option options -> M guid)
    (deepRel : bool) (relOptions : option options)
  : list value -> state -> list (option value) -> state -> Prop :=
| mp_nil s : members_performed rec deepRel relOptions [] s [] s
| mp_copy g c items s s1 cs s2 :
    exposes_copy (VObject g) s = true ->
    rec g deepRel relOptions s = (s1, Ok c) ->
    members_performed rec deepRel relOptions items s1 cs s2 ->
    members_performed rec deepRel relOptions (VObject g :: items) s
                      (Some (VObject c) :: cs) s2
| mp_skip v items s cs s2 :
    exposes_copy v s = false ->
    members_performed rec deepRel relOptions items s cs s2 ->
    members_performed rec deepRel relOptions (v :: items) s (None :: cs) s2.

(** [same_objects s s']: no object was written and nothing was performed
    between [s] and [s']. *)
Definition same_objects (s s' : state) : Prop :=
  heap s' = heap s /\ performed s' = performed s.

(** [le m m']: whenever [m] finishes within its fuel, [m'] does the same. *)
Definition le {A} (m m' : M A) : Prop :=
  forall s s' r, m s = (s', r) -> r ≠ OutOfFuel -> m' s = (s', r).

(** [safe I m]: from a state in [I], [m] does not exhaust its fuel. *)
Definition safe {A} (I : state -> Prop) (m : M A) : Prop :=
  forall s, I s -> (m s).2 ≠ OutOfFuel.

(** The records a value refers to: the record itself, or the records in a
    collection. *)
Definition refs (v : value) : list guid :=
  match v with
  | VObject g => [g]
  | VArray vs =>
      omap (fun v => match v with VObject g => Some g | _ => None end) vs
  | _ => []
  end.

(** A record graph: every record that a property refers to is in the
    heap. *)
Definition closed (h : gmap guid object) : Prop :=
  map_Forall (fun _ o =>
    map_Forall (fun _ v => Forall (fun g => g ∈ dom h) (refs v)) (fields o)) h.

(** [good h0 fuel s]: the records of the graph [h0] are in the heap of [s]
    as they were, and fewer than [fuel] of them have no clone yet. *)
Definition good (h0 : gmap guid object) (fuel : nat) (s : state) : Prop :=
  (forall g o, h0 !! g = Some o -> heap s !! g = Some o) /\
  size (dom h0 ∖ dom (copies (_meta s))) < fuel.

(** The invariant that holds of every state. *)
Definition anything : state -> Prop := fun _ => True.

(** [guarded this rec]: the perform [rec], refused in any state in which
    [this] has no entry in [copies]. *)
Definition guarded (this : guid) (rec : guid -> bool -> option options -> M guid)
  : guid -> bool -> option options -> M guid :=
  fun g d o s =>
    if bool_decide (is_Some (copies (_meta s) !! this)) then rec g d o s
    else (s, OutOfFuel).

(** [agree I m m']: [m] and [m'] run alike from every state in [I]. *)
Definition agree {A} (I : state -> Prop) (m m' : M A) : Prop :=
  forall s, I s -> m s = m' s.

(** [store_record c s]: [c] is a record of a model class, as
    [store.createRecord] makes them, and no plain object. *)
Definition store_record (c : guid) (s : state) : bool :=
  match heap s !! c with
  | Some o => match obj_shape o with Model => true | Plain _ => false end
  | None => false
  end.

(** [keys_listed s]: the list of keys of [copies] holds the keys of
    [copies], and nothing else. *)
Definition keys_listed (s : state) : Prop :=
  forall g, g ∈ copy_keys (_meta s) <-> is_Some (copies (_meta s) !! g).

(** [session_step W s s']: between [s] and [s'] only the objects in [W]
    were written, no object disappeared, the memo only gained entries,
    its keys stayed listed, and the log of performs only grew. *)
Record session_step (W : guid -> Prop) (s s' : state) : Prop :=
  SessionStep {
    ss_heap : forall g o, ~ W g -> heap s !! g = Some o -> heap s' !! g = Some o;
    ss_dom : forall g, is_Some (heap s !! g) -> is_Some (heap s' !! g);
    ss_copies : copies (_meta s) ⊆ copies (_meta s');
    ss_store : store s ⊆ store s';
    ss_performed : performed s `prefix_of` performed s';
    ss_keys : keys_listed s -> keys_listed s'
  }.

Definition nothing : guid -> Prop := fun _ => False.

(** [pres R m]: running [m] relates the state before to the state after,
    whatever the outcome. *)
Definition pres {A} (R : state -> state -> Prop) (m : M A) : Prop :=
  forall s, R s (m s).1.

(** ** Record graphs used in the examples *)

Definition identity_transform : transform :=
  Transform (fun v _ => Return v) (fun v _ => Return v).

(** A container that knows the [json] transform only, with a working
    relationship API. *)
Definition env0 : environment :=
  {| lookup_transform := fun t => if String.eqb t "json" then Some identity_transform else None;
     Copyable := None;
     link_error := fun _ _ _ _ => None |}.

(** The same container with a relationship API that always raises. *)
Definition env_no_link : environment :=
  {| lookup_transform := lookup_transform env0;
     Copyable := None;
     link_error := fun _ _ _ _ => Some (TypeError "hasManyRelationship is undefined") |}.

Definition record (name : string) (opts : option options)
    (attrs : list (string * attr_meta)) (rels : list (string * kind))
    (props : list (string * value)) (mems : list (string * list guid)) : object :=
  {| obj_shape := Model; modelName := name; IS_COPYABLE := true;
     copyableOptions := opts; attributes := attrs; relationship_defs := rels;
     fields := list_to_map props; members := list_to_map mems |}.

(** A record of a model class without the mixin. *)
Definition plain_record (name : string) (props : list (string * value)) : object :=
  {| obj_shape := Model; modelName := name; IS_COPYABLE := false;
     copyableOptions := None; attributes := []; relationship_defs := [];
     fields := list_to_map props; members := ∅ |}.

Definition start (h : gmap guid object) : state := State h (dom h) new_meta [].

Definition string_attr : attr_meta := AttrMeta (Some "string") VUndefined.

(** The scenario of the specification: post 1 with comments 2 and 3, both
    written by user 4. *)
Definition post_1 : object :=
  record "post" None [("title", string_attr)] [("comments", hasMany)]
         [("title", VString "x");
          ("comments", VArray [VObject 2%positive; VObject 3%positive])]
         [("comments", [2%positive; 3%positive])].

Definition blog : gmap guid object :=
  list_to_map
    [(1%positive, post_1);
     (2%positive, record "comment" None [] [("author", belongsTo)]
           [("author", VObject 4%positive)] [("author", [4%positive])]);
     (3%positive, record "comment" None [] [("author", belongsTo)]
           [("author", VObject 4%positive)] [("author", [4%positive])]);
     (4%positive, record "user" None [("name", string_attr)] []
           [("name", VString "u")] [])].

(** Two records that point at each other. *)
Definition pair : gmap guid object :=
  list_to_map
    [(1%positive, record "node" None [] [("next", belongsTo)]
           [("next", VObject 2%positive)] [("next", [2%positive])]);
     (2%positive, record "node" None [] [("next", belongsTo)]
           [("next", VObject 1%positive)] [("next", [1%positive])])].

(** A post whose second comment carries an attribute of a type that has no
    transform. *)
Definition broken_blog : gmap guid object :=
  list_to_map
    [(1%positive, record "post" None [("title", string_attr)] [("comments", hasMany)]
           [("title", VString "x");
            ("comments", VArray [VObject 2%positive; VObject 3%positive])]
           [("comments", [2%positive; 3%positive])]);
     (2%positive, record "comment" None [] [] [] []);
     (3%positive, record "comment" None [("stamp", AttrMeta (Some "date") VUndefined)] []
           [("stamp", VNumber 7)] [])].

(** A post whose model class ignores its comments. *)
Definition ignoring_options : options :=
  Options (Some ["comments"]) None None None None None None None.

Definition quiet_post : object :=
  record "post" (Some ignoring_options) [("title", string_attr)]
         [("comments", hasMany)]
         [("title", VString "x"); ("comments", VArray [VObject 2%positive])]
         [("comments", [2%positive])].

Definition quiet_blog : gmap guid object :=
  list_to_map
    [(1%positive, quiet_post);
     (2%positive, record "comment" None [] [] [] [])].

(** A folder whose items are a record with the mixin followed by a record
    without it. *)
Definition folder_1 : object :=
  record "folder" None [] [("items", hasMany)]
         [("items", VArray [VObject 2%positive; VObject 3%positive])]
         [("items", [2%positive; 3%positive])].

Definition mixed_folder : gmap guid object :=
  list_to_map
    [(1%positive, folder_1);
     (2%positive, record "note" None [] [] [] []);
     (3%positive, plain_record "link" [])].

(** A folder whose items are a record without the mixin between two
    records with it. *)
Definition holed_folder : gmap guid object :=
  list_to_map
    [(1%positive, record "folder" None [] [("items", hasMany)]
         [("items", VArray [VObject 2%positive; VObject 3%positive; VObject 4%positive])]
         [("items", [2%positive; 3%positive; 4%positive])]);
     (2%positive, record "note" None [] [] [] []);
     (3%positive, plain_record "link" []);
     (4%positive, record "note" None [] [] [] [])].

(** Call-site options that overwrite [title] and ignore it as well. *)
Definition retitle : options :=
  Options (Some ["title"]) None (Some ["title"])
          (Some {[ "title" := VString "y" ]}) None None None None.

(** Call-site options whose overwrite holds [title] with no value. *)
Definition untitle : options :=
  Options None None None (Some {[ "title" := VUndefined ]}) None None None None.

(** Call-site options that ignore [title]. *)
Definition skip_title : options :=
  Options (Some ["title"]) None None None None None None None.

(** ** Properties as the specification words them *)

(** The rollback as the specification has it: the caller sees the error
    [e] that the copy task raised. *)
Definition rollback_as_specified (env : environment) (fuel : nat) (this : guid)
    (deep : bool) (_options : option options) (s : state) : Prop :=
  forall s1 e,
    COPY_TASK env fuel this deep _options (set_meta new_meta s) = (s1, Throw e) ->
    exists s',
      COPY_TASK_RUNNER env fuel this deep _options s = (s', Throw e) /\
      forall g c, copies (_meta s1) !! g = Some c -> c ∉ store s'.

(** What it is for relationship [name] of a clone to be tied to the
    related records of the source: the low-level link, or the value read. *)
Definition tied (self clone : object) (name : string) : Prop :=
  (forall g, g ∈ default [] (members clone !! name) <->
             g ∈ default [] (members self !! name)) \/
  fields clone !! name = Some (prop (fields self) name).

(** The shallow copy as the specification has it: every relationship of
    the clone is tied to the related records of the source. *)
Definition shallow_as_specified (env : environment) (fuel : nat) (this : guid)
    (s : state) : Prop :=
  forall self s' model clone,
    heap s !! this = Some self ->
    COPY_TASK_RUNNER env fuel this false (Some no_options) s = (s', Ok model) ->
    heap s' !! model = Some clone ->
    forall name k, (name, k) ∈ relationship_defs self -> tied self clone name.

(** The deep copy of a to-many relationship as the specification has it:
    a collection that is empty or whose members do not expose the copy
    capability is kept, and of any other collection every member is
    copied, the result holding the clones in the order of the source. *)
Definition to_many_as_specified (env : environment) (fuel : nat) (this : guid)
    (name : string) (s : state) : Prop :=
  forall self items s' model clone,
    heap s !! this = Some self ->
    copyableOptions self = None ->
    (name, hasMany) ∈ relationship_defs self ->
    read this name s = VArray items ->
    COPY_TASK_RUNNER env fuel this true (Some no_options) s = (s', Ok model) ->
    heap s' !! model = Some clone ->
    (Forall (fun v => exposes_copy v s = false) items ->
     fields clone !! name = Some (VArray items)) /\
    (~ Forall (fun v => exposes_copy v s = false) items ->
     exists cs,
       fields clone !! name = Some (VArray cs) /\
       Forall2 (fun item c => exists g c', item = VObject g /\ c = VObject c' /\
                                           copies (_meta s') !! g = Some c')
               items cs).

(** States reached in the examples. *)

(** The two records of [pair]. *)
Definition node_1 : object :=
  record "node" None [] [("next", belongsTo)]
         [("next", VObject 2%positive)] [("next", [2%positive])].

Definition node_2 : object :=
  record "node" None [] [("next", belongsTo)]
         [("next", VObject 1%positive)] [("next", [1%positive])].

(** The session of a copy of record 1 of [pair] when the relationship
    pass of record 1 starts: its clone, object 3, is allocated and
    registered, and nothing is copied yet. *)
Definition pair_in_progress : state :=
  (register 1%positive 3%positive
     (allocate node_1 DEFAULT_OPTIONS
        (logged 1%positive (set_meta new_meta (start pair)))).1).1.

(** That session once the nested perform on record 2 has returned. *)
Definition pair_second_copied : state :=
  (COPY_TASK env0 2 2%positive true None pair_in_progress).1.

Definition broken_failed : state :=
  (COPY_TASK env0 5 1%positive true None (set_meta new_meta (start broken_blog))).1.

Definition serialize_error : exn :=
  TypeError "Cannot read property 'serialize' of undefined".

(** The blog once the clone of the post is allocated, as object 5. *)
Definition blog_allocated : state :=
  (allocate post_1 DEFAULT_OPTIONS (start blog)).1.

Definition blog_retitled : state :=
  (COPY_TASK_RUNNER env0 3 1%positive true (Some retitle) (start blog)).1.

Definition blog_untitled : state :=
  (COPY_TASK_RUNNER env0 3 1%positive true (Some untitle) (start blog)).1.

Definition blog_without_title : state :=
  (COPY_TASK_RUNNER env0 3 1%positive true (Some skip_title) (start blog)).1.

Definition blog_shallow : state :=
  (COPY_TASK_RUNNER env0 1 1%positive false (Some no_options) (start blog)).1.

Definition mixed_folder_copied : state :=
  (COPY_TASK_RUNNER env0 3 1%positive true (Some no_options) (start mixed_folder)).1.

Definition blog_in_flight : system :=
  (copy 1%positive true None (System (start blog) [])).1.

(** ** Notions used by the further properties *)

(** [session_wf h0 st0 s]: where a session that started on the heap [h0]
    and the store [st0] stands in [s].  The objects of [h0] are still
    there; every clone in [copies] is an object that [h0] did not have; no
    two records share a clone; every object that [h0] did not have is a
    clone in [copies]; and so is every record that [st0] did not hold. *)
Record session_wf (h0 : gmap guid object) (st0 : gset guid) (s : state) : Prop :=
  SessionWf {
    wf_dom : forall g, is_Some (h0 !! g) -> is_Some (heap s !! g);
    wf_new : forall k c, copies (_meta s) !! k = Some c ->
                         h0 !! c = None /\ is_Some (heap s !! c);
    wf_inj : forall k1 k2 c, copies (_meta s) !! k1 = Some c ->
                             copies (_meta s) !! k2 = Some c -> k1 = k2;
    wf_created : forall g, is_Some (heap s !! g) ->
                           is_Some (h0 !! g) \/ exists k, copies (_meta s) !! k = Some g;
    wf_store : forall g, g ∈ store s ->
                         g ∈ st0 \/ exists k, copies (_meta s) !! k = Some g
  }.

(** [keeps_wf h0 st0 s s']: the step from [s] to [s'] keeps [session_wf]. *)
Definition keeps_wf (h0 : gmap guid object) (st0 : gset guid) (s s' : state) : Prop :=
  session_wf h0 st0 s -> session_wf h0 st0 s'.

(** [keeps_class model s s']: between [s] and [s'] the object [model]
    stayed what it was created as: the same kind of object, of the same
    model class. *)
Definition keeps_class (model : guid) (s s' : state) : Prop :=
  forall o, heap s !! model = Some o ->
            exists o', heap s' !! model = Some o' /\
                       obj_shape o' = obj_shape o /\ modelName o' = modelName o.

(** The test of lines 156-160: whether an attribute is cloned (by its own
    [copy] or by a transform) rather than taken as it is. *)
Definition cloned_by_value (options : merged_options) (a : string * attr_meta) : bool :=
  negb (isEmpty (attr_type a.2))
  && negb (includes a.1 (m_copyByReference options))
  && negb (match attr_type a.2 with
           | Some t => includes t PRIMITIVE_TYPES
           | None => false
           end).

(** [cache_ok env s]: every transform in the session cache is the one the
    container resolves for its type. *)
Definition cache_ok (env : environment) (s : state) : Prop :=
  forall t tr, transforms (_meta s) !! t = Some tr -> lookup_transform env t = Some tr.

(** [attribute_step env s s']: what a turn of the attribute loop may do
    to the state: no object is written, and the cache stays right. *)
Definition attribute_step (env : environment) (s s' : state) : Prop :=
  heap s' = heap s /\ (cache_ok env s -> cache_ok env s').

(** [sources_kept s0 this self s]: the objects of [s0] are in [s] as they
    were, among them the record [this] being copied. *)
Definition sources_kept (s0 : state) (this : guid) (self : object) (s : state) : Prop :=
  heap s !! this = Some self /\
  forall g o, heap s0 !! g = Some o -> heap s !! g = Some o.

(** What it is for a collection [cs] to hold, in order, the clones that
    the session of [s] records for the records of [items]. *)
Definition clones_in_order (items cs : list value) (s : state) : Prop :=
  Forall2 (fun item c => exists g c', item = VObject g /\ c = VObject c' /\
                                      copies (_meta s) !! g = Some c')
          items cs.

(** ** Record graphs used for the further properties *)

(** The container of [env0] in a framework that still has
    [Ember.Copyable]: the arrays are the values that carry it, and their
    [copy] gives them back. *)
Definition env_copyable : environment :=
  {| lookup_transform := lookup_transform env0;
     Copyable := Some ((fun v => match v with VArray _ => true | _ => false end),
                       (fun v _ => Return v));
     link_error := fun _ _ _ _ => None |}.

Definition json_attr : attr_meta := AttrMeta (Some "json") VUndefined.

Definition array_attr : attr_meta := AttrMeta (Some "array") VUndefined.

Definition user_2 : object :=
  record "user" None [("name", string_attr)] [] [("name", VString "u")] [].

Definition folder_3 : object := plain_record "folder" [].

(** A note with attributes of a primitive type, of a type with a
    transform and of a type without one, written by user 2 and filed in
    folder 3, whose class does not carry the mixin. *)
Definition note_1 : object :=
  record "note" None
         [("title", string_attr); ("body", json_attr); ("labels", array_attr)]
         [("author", belongsTo); ("folder", belongsTo)]
         [("title", VString "t"); ("body", VString "b");
          ("labels", VArray [VString "l"]);
          ("author", VObject 2%positive); ("folder", VObject 3%positive);
          ("draft", VBool true)]
         [("author", [2%positive]); ("folder", [3%positive])].

Definition notebook : gmap guid object :=
  list_to_map [(1%positive, note_1); (2%positive, user_2); (3%positive, folder_3)].

(** Call-site options that copy the property [draft] as well. *)
Definition keep_draft : options :=
  Options None (Some ["draft"]) None None None None None None.

(** Call-site options that ask for a plain object. *)
Definition as_plain_object : options :=
  Options None None None None None (Some false) None None.

(** Call-site options that copy [comments] by reference. *)
Definition comments_by_reference : options :=
  Options None None (Some ["comments"]) None None None None None.

Definition comment_2 : object :=
  record "comment" None [] [("author", belongsTo)]
         [("author", VObject 4%positive)] [("author", [4%positive])].

Definition blog_copied : state :=
  (COPY_TASK_RUNNER env0 3 1%positive true None (start blog)).1.

Definition blog_as_plain_object : state :=
  (COPY_TASK_RUNNER env0 1 1%positive false (Some as_plain_object) (start blog)).1.

Definition blog_by_reference : state :=
  (COPY_TASK_RUNNER env0 3 1%positive true (Some comments_by_reference) (start blog)).1.

Definition notebook_copied : state :=
  (COPY_TASK_RUNNER env_copyable 2 1%positive true None (start notebook)).1.

Definition notebook_with_draft : state :=
  (COPY_TASK_RUNNER env_copyable 2 1%positive true (Some keep_draft) (start notebook)).1.

Definition broken_rolled_back : state :=
  (COPY_TASK_RUNNER env0 5 1%positive true None (start broken_blog)).1.

(** * Verification *)

(** ** Inversion of monadic code *)

Lemma bind_Ok {A B} (m : M A) (k : A -> M B) s s' b :
  bind m k s = (s', Ok b) ->
  exists a s1, m s = (s1, Ok a) /\ k a s1 = (s', Ok b).
Proof.
  unfold bind. destruct (m s) as [s1 [a|e|]]; intros H; try discriminate.
  exists a, s1. split; [reflexivity | exact H].
Qed.

Lemma bind_run {A B} (m : M A) (k : A -> M B) s s1 a :
  m s = (s1, Ok a) -> bind m k s = k a s1.
Proof. intros H. unfold bind. rewrite H. reflexivity. Qed.

Lemma bind_Throw {A B} (m : M A) (k : A -> M B) s s1 e :
  m s = (s1, Throw e) -> bind m k s = (s1, Throw e).
Proof. intros H. unfold bind. rewrite H. reflexivity. Qed.

Lemma ret_Ok {A} (a b : A) s s' : ret a s = (s', Ok b) -> s' = s /\ b = a.
Proof. unfold ret. intros H. inversion H. auto. Qed.

(** Splits a hypothesis [(x <- m ;; k) s = (s', Ok b)] into its steps. *)
Ltac bind_inv H :=
  let a := fresh "a" in
  let s1 := fresh "s" in
  let H1 := fresh "Hstep" in
  apply bind_Ok in H as (a & s1 & H1 & H).

Lemma setProperties_Ok model attrs s s' u :
  setProperties model attrs s = (s', Ok u) ->
  exists o, heap s !! model = Some o /\
            heap s' = <[model := set_fields (assign (fields o) attrs) o]> (heap s) /\
            _meta s' = _meta s /\ store s' = store s /\ performed s' = performed s.
Proof.
  unfold setProperties. destruct (heap s !! model) as [o|] eqn:Ho; [|discriminate].
  destruct (refuses o attrs); intros H; inversion H; subst. exists o. simpl. auto.
Qed.

Lemma populate_Ok env rec this self model deep options s s' c :
  populate env rec this self model deep options s = (s', Ok c) ->
  exists dAttrs rAttrs other s1 s2 o,
    foldM (copyAttribute env this deep options) ∅ (attributes self) s = (s1, Ok dAttrs) /\
    foldM (copyRelationship env rec this model deep options) ∅
          (collect_relationships self options) s1 = (s2, Ok rAttrs) /\
    read_properties this (m_otherAttributes options) s2 = (s2, Ok other) /\
    c = Copied model dAttrs rAttrs
               (assign (assign (assign other dAttrs) rAttrs) (m_overwrite options)) /\
    heap s2 !! model = Some o /\
    heap s' = <[model := set_fields (assign (fields o) (c_attrs c)) o]> (heap s2) /\
    _meta s' = _meta s2 /\ store s' = store s2 /\ performed s' = performed s2.
Proof.
  unfold populate. intros H.
  bind_inv H. bind_inv H. bind_inv H. bind_inv H.
  apply ret_Ok in H as [-> ->].
  assert (s2 = s1) as -> by (unfold read_properties in Hstep1; by inversion Hstep1).
  apply setProperties_Ok in Hstep2 as (o & Ho & Hh & Hm & Hst & Hp).
  exists a, a0, a1, s0, s1, o. simpl. auto 10.
Qed.

Lemma copy_fresh_Ok env rec this self deep options s s' c :
  copy_fresh env rec this self deep options s = (s', Ok c) ->
  exists s1 s2,
    allocate self options s = (s1, Ok (c_model c)) /\
    register this (c_model c) s1 = (s2, Ok tt) /\
    populate env rec this self (c_model c) deep options s2 = (s', Ok c).
Proof.
  unfold copy_fresh. intros H. bind_inv H. bind_inv H.
  destruct a0.
  assert (c_model c = a) as ->.
  { apply populate_Ok in H as (?&?&?&?&?&?&_&_&_&->&_). reflexivity. }
  eauto.
Qed.

(** After [setProperties], the clone holds every key of the merged
    attribute set. *)
Lemma copy_fresh_fields env rec this self deep options s s' c :
  copy_fresh env rec this self deep options s = (s', Ok c) ->
  exists o, heap s' !! c_model c = Some o /\
            forall name v, c_attrs c !! name = Some v -> fields o !! name = Some v.
Proof.
  intros H. apply copy_fresh_Ok in H as (s1 & s2 & _ & _ & H).
  apply populate_Ok in H as (dA & rA & ot & s3 & s4 & o & _ & _ & _ & _ & Ho & Hh & _).
  rewrite Hh. eexists. rewrite lookup_insert_eq. split; [reflexivity|].
  intros name v Hv. simpl. unfold assign at 1. by apply lookup_union_Some_l.
Qed.

(** ** What every step of a session preserves *)

Lemma session_step_refl W s : session_step W s s.
Proof. split; auto. Qed.

Lemma session_step_trans W s1 s2 s3 :
  session_step W s1 s2 -> session_step W s2 s3 -> session_step W s1 s3.
Proof.
  intros [H1 D1 C1 S1 P1 K1] [H2 D2 C2 S2 P2 K2]. split; auto.
  - by etrans.
  - by etrans.
  - by etrans.
Qed.

Lemma session_step_weaken (W W' : guid -> Prop) s s' :
  (forall g, W g -> W' g) -> session_step W s s' -> session_step W' s s'.
Proof. intros HW [H D C S P K]. split; auto. Qed.

Section Pres.
Context (R : state -> state -> Prop).
Hypothesis R_refl : forall s, R s s.
Hypothesis R_trans : forall s1 s2 s3, R s1 s2 -> R s2 s3 -> R s1 s3.

Lemma pres_ret {A} (a : A) : pres R (ret a).
Proof. intros s. apply R_refl. Qed.

Lemma pres_throw {A} e : pres R (@throw A e).
Proof. intros s. apply R_refl. Qed.

Lemma pres_lift {A} (r : result A) : pres R (lift r).
Proof. destruct r; [apply pres_ret | apply pres_throw]. Qed.

Lemma pres_bind {A B} (m : M A) (k : A -> M B) :
  pres R m -> (forall a, pres R (k a)) -> pres R (bind m k).
Proof.
  intros Hm Hk s. unfold bind. specialize (Hm s).
  destruct (m s) as [s1 [a|e|]]; simpl in *; auto.
  eapply R_trans; [exact Hm | apply Hk].
Qed.

Lemma pres_try_catch {A} (m : M A) (h : exn -> M A) :
  pres R m -> (forall e, pres R (h e)) -> pres R (try_catch m h).
Proof.
  intros Hm Hh s. unfold try_catch. specialize (Hm s).
  destruct (m s) as [s1 [a|e|]]; simpl in *; auto.
  eapply R_trans; [exact Hm | apply Hh].
Qed.

Lemma pres_foldM {A B} (f : A -> B -> M A) l :
  (forall a x, pres R (f a x)) -> forall a, pres R (foldM f a l).
Proof.
  intros Hf. induction l as [|x l IH]; intros a; simpl.
  - apply pres_ret.
  - apply pres_bind; auto.
Qed.

Lemma pres_mapM {A B} (f : A -> M B) l :
  (forall x, pres R (f x)) -> pres R (mapM f l).
Proof.
  intros Hf. induction l as [|x l IH]; simpl.
  - apply pres_ret.
  - apply pres_bind; [apply Hf|]. intros y.
    apply pres_bind; [exact IH|]. intros ys. apply pres_ret.
Qed.

Lemma pres_get this name : pres R (get this name).
Proof. intros s. apply R_refl. Qed.

Lemma pres_get_IS_COPYABLE v : pres R (get_IS_COPYABLE v).
Proof. intros s. unfold get_IS_COPYABLE. destruct v; apply R_refl. Qed.

Lemma pres_and_IS_COPYABLE v : pres R (and_IS_COPYABLE v).
Proof.
  unfold and_IS_COPYABLE. destruct (truthy v);
    [apply pres_get_IS_COPYABLE | apply pres_ret].
Qed.

Lemma pres_get_firstObject v : pres R (get_firstObject v).
Proof. destruct v; simpl; first [apply pres_ret | apply pres_throw]. Qed.

Lemma pres_read_properties this names : pres R (read_properties this names).
Proof. intros s. apply R_refl. Qed.

Lemma pres_run_transform t v ao : pres R (run_transform t v ao).
Proof.
  destruct t as [t|]; simpl; [|apply pres_throw].
  apply pres_bind; [apply pres_lift|]. intros; apply pres_lift.
Qed.

Lemma pres_value_copy env v deep : pres R (value_copy env v deep).
Proof.
  unfold value_copy. destruct (Copyable env) as [[d c]|];
    [apply pres_lift | apply pres_throw].
Qed.

(** The attribute pass writes the transform cache only. *)
Lemma pres_copyAttribute env this deep options dAttrs a :
  (forall type, pres R (getTransform env type)) ->
  pres R (copyAttribute env this deep options dAttrs a).
Proof.
  intros HT. unfold copyAttribute.
  destruct (includes _ _); [apply pres_ret|].
  destruct (negb (isUndefined _)); [apply pres_ret|].
  destruct (_ && _).
  - apply pres_bind; [apply pres_get|]. intros value.
    destruct (Copyable_detect env value).
    + apply pres_bind; [apply pres_value_copy|]. intros; apply pres_ret.
    + apply pres_bind; [apply HT|]. intros t.
      apply pres_bind; [apply pres_run_transform|]. intros; apply pres_ret.
  - apply pres_bind; [apply pres_get|]. intros; apply pres_ret.
Qed.

Lemma pres_perform_member rec deepRel relOptions member :
  (forall g d o, pres R (rec g d o)) ->
  pres R (perform_member rec deepRel relOptions member).
Proof.
  intros Hrec. destruct member; simpl; try apply pres_ret.
  apply pres_bind; [apply (pres_get_IS_COPYABLE (VObject g))|].
  intros [|]; [|apply pres_ret].
  apply pres_bind; [apply Hrec|]. intros; apply pres_ret.
Qed.

(** One turn of the relationship loop writes what the link writes and
    what the nested performs write. *)
Lemma pres_copyRelationship env rec this model deep options rAttrs r :
  (forall g d o, pres R (rec g d o)) ->
  pres R (link_members env this model r.2 r.1) ->
  pres R (copyRelationship env rec this model deep options rAttrs r).
Proof.
  intros Hrec Hlink. unfold copyRelationship.
  destruct (negb (isUndefined _)); [apply pres_ret|].
  destruct (_ || _).
  - apply pres_try_catch.
    + apply pres_bind; [exact Hlink|]. intros; apply pres_ret.
    + intros e. apply pres_bind; [apply pres_get|]. intros; apply pres_ret.
  - apply pres_bind; [apply pres_get|]. intros value.
    destruct r.2.
    + apply pres_bind; [apply pres_and_IS_COPYABLE|]. intros [|]; [|apply pres_ret].
      destruct value; try apply pres_ret.
      apply pres_bind; [apply Hrec|]. intros; apply pres_ret.
    + apply pres_bind; [apply pres_get_firstObject|]. intros fo.
      apply pres_bind; [apply pres_and_IS_COPYABLE|]. intros [|]; [|apply pres_ret].
      apply pres_bind; [|intros; apply pres_ret].
      apply pres_mapM. intros x. by apply pres_perform_member.
Qed.
End Pres.

(** ** The steps of the task are session steps *)

Lemma getTransform_step env W type : pres (session_step W) (getTransform env type).
Proof.
  intros s. unfold getTransform.
  destruct (transforms (_meta s) !! type); [apply session_step_refl|].
  destruct (lookup_transform env type); [|apply session_step_refl].
  split; simpl; auto.
Qed.

Lemma link_members_step env this model k name :
  pres (session_step (fun g => g = model)) (link_members env this model k name).
Proof.
  intros s. unfold link_members.
  destruct (heap s !! this) as [src|]; [|apply session_step_refl].
  destruct (heap s !! model) as [tgt|] eqn:Ht; [|apply session_step_refl].
  destruct (obj_shape src); [|apply session_step_refl].
  destruct (obj_shape tgt); [|apply session_step_refl].
  destruct (link_error env this model k name); [apply session_step_refl|].
  split; simpl; auto.
  - intros g o Hg Ho. by rewrite lookup_insert_ne.
  - intros g Hg. destruct (decide (model = g)) as [->|].
    + rewrite lookup_insert_eq. eauto.
    + by rewrite lookup_insert_ne.
Qed.

Lemma setProperties_step model attrs :
  pres (session_step (fun g => g = model)) (setProperties model attrs).
Proof.
  intros s. unfold setProperties.
  destruct (heap s !! model) as [o|] eqn:Ho; [|apply session_step_refl].
  destruct (refuses o attrs); [apply session_step_refl|].
  split; simpl; auto.
  - intros g o' Hg Ho'. by rewrite lookup_insert_ne.
  - intros g Hg. destruct (decide (model = g)) as [->|].
    + rewrite lookup_insert_eq. eauto.
    + by rewrite lookup_insert_ne.
Qed.

Lemma fresh_guid (h : gmap guid object) : h !! fresh (dom h) = None.
Proof. apply not_elem_of_dom, is_fresh. Qed.

Lemma insert_fresh_step (h : gmap guid object) o g ob :
  h !! g = Some ob -> <[fresh (dom h) := o]> h !! g = Some ob.
Proof.
  intros Hg. rewrite lookup_insert_ne; [done|].
  intros <-. rewrite fresh_guid in Hg. discriminate.
Qed.

Lemma allocate_step self options : pres (session_step nothing) (allocate self options).
Proof.
  intros s. unfold allocate, createRecord, createPlain.
  destruct (m_createAsModel options); split; simpl; auto.
  - intros g o _. apply insert_fresh_step.
  - intros g [ob Hg]. erewrite insert_fresh_step; eauto.
  - set_solver.
  - intros g o _. apply insert_fresh_step.
  - intros g [ob Hg]. erewrite insert_fresh_step; eauto.
Qed.

Lemma allocate_Ok self options s s' model :
  allocate self options s = (s', Ok model) ->
  heap s !! model = None /\
  exists o, heap s' = <[model := o]> (heap s) /\
            fields o = ∅ /\ members o = ∅ /\
            _meta s' = _meta s /\ performed s' = performed s.
Proof.
  unfold allocate, createRecord, createPlain.
  destruct (m_createAsModel options); intros H; inversion H; subst; simpl;
    (split; [apply fresh_guid|]); eexists; split; try reflexivity; auto.
Qed.

Lemma log_perform_step W this : pres (session_step W) (log_perform this).
Proof.
  intros s. split; simpl; auto. by apply prefix_app_r.
Qed.

Lemma register_step W this model s :
  copies (_meta s) !! this = None ->
  session_step W s (register this model s).1.
Proof.
  intros Hnone. split; simpl; auto; [by apply insert_subseteq|].
  intros Hk g. unfold keys_listed in Hk. unfold register. simpl. rewrite Hnone.
  rewrite elem_of_app, list_elem_of_singleton, (Hk g).
  destruct (decide (g = this)) as [->|Hne].
  - rewrite lookup_insert_eq, Hnone. split; [eauto|]. by right.
  - rewrite lookup_insert_ne by done. split; [intros [?|?]; done|by left].
Qed.

Lemma populate_step env rec this self model deep options :
  (forall g d o, pres (session_step nothing) (rec g d o)) ->
  pres (session_step (fun g => g = model))
       (populate env rec this self model deep options).
Proof.
  intros Hrec.
  pose proof (session_step_refl (fun g => g = model)) as Hr.
  pose proof (session_step_trans (fun g => g = model)) as Ht.
  unfold populate.
  apply pres_bind; [exact Ht| |].
  { apply pres_foldM; [exact Hr|exact Ht|]. intros a x.
    apply pres_copyAttribute; [exact Hr|exact Ht|].
    intros type. apply getTransform_step. }
  intros dAttrs. apply pres_bind; [exact Ht| |].
  { apply pres_foldM; [exact Hr|exact Ht|]. intros a x.
    apply pres_copyRelationship; [exact Hr|exact Ht| |].
    - intros g d o s. eapply session_step_weaken; [|apply Hrec]. intros ? [].
    - apply link_members_step. }
  intros rAttrs. apply pres_bind; [exact Ht|by apply pres_read_properties|].
  intros other. apply pres_bind; [exact Ht|apply setProperties_step|].
  intros _. by apply pres_ret.
Qed.

Lemma bind_register {B} this model (k : unit -> M B) s :
  bind (register this model) k s = k tt (register this model s).1.
Proof. reflexivity. Qed.

(** A fresh copy writes no object that existed before it started. *)
Lemma copy_fresh_step env rec this self deep options s :
  (forall g d o, pres (session_step nothing) (rec g d o)) ->
  copies (_meta s) !! this = None ->
  session_step nothing s (copy_fresh env rec this self deep options s).1.
Proof.
  intros Hrec Hnone. unfold copy_fresh. unfold bind at 1.
  pose proof (allocate_step self options s) as Ha.
  destruct (allocate self options s) as [s1 [model| |]] eqn:Ealloc; simpl in Ha; auto.
  apply allocate_Ok in Ealloc as (Hfresh & o & Hh1 & _ & _ & Hm1 & _).
  rewrite bind_register.
  assert (session_step nothing s1 (register this model s1).1) as Hreg.
  { apply register_step. by rewrite Hm1. }
  pose proof (populate_step env rec this self model deep options Hrec
                (register this model s1).1) as Hp.
  destruct Ha as [H1 D1 C1 S1 P1 K1], Hreg as [H2 D2 C2 S2 P2 K2],
    Hp as [H3 D3 C3 S3 P3 K3].
  split; auto.
  - intros g ob _ Hg. apply H3.
    + intros ->. rewrite Hfresh in Hg. discriminate.
    + apply H2; [tauto|]. apply H1; [tauto|]. done.
  - etrans; [exact C1|]. etrans; [exact C2|]. exact C3.
  - etrans; [exact S1|]. etrans; [exact S2|]. exact S3.
  - etrans; [exact P1|]. etrans; [exact P2|]. exact P3.
Qed.

Lemma copy_body_step env rec this deep _options :
  (forall g d o, pres (session_step nothing) (rec g d o)) ->
  pres (session_step nothing) (copy_body env rec this deep _options).
Proof.
  intros Hrec s. unfold copy_body. unfold bind at 1.
  pose proof (log_perform_step nothing this s) as Hl.
  destruct (log_perform this s) as [s0 [[]| |]] eqn:El; simpl in Hl; auto.
  destruct (heap s0 !! this) as [self|]; [|exact Hl].
  destruct (copies (_meta s0) !! this) as [c|] eqn:Hc; [exact Hl|].
  eapply session_step_trans; [exact Hl|].
  pose proof (copy_fresh_step env rec this self deep
                (assign_options (copyableOptions self) _options) s0 Hrec Hc) as Hf.
  unfold bind.
  destruct (copy_fresh env rec this self deep _ s0) as [s1 [c| |]]; exact Hf.
Qed.

(** Every run of the copy task, whatever its outcome, leaves the objects
    it found untouched and the memo entries it found in place. *)
Lemma COPY_TASK_step env fuel this deep _options :
  pres (session_step nothing) (COPY_TASK env fuel this deep _options).
Proof.
  revert this deep _options. induction fuel as [|fuel IH]; intros this deep o.
  - intros s. apply session_step_refl.
  - simpl. apply copy_body_step. exact IH.
Qed.

(** ** Unfolding one perform *)

Lemma COPY_TASK_unfold env fuel this deep _options s :
  COPY_TASK env (S fuel) this deep _options s =
  match heap s !! this with
  | None => (logged this s, Throw (TypeError "COPY_TASK performed on undefined"))
  | Some self =>
      match copies (_meta s) !! this with
      | Some copy => (logged this s, Ok copy)
      | None =>
          (c <- copy_fresh env (COPY_TASK env fuel) this self deep
                  (assign_options (copyableOptions self) _options) ;;
           ret (c_model c)) (logged this s)
      end
  end.
Proof. reflexivity. Qed.

Lemma COPY_TASK_Ok env fuel this deep _options s s' c :
  COPY_TASK env fuel this deep _options s = (s', Ok c) ->
  exists fuel' self,
    fuel = S fuel' /\ heap s !! this = Some self /\
    ((copies (_meta s) !! this = Some c /\ s' = logged this s) \/
     (copies (_meta s) !! this = None /\
      exists cd,
        copy_fresh env (COPY_TASK env fuel') this self deep
          (assign_options (copyableOptions self) _options) (logged this s)
        = (s', Ok cd) /\ c_model cd = c)).
Proof.
  destruct fuel as [|fuel]; [discriminate|].
  rewrite COPY_TASK_unfold. intros H. exists fuel.
  destruct (heap s !! this) as [self|]; [|discriminate]. exists self.
  do 2 (split; [reflexivity|]).
  destruct (copies (_meta s) !! this) as [c'|].
  - left. by inversion H.
  - right. split; [reflexivity|]. bind_inv H. apply ret_Ok in H as [-> ->]. eauto.
Qed.

(** The memo hit of lines 133-135: the recorded clone is returned and
    nothing is created or written. *)
Lemma COPY_TASK_memo env fuel this deep _options s c :
  is_Some (heap s !! this) ->
  copies (_meta s) !! this = Some c ->
  COPY_TASK env (S fuel) this deep _options s = (logged this s, Ok c).
Proof.
  intros [self Hs] Hc. rewrite COPY_TASK_unfold, Hs, Hc. reflexivity.
Qed.

Lemma populate_run_step env rec this self model deep options s s' r :
  (forall g d o, pres (session_step nothing) (rec g d o)) ->
  populate env rec this self model deep options s = (s', r) ->
  session_step (fun g => g = model) s s'.
Proof.
  intros Hrec H. pose proof (populate_step env rec this self model deep options Hrec s) as Hp.
  by rewrite H in Hp.
Qed.

Lemma COPY_TASK_run_step env fuel this deep _options s s' r :
  COPY_TASK env fuel this deep _options s = (s', r) -> session_step nothing s s'.
Proof.
  intros H. pose proof (COPY_TASK_step env fuel this deep _options s) as Hp.
  by rewrite H in Hp.
Qed.

(** Line 148 and what follows: the clone a fresh copy returns is the one
    it registered for [this]. *)
Lemma copy_fresh_registers env fuel this self deep options s s' cd :
  copy_fresh env (COPY_TASK env fuel) this self deep options s = (s', Ok cd) ->
  copies (_meta s') !! this = Some (c_model cd).
Proof.
  intros H. apply copy_fresh_Ok in H as (s1 & s2 & _ & Hreg & Hpop).
  apply populate_run_step in Hpop; [|intros; apply COPY_TASK_step].
  eapply lookup_weaken; [|apply (ss_copies _ _ _ Hpop)].
  unfold register in Hreg. inversion Hreg; subst. simpl. apply lookup_insert_eq.
Qed.

Lemma COPY_TASK_registers env fuel this deep _options s s' c :
  COPY_TASK env fuel this deep _options s = (s', Ok c) ->
  copies (_meta s') !! this = Some c.
Proof.
  intros H. apply COPY_TASK_Ok in H as (fuel' & self & -> & Hs & [[Hc ->]|[Hc (cd & Hf & <-)]]).
  - exact Hc.
  - by eapply copy_fresh_registers.
Qed.

(** ** The runner *)

Lemma unload_copy_frame key s :
  let r := unload_copy key s in
  heap r.1 = heap s /\ _meta r.1 = _meta s /\ performed r.1 = performed s /\
  store r.1 ⊆ store s /\ r.2 ≠ OutOfFuel.
Proof.
  unfold unload_copy, unloadRecord.
  destruct (copies (_meta s) !! key) as [c|]; simpl; [|done].
  destruct (heap s !! c) as [o|]; simpl; [|done].
  destruct (obj_shape o); simpl; [|done].
  repeat (split; [done|]). split; [set_solver|done].
Qed.

(** The rollback writes the store only, and only to take records out. *)
Lemma unload_keys_frame l s :
  let r := foldM (fun _ key => unload_copy key) tt l s in
  heap r.1 = heap s /\ _meta r.1 = _meta s /\ performed r.1 = performed s /\
  store r.1 ⊆ store s /\ r.2 ≠ OutOfFuel.
Proof.
  revert s. induction l as [|key l IH]; intros s; simpl; [done|].
  unfold bind. destruct (unload_copy_frame key s) as (Hh & Hm & Hp & Hst & Hr).
  destruct (unload_copy key s) as [s1 [[]|e|]]; simpl in *; [|done|done].
  destruct (IH s1) as (Hh' & Hm' & Hp' & Hst' & Hr').
  repeat split; try congruence. by etrans.
Qed.

Lemma unload_copies_frame s :
  heap (unload_copies s).1 = heap s /\ _meta (unload_copies s).1 = _meta s /\
  performed (unload_copies s).1 = performed s /\
  store (unload_copies s).1 ⊆ store s /\ (unload_copies s).2 ≠ OutOfFuel.
Proof. apply unload_keys_frame. Qed.

(** On keys whose clones are all records of the store the walk goes to
    its end and takes those clones out of the store. *)
Lemma unload_keys_Ok l s :
  (forall key, key ∈ l ->
     exists c, copies (_meta s) !! key = Some c /\ store_record c s = true) ->
  exists s',
    foldM (fun _ key => unload_copy key) tt l s = (s', Ok tt) /\
    forall g, g ∈ store s' <->
              g ∈ store s /\ ~ exists key, key ∈ l /\ copies (_meta s) !! key = Some g.
Proof.
  revert s. induction l as [|key l IH]; intros s Hall; simpl.
  - exists s. split; [done|]. intros g. split; [|tauto].
    intros Hg. split; [done|]. intros (key & Hkey & _). by apply elem_of_nil in Hkey.
  - destruct (Hall key) as (c & Hc & Hrecord); [apply list_elem_of_here|].
    unfold store_record in Hrecord.
    destruct (heap s !! c) as [o|] eqn:Ho; [|discriminate].
    destruct (obj_shape o) eqn:Hshape; [|discriminate].
    unfold bind. unfold unload_copy, unloadRecord. rewrite Hc, Ho, Hshape.
    destruct (IH (set_store (store s ∖ {[c]}) s)) as (s' & Hrun & Hstore).
    { intros key' Hkey'. apply Hall. by apply list_elem_of_further. }
    exists s'. split; [exact Hrun|]. intros g. rewrite Hstore. simpl.
    rewrite elem_of_difference, elem_of_singleton. split.
    + intros [[Hg Hne] Hno]. split; [done|]. intros (key' & Hkey' & Hg').
      apply elem_of_cons in Hkey' as [->|Hkey']; [congruence|]. apply Hno. eauto.
    + intros [Hg Hno]. split; [split; [done|]|].
      * intros ->. apply Hno. exists key. split; [apply list_elem_of_here|done].
      * intros (key' & Hkey' & Hg'). apply Hno. exists key'.
        split; [by apply list_elem_of_further|done].
Qed.

(** The rollback of a session whose clones are all records of the store:
    it raises nothing and the store loses exactly the clones. *)
Lemma unload_copies_Ok s :
  keys_listed s ->
  (forall g c, copies (_meta s) !! g = Some c -> store_record c s = true) ->
  exists s',
    unload_copies s = (s', Ok tt) /\
    (forall g, g ∈ store s' <->
               g ∈ store s /\ ~ exists key, copies (_meta s) !! key = Some g) /\
    heap s' = heap s /\ _meta s' = _meta s.
Proof.
  intros Hkeys Hall.
  destruct (unload_keys_Ok (copy_keys (_meta s)) s) as (s' & Hrun & Hstore).
  { intros key Hkey. apply Hkeys in Hkey as [c Hc]. exists c. split; [done|]. eauto. }
  pose proof (unload_copies_frame s) as (Hh & Hm & _).
  unfold unload_copies in *. rewrite Hrun in Hh, Hm. simpl in Hh, Hm.
  exists s'. split; [exact Hrun|]. split; [|done].
  intros g. rewrite Hstore. split; intros [Hg Hno]; (split; [done|]).
  - intros (key & Hc). apply Hno. exists key. split; [|done]. apply Hkeys. eauto.
  - intros (key & _ & Hc). apply Hno. eauto.
Qed.

(** The [catch] and the [finally] of the runner leave with an exception,
    and write the store only. *)
Lemma rollback_outcome (e : exn) s :
  exists s' e',
    (_ <- unload_copies ;; throw (A := guid) (NewError e)) s = (s', Throw e') /\
    heap s' = heap s /\ _meta s' = _meta s /\ performed s' = performed s /\
    store s' ⊆ store s.
Proof.
  destruct (unload_copies_frame s) as (Hh & Hm & Hp & Hst & Hr).
  unfold bind. destruct (unload_copies s) as [s1 [[]|e1|]]; simpl in *.
  - exists s1, (NewError e). auto.
  - exists s1, e1. auto.
  - done.
Qed.

(** The session of a top-level copy lists the keys of its [copies]. *)
Lemma session_keys_listed env fuel this deep _options s s1 r :
  COPY_TASK env fuel this deep _options (set_meta new_meta s) = (s1, r) ->
  keys_listed s1.
Proof.
  intros H. apply COPY_TASK_run_step in H. apply (ss_keys _ _ _ H).
  intros g. simpl. rewrite elem_of_nil, lookup_empty. split; [done|]. by intros [? ?].
Qed.

(** C3, amended. When the copy task of a top-level copy fails with an
    error [e] and every clone registered in the session's [copies] is a
    record of the store, the runner unloads every one of them from the
    store, leaves the heap and the session as the failed task left them,
    returns no clone, and fails with the new error built by
    [new Error(e)]. *)
Theorem failed_copy_rolls_back env fuel this deep _options s s1 e :
  COPY_TASK env fuel this deep _options (set_meta new_meta s) = (s1, Throw e) ->
  (forall g c, copies (_meta s1) !! g = Some c -> store_record c s1 = true) ->
  exists s',
    COPY_TASK_RUNNER env fuel this deep _options s = (s', Throw (NewError e)) /\
    (forall g c, copies (_meta s1) !! g = Some c -> c ∉ store s') /\
    store s' ⊆ store s1 /\ heap s' = heap s1 /\ _meta s' = _meta s1.
Proof.
  intros H Hrecords.
  destruct (unload_copies_Ok s1 (session_keys_listed _ _ _ _ _ _ _ _ H) Hrecords)
    as (s' & Hrun & Hstore & Hh & Hm).
  exists s'. unfold COPY_TASK_RUNNER. rewrite H. unfold bind. rewrite Hrun.
  split; [reflexivity|]. split; [|split; [|done]].
  - intros g c Hc Hin. apply Hstore in Hin as [_ Hno]. apply Hno. eauto.
  - intros g Hg. by apply Hstore in Hg as [Hg _].
Qed.

Lemma runner_Ok env fuel this deep _options s s' model :
  COPY_TASK_RUNNER env fuel this deep _options s = (s', Ok model) ->
  exists fuel' self cd,
    fuel = S fuel' /\ heap s !! this = Some self /\
    copy_fresh env (COPY_TASK env fuel') this self deep
      (assign_options (copyableOptions self) _options)
      (logged this (set_meta new_meta s)) = (s', Ok cd) /\
    c_model cd = model.
Proof.
  unfold COPY_TASK_RUNNER.
  destruct (COPY_TASK env fuel this deep _options (set_meta new_meta s))
    as [s1 [c|e|]] eqn:H; intros Hr.
  2:{ destruct (rollback_outcome e s1) as (s2 & e' & Hroll & _). congruence. }
  2:{ discriminate. }
  inversion Hr; subst.
  apply COPY_TASK_Ok in H as (fuel' & self & -> & Hs & [[Hc _]|[_ (cd & Hf & <-)]]).
  - simpl in Hc. rewrite lookup_empty in Hc. discriminate.
  - exists fuel', self, cd. auto.
Qed.

(** C4. A name that the effective [overwrite] option maps to a defined
    value [V] reads [V] on the clone that a top-level copy returns,
    whatever [ignoreAttributes], [copyByReference], the [deep] flag and
    the per-relationship options say about that name. *)
Theorem overwrite_wins env fuel this deep _options s s' model self name V :
  heap s !! this = Some self ->
  m_overwrite (assign_options (copyableOptions self) _options) !! name = Some V ->
  isUndefined V = false ->
  COPY_TASK_RUNNER env fuel this deep _options s = (s', Ok model) ->
  exists clone, heap s' !! model = Some clone /\ prop (fields clone) name = V.
Proof.
  intros Hself HV _ Hrun.
  apply runner_Ok in Hrun as (fuel' & self' & cd & -> & Hs & Hf & <-).
  rewrite Hself in Hs. inversion Hs; subst self'.
  pose proof Hf as Hf'.
  apply copy_fresh_fields in Hf as (o & Ho & Hfields).
  exists o. split; [exact Ho|]. unfold prop. rewrite (Hfields name V); [reflexivity|].
  apply copy_fresh_Ok in Hf' as (s1 & s2 & _ & _ & Hp).
  apply populate_Ok in Hp as (dA & rA & ot & s3 & s4 & o' & _ & _ & _ & -> & _).
  simpl. unfold assign at 1. by apply lookup_union_Some_l.
Qed.

(** ** Undefined entries of [overwrite] *)

Lemma prop_delete (o : gmap string value) name : prop (delete name o) name = VUndefined.
Proof. unfold prop. by rewrite lookup_delete_eq. Qed.

(** C10. For a name that is an own key of the effective [overwrite] with
    the value [undefined], the attribute pass and the relationship pass
    run exactly as they do when [overwrite] has no such key, and yet the
    clone that a top-level copy returns holds [undefined] under that name:
    the final merge copies the key. *)
Theorem undefined_overwrite_reaches_clone env fuel this deep _options s s' model self name :
  heap s !! this = Some self ->
  m_overwrite (assign_options (copyableOptions self) _options) !! name
    = Some VUndefined ->
  COPY_TASK_RUNNER env fuel this deep _options s = (s', Ok model) ->
  let options := assign_options (copyableOptions self) _options in
  (forall d dAttrs am,
      copyAttribute env this d options dAttrs (name, am)
      = copyAttribute env this d (without_overwrite name options) dAttrs (name, am)) /\
  (forall rec m d rAttrs k,
      copyRelationship env rec this m d options rAttrs (name, k)
      = copyRelationship env rec this m d (without_overwrite name options) rAttrs (name, k)) /\
  exists clone, heap s' !! model = Some clone /\ fields clone !! name = Some VUndefined.
Proof.
  intros Hself HV Hrun options.
  assert (prop (m_overwrite options) name = VUndefined) as Hp.
  { unfold prop, options. by rewrite HV. }
  split; [|split].
  - intros d dAttrs am. unfold copyAttribute. simpl.
    rewrite Hp, prop_delete. reflexivity.
  - intros rec m d rAttrs k. unfold copyRelationship. simpl.
    rewrite Hp, prop_delete. reflexivity.
  - apply runner_Ok in Hrun as (fuel' & self' & cd & -> & Hs & Hf & <-).
    rewrite Hself in Hs. inversion Hs; subst self'.
    pose proof Hf as Hf'.
    apply copy_fresh_fields in Hf as (o & Ho & Hfields).
    exists o. split; [exact Ho|]. apply Hfields.
    apply copy_fresh_Ok in Hf' as (s1 & s2 & _ & _ & Hpop).
    apply populate_Ok in Hpop as (dA & rA & ot & s3 & s4 & o' & _ & _ & _ & -> & _).
    simpl. unfold assign at 1. by apply lookup_union_Some_l.
Qed.

(** ** The reference-link fallback *)

Lemma link_members_outcome env this model k name s :
  match (link_members env this model k name s).2 with
  | Ok _ => True
  | Throw _ => (link_members env this model k name s).1 = s
  | OutOfFuel => False
  end.
Proof.
  unfold link_members.
  destruct (heap s !! this) as [src|]; [|done].
  destruct (heap s !! model) as [tgt|]; [|done].
  destruct (obj_shape src); [|done].
  destruct (obj_shape tgt); [|done].
  by destruct (link_error env this model k name).
Qed.

Lemma reference_link_completes env rec this model deep options rAttrs name k s :
  isUndefined (prop (m_overwrite options) name) = true ->
  negb deep || includes name (m_copyByReference options) = true ->
  exists s' rAttrs',
    copyRelationship env rec this model deep options rAttrs (name, k) s
    = (s', Ok rAttrs').
Proof.
  intros Hov Hmode. unfold copyRelationship. simpl. rewrite Hov, Hmode. simpl.
  unfold try_catch, bind.
  pose proof (link_members_outcome env this model k name s) as Hout.
  destruct (link_members env this model k name s) as [s1 [[]|e|]]; simpl in Hout;
    [eauto|eauto|destruct Hout].
Qed.

(** The relationship pass of a shallow copy completes normally whatever
    the low-level link does: no error of the link leaves the pass. *)
Lemma shallow_relationship_pass_completes env rec this model options l :
  forall rAttrs s,
    exists s' rAttrs',
      foldM (copyRelationship env rec this model false options) rAttrs l s
      = (s', Ok rAttrs').
Proof.
  induction l as [|[name k] l IH]; intros rAttrs s; simpl.
  - by exists s, rAttrs.
  - destruct (isUndefined (prop (m_overwrite options) name)) eqn:Hov.
    + destruct (reference_link_completes env rec this model false options rAttrs
                  name k s Hov eq_refl) as (s1 & r1 & Hstep).
      erewrite bind_run; [|exact Hstep]. apply IH.
    + erewrite bind_run; [apply IH|].
      unfold copyRelationship. simpl. rewrite Hov. reflexivity.
Qed.

(** C8. In reference-link mode (no defined overwrite for the name, and
    either a shallow copy or a name in [copyByReference]) the turn of the
    relationship loop always completes normally, whatever the low-level
    link does; when the link raises, nothing was written and the value
    read from the source is stored in [rAttrs] under the name. *)
Theorem link_error_is_swallowed env rec this model deep options rAttrs name k s :
  isUndefined (prop (m_overwrite options) name) = true ->
  negb deep || includes name (m_copyByReference options) = true ->
  exists s' rAttrs',
    copyRelationship env rec this model deep options rAttrs (name, k) s
    = (s', Ok rAttrs') /\
    forall e, (link_members env this model k name s).2 = Throw e ->
              s' = s /\ rAttrs' = <[name := read this name s]> rAttrs.
Proof.
  intros Hov Hmode. unfold copyRelationship. simpl. rewrite Hov, Hmode. simpl.
  unfold try_catch, bind.
  pose proof (link_members_outcome env this model k name s) as Hout.
  destruct (link_members env this model k name s) as [s1 [[]|e|]] eqn:Hl;
    simpl in Hout.
  - (* the link went through: nothing to catch *)
    exists s1, rAttrs. split; [reflexivity|]. discriminate.
  - (* the link raised: the catch stores the value read from the source *)
    subst s1. exists s, (<[name := read this name s]> rAttrs).
    split; [reflexivity|]. auto.
  - destruct Hout.
Qed.

(** ** The single-flight guard *)

Lemma existsb_this (running : list call) this :
  existsb (fun r => Pos.eqb (call_this r) this) running = true <->
  this ∈ call_this <$> running.
Proof.
  rewrite existsb_exists, list_elem_of_fmap. split.
  - intros (c & Hin & Heq). apply Pos.eqb_eq in Heq. exists c.
    split; [done|]. by apply list_elem_of_In.
  - intros (c & -> & Hin). exists c. split; [by apply list_elem_of_In|].
    apply Pos.eqb_refl.
Qed.

(** The copy task itself has no policy: a perform of it always starts. *)
Lemma nested_perform_starts running c :
  perform COPY_TASK_policy running c = (running ++ [c], Running).
Proof. reflexivity. Qed.

Lemma copy_dropped this deep options sys :
  this ∈ call_this <$> in_flight sys ->
  copy this deep options sys = (sys, Dropped).
Proof.
  intros Hin. unfold copy, perform. simpl.
  apply existsb_this in Hin. rewrite Hin. by destruct sys.
Qed.

Lemma reachable_NoDup env sys :
  reachable env sys -> NoDup (call_this <$> in_flight sys).
Proof.
  induction 1 as [s|sys this deep options _ IH|sys fuel i _ IH]; simpl.
  - constructor.
  - unfold perform. simpl.
    destruct (existsb _ _) eqn:E; simpl; [exact IH|].
    rewrite fmap_app. simpl. apply NoDup_app. split; [exact IH|]. split.
    + intros x Hx Hx'. apply list_elem_of_singleton in Hx'. subst x.
      apply existsb_this in Hx. congruence.
    + apply NoDup_singleton.
  - unfold settle. destruct (in_flight sys !! i); simpl; [|exact IH].
    eapply sublist_NoDup; [exact IH|].
    apply fmap_sublist, sublist_delete.
Qed.

(** C9. In every system that calls of [copy] and completions of running
    copies lead to, no record has two top-level copies in flight, and a
    [copy] on a record that has one in flight is dropped: the system is
    left exactly as it was, so the call starts no task, queues nothing and
    creates no clone. *)
Theorem second_copy_is_dropped env sys :
  reachable env sys ->
  NoDup (call_this <$> in_flight sys) /\
  forall this deep options,
    this ∈ call_this <$> in_flight sys ->
    copy this deep options sys = (sys, Dropped).
Proof.
  intros Hr. split; [by eapply reachable_NoDup|].
  intros this deep options. apply copy_dropped.
Qed.

(** ** Loop invariants *)

Lemma foldM_inv {A B} (f : A -> B -> M A) (I : A -> state -> Prop) l :
  (forall a x s a' s', x ∈ l -> I a s -> f a x s = (s', Ok a') -> I a' s') ->
  forall a s a' s', I a s -> foldM f a l s = (s', Ok a') -> I a' s'.
Proof.
  induction l as [|x l IH]; intros Hstep a s a' s' HI H; simpl in H.
  - apply ret_Ok in H as [-> ->]. exact HI.
  - bind_inv H. eapply IH; [| |exact H].
    + intros. eapply Hstep; eauto. by apply list_elem_of_further.
    + eapply Hstep; eauto. apply list_elem_of_here.
Qed.

(** What one turn of the attribute loop may do to [dAttrs]: nothing for an
    ignored name, and otherwise it sets the key of that attribute only. *)
Lemma copyAttribute_keys env this deep options dAttrs a s s' d' :
  copyAttribute env this deep options dAttrs a s = (s', Ok d') ->
  (includes a.1 (m_ignoreAttributes options) = true -> d' = dAttrs) /\
  (forall n, n ≠ a.1 -> d' !! n = dAttrs !! n).
Proof.
  unfold copyAttribute. destruct (includes _ _).
  { intros H. apply ret_Ok in H as [-> ->]. auto. }
  assert (forall v, (forall n, n ≠ a.1 -> <[a.1 := v]> dAttrs !! n = dAttrs !! n))
    as Hins by (intros v n Hn; by rewrite lookup_insert_ne).
  intros H. split; [discriminate|]. revert H.
  destruct (negb (isUndefined _)).
  { intros H. apply ret_Ok in H as [-> ->]. apply Hins. }
  destruct (_ && _).
  - intros H. bind_inv H. destruct (Copyable_detect env a0).
    + bind_inv H. apply ret_Ok in H as [-> ->]. apply Hins.
    + bind_inv H. bind_inv H. apply ret_Ok in H as [-> ->]. apply Hins.
  - intros H. bind_inv H. apply ret_Ok in H as [-> ->]. apply Hins.
Qed.

(** One turn of the relationship loop leaves [rAttrs] alone or sets the
    key of its relationship. *)
Lemma copyRelationship_keys env rec this model deep options rAttrs r s s' r' :
  copyRelationship env rec this model deep options rAttrs r s = (s', Ok r') ->
  r' = rAttrs \/ exists v, r' = <[r.1 := v]> rAttrs.
Proof.
  unfold copyRelationship.
  destruct (negb (isUndefined _)).
  { intros H. apply ret_Ok in H as [-> ->]. eauto. }
  destruct (_ || _).
  - unfold try_catch, bind.
    destruct (link_members env this model r.2 r.1 s) as [s1 [[]|e|]];
      intros H; inversion H; subst; eauto.
  - intros H. bind_inv H. destruct r.2.
    + bind_inv H. destruct a0; [|apply ret_Ok in H as [-> ->]; eauto].
      destruct a; try (apply ret_Ok in H as [-> ->]; eauto).
      bind_inv H. apply ret_Ok in H as [-> ->]. eauto.
    + bind_inv H. bind_inv H. destruct a1; [|apply ret_Ok in H as [-> ->]; eauto].
      bind_inv H. apply ret_Ok in H as [-> ->]. eauto.
Qed.

Lemma copyRelationship_other_key env rec this model deep options rAttrs r s s' r' n :
  copyRelationship env rec this model deep options rAttrs r s = (s', Ok r') ->
  n ≠ r.1 -> r' !! n = rAttrs !! n.
Proof.
  intros H Hn. apply copyRelationship_keys in H as [->|[v ->]]; [done|].
  by rewrite lookup_insert_ne.
Qed.

(** ** Ignored names *)

Lemma keeps_refl model name s : keeps model name s s.
Proof. intros o Ho. eauto. Qed.

Lemma keeps_trans model name s1 s2 s3 :
  keeps model name s1 s2 -> keeps model name s2 s3 -> keeps model name s1 s3.
Proof.
  intros H1 H2 o Ho. destruct (H1 o Ho) as (o1 & Ho1 & Hf1 & Hm1).
  destruct (H2 o1 Ho1) as (o2 & Ho2 & Hf2 & Hm2).
  exists o2. split; [done|]. split; congruence.
Qed.

Lemma keeps_frame model name s s' :
  session_step nothing s s' -> keeps model name s s'.
Proof. intros Hs o Ho. exists o. split; [|done]. eapply ss_heap; eauto. Qed.

Lemma link_members_keeps env this model k name' name :
  name' ≠ name -> pres (keeps model name) (link_members env this model k name').
Proof.
  intros Hne s. unfold link_members.
  destruct (heap s !! this) as [src|]; [|apply keeps_refl].
  destruct (heap s !! model) as [tgt|] eqn:Ht; [|apply keeps_refl].
  destruct (obj_shape src); [|apply keeps_refl].
  destruct (obj_shape tgt); [|apply keeps_refl].
  destruct (link_error env this model k name'); [apply keeps_refl|].
  intros o Ho. simpl in *. rewrite Ht in Ho. inversion Ho; subst o.
  eexists. rewrite lookup_insert_eq. split; [reflexivity|]. simpl.
  split; [reflexivity|]. by rewrite lookup_insert_ne.
Qed.

Lemma getTransform_keeps env model name type :
  pres (keeps model name) (getTransform env type).
Proof.
  intros s. unfold getTransform.
  destruct (transforms (_meta s) !! type); [apply keeps_refl|].
  destruct (lookup_transform env type); [|apply keeps_refl].
  intros o Ho. exists o. auto.
Qed.

Lemma in_collect_relationships self options r :
  r ∈ collect_relationships self options <->
  r ∈ relationship_defs self /\ r.1 ∉ m_ignoreAttributes options.
Proof.
  unfold collect_relationships. rewrite list_elem_of_In, filter_In.
  rewrite <- list_elem_of_In. unfold includes.
  rewrite negb_true_iff, bool_decide_eq_false. reflexivity.
Qed.

(** The two passes of a copy leave alone, on the clone, the fields and the
    membership of a name that is ignored. *)
Lemma passes_keep_ignored env fuel this self model deep options name s s1 s2 dAttrs rAttrs :
  name ∈ m_ignoreAttributes options ->
  foldM (copyAttribute env this deep options) ∅ (attributes self) s = (s1, Ok dAttrs) ->
  foldM (copyRelationship env (COPY_TASK env fuel) this model deep options) ∅
        (collect_relationships self options) s1 = (s2, Ok rAttrs) ->
  dAttrs !! name = None /\ rAttrs !! name = None /\ keeps model name s s2.
Proof.
  intros Hign HA HR.
  pose proof (keeps_refl model name) as Hr.
  pose proof (keeps_trans model name) as Ht.
  assert (dAttrs !! name = None /\ keeps model name s s1) as [HdA Hk1].
  { revert HA. apply (foldM_inv _ (fun a st => a !! name = None /\ keeps model name s st)).
    - intros a x st a' st' _ [Ha Hk] Hstep. split.
      + apply copyAttribute_keys in Hstep as [Hi Ho].
        destruct (decide (name = x.1)) as [->|Hne].
        * rewrite Hi; [done|]. unfold includes. by apply bool_decide_eq_true.
        * by rewrite Ho.
      + eapply Ht; [exact Hk|].
        pose proof (pres_copyAttribute _ Hr Ht env this deep options a x
                      (getTransform_keeps env model name) st) as Hp.
        by rewrite Hstep in Hp.
    - split; [apply lookup_empty | apply Hr]. }
  assert (rAttrs !! name = None /\ keeps model name s1 s2) as [HrA Hk2].
  { revert HR. apply (foldM_inv _ (fun a st => a !! name = None /\ keeps model name s1 st)).
    - intros a x st a' st' Hin [Ha Hk] Hstep.
      apply in_collect_relationships in Hin as [_ Hx].
      assert (x.1 ≠ name) as Hne by (intros Heq; by rewrite Heq in Hx).
      split.
      + erewrite copyRelationship_other_key; eauto.
      + eapply Ht; [exact Hk|].
        assert (pres (keeps model name)
                  (copyRelationship env (COPY_TASK env fuel) this model deep options a x))
          as Hp.
        { apply pres_copyRelationship; [exact Hr|exact Ht| |].
          - intros g d o st0. apply keeps_frame, COPY_TASK_step.
          - by apply link_members_keeps. }
        specialize (Hp st). by rewrite Hstep in Hp.
    - split; [apply lookup_empty | apply Hr]. }
  eauto.
Qed.

Lemma getProperties_lookup o names name :
  name ∉ names -> getProperties o names !! name = None.
Proof.
  intros Hn. unfold getProperties. apply not_elem_of_list_to_map.
  rewrite <- list_fmap_compose. simpl. by rewrite list_fmap_id.
Qed.

(** C7. A name in the effective [ignoreAttributes] is skipped by the
    attribute callback and is not among the relationships the task
    collects; on the clone a top-level copy returns, its relationship
    membership is untouched, and its property is set only if the name is
    also in [otherAttributes] or is a key of [overwrite]. *)
Theorem ignored_name_is_not_copied env fuel this deep _options s s' model self name :
  heap s !! this = Some self ->
  name ∈ m_ignoreAttributes (assign_options (copyableOptions self) _options) ->
  COPY_TASK_RUNNER env fuel this deep _options s = (s', Ok model) ->
  let options := assign_options (copyableOptions self) _options in
  (forall d dAttrs am, copyAttribute env this d options dAttrs (name, am) = ret dAttrs) /\
  (forall k, (name, k) ∉ collect_relationships self options) /\
  exists clone,
    heap s' !! model = Some clone /\
    members clone !! name = None /\
    (is_Some (fields clone !! name) ->
     name ∈ m_otherAttributes options \/ is_Some (m_overwrite options !! name)).
Proof.
  intros Hself Hign Hrun options. split; [|split].
  - intros d dAttrs am. unfold copyAttribute. simpl.
    unfold includes. by rewrite bool_decide_eq_true_2.
  - intros k Hin. apply in_collect_relationships in Hin as [_ Hn]. by apply Hn.
  - apply runner_Ok in Hrun as (fuel' & self' & cd & -> & Hs & Hf & <-).
    rewrite Hself in Hs. inversion Hs; subst self'.
    apply copy_fresh_Ok in Hf as (s1 & s2 & Halloc & Hreg & Hpop).
    apply allocate_Ok in Halloc as (_ & o & Hh1 & Hf1 & Hm1 & _).
    assert (heap s2 = heap s1) as Hh2 by (unfold register in Hreg; by inversion Hreg).
    apply populate_Ok in Hpop
      as (dA & rA & ot & s3 & s4 & o4 & HA & HR & Hot & Hc & Ho4 & Hh' & _).
    destruct (passes_keep_ignored _ _ _ _ _ _ _ name _ _ _ _ _ Hign HA HR)
      as (HdA & HrA & Hk).
    destruct (Hk o) as (o4' & Ho4' & Hf4 & Hm4).
    { rewrite Hh2, Hh1. apply lookup_insert_eq. }
    rewrite Ho4 in Ho4'. inversion Ho4'; subst o4'.
    eexists. split; [rewrite Hh'; apply lookup_insert_eq|]. simpl.
    split; [by rewrite Hm4, Hm1|].
    rewrite Hc. simpl. rewrite Hf4, Hf1. unfold assign.
    rewrite (right_id_L ∅ (∪)). intros [v Hv].
    apply lookup_union_Some_raw in Hv as [Hv|[_ Hv]]; [eauto|].
    apply lookup_union_Some_raw in Hv as [Hv|[_ Hv]]; [congruence|].
    apply lookup_union_Some_raw in Hv as [Hv|[_ Hv]]; [congruence|].
    left. destruct (decide (name ∈ m_otherAttributes options)) as [|Hn]; [done|].
    unfold read_properties in Hot. inversion Hot as [Hot'].
    destruct (heap s4 !! this) as [src|].
    + rewrite <- Hot', getProperties_lookup in Hv; [discriminate|done].
    + rewrite <- Hot', lookup_empty in Hv. discriminate.
Qed.

(** ** To-many relationships in deep-copy mode *)

Lemma get_IS_COPYABLE_object g s :
  get_IS_COPYABLE (VObject g) s = (s, Ok (exposes_copy (VObject g) s)).
Proof. reflexivity. Qed.

Lemma perform_member_spec rec deepRel relOptions v s s' c :
  perform_member rec deepRel relOptions v s = (s', Ok c) <->
  (exposes_copy v s = false /\ s' = s /\ c = None) \/
  (exists g copy, v = VObject g /\ exposes_copy v s = true /\
                  rec g deepRel relOptions s = (s', Ok copy) /\
                  c = Some (VObject copy)).
Proof.
  destruct v; simpl;
    try (unfold ret; split;
         [intros H; inversion H; auto
         |intros [(_ & -> & ->)|(? & ? & ? & ? & _)]; [reflexivity|discriminate]]).
  unfold bind. rewrite get_IS_COPYABLE_object. simpl.
  destruct (match heap s !! g with Some o => IS_COPYABLE o | None => false end) eqn:E.
  - split.
    + intros H. right.
      destruct (rec g deepRel relOptions s) as [s1 [copy| |]] eqn:Hrec;
        inversion H; subst.
      exists g, copy. repeat split; done.
    + intros [(? & _)|(g' & copy & Hg & _ & Hrec & ->)]; [discriminate|].
      inversion Hg; subst g'. by rewrite Hrec.
  - split.
    + intros H. inversion H. auto.
    + intros [(_ & -> & ->)|(? & ? & _ & ? & _)]; [reflexivity|discriminate].
Qed.

Lemma mapM_members_performed rec deepRel relOptions items s s' cs :
  mapM (perform_member rec deepRel relOptions) items s = (s', Ok cs) <->
  members_performed rec deepRel relOptions items s cs s'.
Proof.
  split.
  - revert s cs. induction items as [|v items IH]; intros s cs H; simpl in H.
    + apply ret_Ok in H as [-> ->]. constructor.
    + bind_inv H. bind_inv H. apply ret_Ok in H as [-> ->].
      apply perform_member_spec in Hstep as [(He & -> & ->)|(g & c & -> & He & Hrec & ->)].
      * apply mp_skip; auto.
      * eapply mp_copy; eauto.
  - induction 1 as [s|g c items s s1 cs s2 He Hrec _ IH|v items s cs s2 He _ IH];
      cbn [mapM].
    + reflexivity.
    + erewrite bind_run;
        [|apply (proj2 (perform_member_spec _ _ _ _ _ _ _)); right; eauto 10].
      erewrite bind_run; [|exact IH]. reflexivity.
    + erewrite bind_run;
        [|apply (proj2 (perform_member_spec _ _ _ _ _ _ _)); left; eauto].
      erewrite bind_run; [|exact IH]. reflexivity.
Qed.

Lemma members_performed_length rec deepRel relOptions items s cs s' :
  members_performed rec deepRel relOptions items s cs s' -> length cs = length items.
Proof. induction 1; simpl; congruence. Qed.

Lemma exposes_copy_stable v s s' :
  session_step nothing s s' -> exposes_copy v s = true -> exposes_copy v s' = true.
Proof.
  intros Hs. destruct v; simpl; auto.
  destruct (heap s !! g) as [o|] eqn:Ho; [|discriminate].
  by rewrite (ss_heap _ _ _ Hs g o (fun H => H) Ho).
Qed.

(** With the copy task as the recursive perform, the index [i] is set to
    the clone that the session records for the member at index [i]. *)
Lemma members_performed_in_order env fuel deepRel relOptions items s cs s' :
  members_performed (COPY_TASK env fuel) deepRel relOptions items s cs s' ->
  session_step nothing s s' /\
  forall i g, items !! i = Some (VObject g) -> exposes_copy (VObject g) s = true ->
              exists c, cs !! i = Some (Some (VObject c)) /\
                        copies (_meta s') !! g = Some c.
Proof.
  induction 1 as [s|g c items s s1 cs s2 He Hrec _ [IHs IH]|v items s cs s2 He _ [IHs IH]].
  - split; [apply session_step_refl|]. intros i g Hi. by rewrite lookup_nil in Hi.
  - pose proof (COPY_TASK_run_step _ _ _ _ _ _ _ _ Hrec) as H1.
    split; [by eapply session_step_trans|].
    intros [|i] g' Hi He'; simpl in *.
    + inversion Hi; subst g'. exists c. split; [reflexivity|].
      eapply lookup_weaken; [|apply (ss_copies _ _ _ IHs)].
      by eapply COPY_TASK_registers.
    + apply IH; [done|]. exact (exposes_copy_stable (VObject g') _ _ H1 He').
  - split; [exact IHs|]. intros [|i] g' Hi He'; simpl in *.
    + inversion Hi; subst v. simpl in He. congruence.
    + by apply IH.
Qed.

(** When every index was set, the array holds what was set, index by
    index. *)
Lemma invoked_all_set (results : list (option value)) :
  Forall is_Some results -> invoked results = default VUndefined <$> results.
Proof.
  induction 1 as [|r results [v ->] _ IH]; simpl; [done|].
  by rewrite IH.
Qed.

(** The array is never longer than the collection it comes from. *)
Lemma invoked_length (results : list (option value)) :
  length (invoked results) <= length results.
Proof.
  induction results as [|r results IH]; simpl; [done|].
  destruct r, (invoked results); simpl in *; lia.
Qed.

Lemma hasMany_first_member {B} this name items first b
    (k : value -> bool -> M B) s :
  read this name s = VArray items ->
  default VUndefined (head items) = first ->
  (if truthy first then exposes_copy first s else false) = b ->
  (first = VUndefined \/ exists g, first = VObject g) ->
  (value <- get this name ;;
   firstObject <- get_firstObject value ;;
   c <- and_IS_COPYABLE firstObject ;;
   k value c) s = k (VArray items) b s.
Proof.
  intros Hread Hfirst Hb Hshape. unfold bind at 1, get. rewrite Hread.
  unfold bind at 1. cbn [get_firstObject]. unfold ret at 1. rewrite Hfirst.
  unfold bind, and_IS_COPYABLE.
  destruct Hshape as [->|[g ->]]; simpl in *; by rewrite <- Hb.
Qed.

(** One turn of the relationship loop on a to-many relationship in
    deep-copy mode.  A collection that is empty, or whose first member
    does not expose the copy capability, is kept as it was read and
    nothing is performed.  When the first member exposes the capability,
    the members that expose it are performed in collection order, each
    with the same [deepRel] flag, the same [relOptions] and in the same
    session, and the result is the array that [invoke] built. *)
Lemma hasMany_turn env rec this model options rAttrs name items s :
  isUndefined (prop (m_overwrite options) name) = true ->
  includes name (m_copyByReference options) = false ->
  read this name s = VArray items ->
  let relOptions := m_relationships options !! name in
  let deepRel := resolve_deep relOptions true in
  let step := copyRelationship env rec this model true options rAttrs (name, hasMany) in
  (items = [] -> step s = (s, Ok (<[name := VArray items]> rAttrs))) /\
  (forall g rest, items = VObject g :: rest ->
     exposes_copy (VObject g) s = false ->
     step s = (s, Ok (<[name := VArray items]> rAttrs))) /\
  (forall g rest, items = VObject g :: rest ->
     exposes_copy (VObject g) s = true ->
     forall s' rAttrs',
       step s = (s', Ok rAttrs') <->
       exists cs, rAttrs' = <[name := VArray (invoked cs)]> rAttrs /\
                  members_performed rec deepRel relOptions items s cs s').
Proof.
  intros Hov Href Hread relOptions deepRel step.
  set (k := fun (v : value) (c : bool) =>
              if c then
                copies <- mapM (perform_member rec deepRel relOptions) (array_items v) ;;
                ret (<[name := VArray (invoked copies)]> rAttrs)
              else ret (<[name := v]> rAttrs)).
  assert (forall st, step st =
            (value <- get this name ;;
             firstObject <- get_firstObject value ;;
             c <- and_IS_COPYABLE firstObject ;;
             k value c) st) as Hstep.
  { intros st. unfold step, copyRelationship. simpl. rewrite Hov, Href. reflexivity. }
  split; [|split].
  - intros ->. rewrite Hstep.
    by rewrite (hasMany_first_member this name [] VUndefined false k s); auto.
  - intros g rest -> He. rewrite Hstep.
    by rewrite (hasMany_first_member this name (VObject g :: rest) (VObject g) false k s);
      eauto.
  - intros g rest Hitems He s' rAttrs'. rewrite Hstep.
    rewrite (hasMany_first_member this name items (VObject g) true k s);
      [|done|by rewrite Hitems|done|eauto].
    unfold k. cbn [array_items]. split.
    + intros H. bind_inv H. apply ret_Ok in H as [-> ->].
      apply mapM_members_performed in Hstep0. exists a. split; [reflexivity|].
      exact Hstep0.
    + intros (cs & -> & Hmp). apply mapM_members_performed in Hmp.
      erewrite bind_run; [|exact Hmp]. reflexivity.
Qed.

(** ** Shallow copies *)

Lemma elem_of_addRecords g old new :
  g ∈ addRecords old new <-> g ∈ old \/ g ∈ new.
Proof.
  unfold addRecords. revert old. induction new as [|x new IH]; intros old; simpl.
  - rewrite elem_of_nil. tauto.
  - rewrite IH, elem_of_cons. case_bool_decide as Hx.
    + split; [tauto|]. intros [?|[->|?]]; auto.
    + rewrite elem_of_app, list_elem_of_singleton. tauto.
Qed.

Lemma foldM_inv_done {A B} (f : A -> B -> M A) (I : list B -> A -> state -> Prop) l :
  (forall done x a s a' s',
      x ∈ l -> I done a s -> f a x s = (s', Ok a') -> I (done ++ [x]) a' s') ->
  forall done a s a' s',
    I done a s -> foldM f a l s = (s', Ok a') -> I (done ++ l) a' s'.
Proof.
  induction l as [|x l IH]; intros Hstep done a s a' s' HI H; simpl in H.
  - apply ret_Ok in H as [-> ->]. by rewrite app_nil_r.
  - bind_inv H. rewrite cons_middle, app_assoc. eapply IH; [| |exact H].
    + intros. eapply Hstep; eauto. by apply list_elem_of_further.
    + eapply Hstep; eauto. apply list_elem_of_here.
Qed.

(** The attribute pass writes no object and performs nothing. *)
Lemma attribute_pass_same_objects env this deep options l a s s' r :
  foldM (copyAttribute env this deep options) a l s = (s', r) ->
  same_objects s s'.
Proof.
  intros H.
  assert (pres same_objects (foldM (copyAttribute env this deep options) a l)) as Hp.
  { apply pres_foldM.
    - intros st. by split.
    - intros s1 s2 s3 [H1 H1'] [H2 H2']. split; congruence.
    - intros a0 x. apply pres_copyAttribute.
      + intros st. by split.
      + intros s1 s2 s3 [H1 H1'] [H2 H2']. split; congruence.
      + intros type st. unfold getTransform.
        destruct (transforms (_meta st) !! type); [by split|].
        destruct (lookup_transform env type); by split. }
  specialize (Hp s). by rewrite H in Hp.
Qed.

(** One turn of the relationship loop of a shallow copy: it stores the
    overwrite, or it links the members of the source into the clone, or
    (the link having raised) it stores the value read from the source. *)
Lemma copyRelationship_shallow env rec this model options rAttrs r s s' r' :
  copyRelationship env rec this model false options rAttrs r s = (s', Ok r') ->
  (isUndefined (prop (m_overwrite options) r.1) = false /\
   s' = s /\ r' = <[r.1 := prop (m_overwrite options) r.1]> rAttrs) \/
  (isUndefined (prop (m_overwrite options) r.1) = true /\
   ((s' = s /\ r' = <[r.1 := read this r.1 s]> rAttrs) \/
    (exists src tgt,
        heap s !! this = Some src /\ heap s !! model = Some tgt /\
        heap s' = <[model := set_members
                      (<[r.1 := addRecords (default [] (members tgt !! r.1))
                                           (default [] (members src !! r.1))]>
                         (members tgt)) tgt]> (heap s) /\
        performed s' = performed s /\ r' = rAttrs))).
Proof.
  unfold copyRelationship. destruct (isUndefined _); simpl.
  2:{ intros H. apply ret_Ok in H as [-> ->]. left. auto. }
  intros H. right. split; [reflexivity|]. revert H.
  unfold try_catch, bind, link_members.
  destruct (heap s !! this) as [src|];
    [|intros H; inversion H; subst; left; auto].
  destruct (heap s !! model) as [tgt|];
    [|intros H; inversion H; subst; left; auto].
  destruct (obj_shape src); [|intros H; inversion H; subst; left; auto].
  destruct (obj_shape tgt); [|intros H; inversion H; subst; left; auto].
  destruct (link_error env this model r.2 r.1);
    intros H; inversion H; subst; [left; auto|].
  right. exists src, tgt. simpl. auto 10.
Qed.

(** C5, amended. A top-level shallow copy performs the copy task once, on
    the root only.  On the clone it returns, every relationship of the
    source that is not in [ignoreAttributes] and is not a key of
    [overwrite] is tied to the same related records as on the source:
    either the members of the source relationship are the members of the
    clone's, or the clone's property holds the value read from the
    source. *)
Theorem shallow_copy_links_by_reference env fuel this _options s s' model self :
  heap s !! this = Some self ->
  COPY_TASK_RUNNER env fuel this false _options s = (s', Ok model) ->
  let options := assign_options (copyableOptions self) _options in
  performed s' = performed s ++ [this] /\
  exists clone,
    heap s' !! model = Some clone /\
    forall name k,
      (name, k) ∈ relationship_defs self ->
      name ∉ m_ignoreAttributes options ->
      m_overwrite options !! name = None ->
      (forall g, g ∈ default [] (members clone !! name) <->
                 g ∈ default [] (members self !! name)) \/
      fields clone !! name = Some (prop (fields self) name).
Proof.
  intros Hself Hrun options.
  apply runner_Ok in Hrun as (fuel' & self' & cd & -> & Hs & Hf & <-).
  rewrite Hself in Hs. inversion Hs; subst self'. fold options in Hf.
  apply copy_fresh_Ok in Hf as (s1 & s2 & Halloc & Hreg & Hpop).
  apply allocate_Ok in Halloc as (Hfresh & o & Hh1 & Hf1 & Hm1 & _ & Hp1).
  simpl in Hfresh, Hh1, Hp1.
  assert (heap s2 = heap s1 /\ performed s2 = performed s1) as [Hh2 Hp2]
    by (unfold register in Hreg; by inversion Hreg).
  apply populate_Ok in Hpop
    as (dA & rA & ot & s3 & s4 & o4 & HA & HR & Hot & Hc & Ho4 & Hh' & _ & _ & Hp').
  apply attribute_pass_same_objects in HA as [Hh3 Hp3].
  assert (this ≠ c_model cd) as Hne.
  { intros Heq. rewrite <- Heq, Hself in Hfresh. discriminate. }
  set (model := c_model cd) in *.
  (* the invariant of the relationship loop *)
  pose (Inv := fun (done : list (string * kind)) (a : gmap string value) (st : state) =>
    heap st !! this = Some self /\ performed st = performed s3 /\
    exists om, heap st !! model = Some om /\
      (forall n g, g ∈ default [] (members om !! n) -> g ∈ default [] (members self !! n)) /\
      (forall n v, a !! n = Some v -> m_overwrite options !! n = None ->
                   v = prop (fields self) n) /\
      (forall x, x ∈ done -> m_overwrite options !! x.1 = None ->
         (forall g, g ∈ default [] (members self !! x.1) ->
                    g ∈ default [] (members om !! x.1)) \/
         a !! x.1 = Some (prop (fields self) x.1))).
  assert (Inv ([] ++ collect_relationships self options) rA s4) as HInv.
  { revert HR. apply (foldM_inv_done _ Inv).
    - intros done x a st a' st' _ (Hthis & Hperf & om & Hom & Hsub & Hval & Hdone) Hstep.
      apply copyRelationship_shallow in Hstep
        as [(Hov & -> & ->)|(Hov & [[-> ->]|(src & tgt & Hsrc & Htgt & Hh & Hp & ->)])].
      + (* overwritten *)
        split; [done|]. split; [done|]. exists om. split; [done|]. split; [done|].
        assert (m_overwrite options !! x.1 <> None) as Hsome.
        { intros Hn. unfold prop in Hov. by rewrite Hn in Hov. }
        split.
        * intros n v Hv Hn. destruct (decide (x.1 = n)) as [<-|Hxn]; [done|].
          rewrite lookup_insert_ne in Hv; eauto.
        * intros y Hy Hn. destruct (decide (x.1 = y.1)) as [Heq|Hxy].
          { by rewrite <- Heq in Hn. }
          rewrite lookup_insert_ne by done.
          apply elem_of_app in Hy as [Hy|Hy]; [by apply Hdone|].
          apply list_elem_of_singleton in Hy. by subst y.
      + (* the link raised: the value read is stored *)
        assert (read this x.1 st = prop (fields self) x.1) as Hread
          by (unfold read; by rewrite Hthis).
        split; [done|]. split; [done|]. exists om. split; [done|]. split; [done|].
        split.
        * intros n v Hv Hn. destruct (decide (x.1 = n)) as [<-|Hxn].
          { rewrite lookup_insert_eq in Hv. congruence. }
          rewrite lookup_insert_ne in Hv; eauto.
        * intros y Hy Hn. destruct (decide (x.1 = y.1)) as [Heq|Hxy].
          { right. rewrite <- Heq, lookup_insert_eq. congruence. }
          rewrite lookup_insert_ne by done.
          apply elem_of_app in Hy as [Hy|Hy]; [by apply Hdone|].
          apply list_elem_of_singleton in Hy. by subst y.
      + (* linked *)
        rewrite Hthis in Hsrc. rewrite Hom in Htgt.
        inversion Hsrc; subst src. inversion Htgt; subst tgt.
        split; [rewrite Hh; by rewrite lookup_insert_ne|].
        split; [congruence|].
        eexists. split; [rewrite Hh; apply lookup_insert_eq|]. simpl.
        split; [|split; [done|]].
        * intros n g. destruct (decide (x.1 = n)) as [<-|Hxn].
          { rewrite lookup_insert_eq. simpl. rewrite elem_of_addRecords.
            intros [|]; auto. }
          rewrite lookup_insert_ne by done. apply Hsub.
        * intros y Hy Hn. destruct (decide (x.1 = y.1)) as [Heq|Hxy].
          { left. intros g Hg. rewrite <- Heq, lookup_insert_eq. simpl.
            rewrite elem_of_addRecords. right. by rewrite Heq. }
          rewrite lookup_insert_ne by done.
          apply elem_of_app in Hy as [Hy|Hy]; [by apply Hdone|].
          apply list_elem_of_singleton in Hy. by subst y.
    - split; [rewrite Hh3, Hh2, Hh1; by rewrite lookup_insert_ne|].
      split; [done|]. exists o.
      split; [rewrite Hh3, Hh2, Hh1; apply lookup_insert_eq|].
      split; [intros n g; rewrite Hm1, lookup_empty; simpl; by rewrite elem_of_nil|].
      split; [intros n v; by rewrite lookup_empty|].
      intros x Hx. by apply elem_of_nil in Hx. }
  simpl in HInv. destruct HInv as (Hthis & Hperf & om & Hom & Hsub & Hval & Hdone).
  rewrite Ho4 in Hom. inversion Hom; subst om.
  split.
  { rewrite Hp', Hperf, Hp3, Hp2, Hp1. reflexivity. }
  eexists. split; [rewrite Hh'; apply lookup_insert_eq|]. simpl.
  intros name k Hin Hign Hov.
  destruct (Hdone (name, k)) as [Hlinked|HrA]; [|done| |].
  - apply in_collect_relationships. auto.
  - left. intros g. split; [apply Hsub | apply Hlinked].
  - right. simpl in HrA. rewrite Hc. simpl. unfold assign.
    apply lookup_union_Some_l. rewrite lookup_union_r by done.
    by apply lookup_union_Some_l.
Qed.

(** ** Running with more fuel *)

Lemma le_refl {A} (m : M A) : le m m.
Proof. intros s s' r H _. exact H. Qed.

Lemma le_bind {A B} (m m' : M A) (k k' : A -> M B) :
  le m m' -> (forall a, le (k a) (k' a)) -> le (bind m k) (bind m' k').
Proof.
  intros Hm Hk s s' r. unfold bind.
  destruct (m s) as [s1 [a|e|]] eqn:E; intros H Hr.
  - rewrite (Hm _ _ _ E); [|done]. by apply Hk.
  - rewrite (Hm _ _ _ E); done.
  - inversion H; subst. done.
Qed.

Lemma le_try_catch {A} (m m' : M A) (h : exn -> M A) :
  le m m' -> le (try_catch m h) (try_catch m' h).
Proof.
  intros Hm s s' r. unfold try_catch.
  destruct (m s) as [s1 [a|e|]] eqn:E; intros H Hr.
  - rewrite (Hm _ _ _ E); done.
  - rewrite (Hm _ _ _ E); done.
  - inversion H; subst. done.
Qed.

Lemma le_foldM {A B} (f f' : A -> B -> M A) l :
  (forall a x, le (f a x) (f' a x)) -> forall a, le (foldM f a l) (foldM f' a l).
Proof.
  intros Hf. induction l as [|x l IH]; intros a; simpl.
  - apply le_refl.
  - apply le_bind; auto.
Qed.

Lemma le_mapM {A B} (f f' : A -> M B) l :
  (forall x, le (f x) (f' x)) -> le (mapM f l) (mapM f' l).
Proof.
  intros Hf. induction l as [|x l IH]; simpl.
  - apply le_refl.
  - apply le_bind; [apply Hf|]. intros y.
    apply le_bind; [exact IH|]. intros ys. apply le_refl.
Qed.

Lemma le_copyRelationship env rec rec' this model deep options rAttrs r :
  (forall g d o, le (rec g d o) (rec' g d o)) ->
  le (copyRelationship env rec this model deep options rAttrs r)
     (copyRelationship env rec' this model deep options rAttrs r).
Proof.
  intros Hrec. unfold copyRelationship.
  destruct (negb (isUndefined _)); [apply le_refl|].
  destruct (_ || _); [apply le_refl|].
  apply le_bind; [apply le_refl|]. intros value.
  destruct r.2.
  - apply le_bind; [apply le_refl|]. intros [|]; [|apply le_refl].
    destruct value; try apply le_refl.
    apply le_bind; [apply Hrec|]. intros; apply le_refl.
  - apply le_bind; [apply le_refl|]. intros fo.
    apply le_bind; [apply le_refl|]. intros [|]; [|apply le_refl].
    apply le_bind; [|intros; apply le_refl].
    apply le_mapM. intros x. destruct x; simpl; try apply le_refl.
    apply le_bind; [apply le_refl|]. intros [|]; [|apply le_refl].
    apply le_bind; [apply Hrec|]. intros; apply le_refl.
Qed.

Lemma le_copy_body env rec rec' this deep _options :
  (forall g d o, le (rec g d o) (rec' g d o)) ->
  le (copy_body env rec this deep _options) (copy_body env rec' this deep _options).
Proof.
  intros Hrec. unfold copy_body.
  apply le_bind; [apply le_refl|]. intros _ s s' r.
  destruct (heap s !! this) as [self|]; [|auto].
  destruct (copies (_meta s) !! this); [auto|].
  revert s s' r. apply le_bind; [|intros; apply le_refl].
  unfold copy_fresh. apply le_bind; [apply le_refl|]. intros model.
  apply le_bind; [apply le_refl|]. intros _.
  unfold populate. apply le_bind; [apply le_refl|]. intros dAttrs.
  apply le_bind; [|intros; apply le_refl].
  apply le_foldM. intros a x. by apply le_copyRelationship.
Qed.

(** A run that did not exhaust its fuel is the run with any larger fuel. *)
Lemma COPY_TASK_more_fuel env fuel fuel' this deep _options :
  fuel <= fuel' ->
  le (COPY_TASK env fuel this deep _options) (COPY_TASK env fuel' this deep _options).
Proof.
  revert fuel' this deep _options.
  induction fuel as [|fuel IH]; intros fuel' this deep o Hle.
  - intros s s' r H Hr. inversion H; subst. done.
  - destruct fuel' as [|fuel']; [lia|]. simpl.
    apply le_copy_body. intros g d o'. apply IH. lia.
Qed.

(** ** Registration comes before the nested performs *)

Section Agree.
Context (I : state -> Prop) (R : state -> state -> Prop).
Hypothesis R_refl : forall s, R s s.
Hypothesis R_trans : forall s1 s2 s3, R s1 s2 -> R s2 s3 -> R s1 s3.
Hypothesis I_R : forall s s', I s -> R s s' -> I s'.

Lemma agree_refl {A} (m : M A) : agree I m m.
Proof. by intros s _. Qed.

Lemma agree_bind {A B} (m m' : M A) (k k' : A -> M B) :
  pres R m -> agree I m m' -> (forall a, agree I (k a) (k' a)) ->
  agree I (bind m k) (bind m' k').
Proof.
  intros Hp Hm Hk s Hs. unfold bind. rewrite <- (Hm s Hs).
  specialize (Hp s). destruct (m s) as [s1 [a|e|]]; simpl in *; auto.
  apply Hk. by eapply I_R.
Qed.

Lemma agree_foldM {A B} (f f' : A -> B -> M A) l :
  (forall a x, pres R (f a x)) ->
  (forall a x, agree I (f a x) (f' a x)) ->
  forall a, agree I (foldM f a l) (foldM f' a l).
Proof.
  intros Hp Hf. induction l as [|x l IH]; intros a; simpl.
  - apply agree_refl.
  - apply agree_bind; auto.
Qed.

Lemma agree_mapM {A B} (f f' : A -> M B) l :
  (forall x, pres R (f x)) ->
  (forall x, agree I (f x) (f' x)) ->
  agree I (mapM f l) (mapM f' l).
Proof.
  intros Hp Hf. induction l as [|x l IH]; simpl.
  - apply agree_refl.
  - apply agree_bind; [apply Hp|apply Hf|]. intros y.
    apply agree_bind; [|exact IH|intros; apply agree_refl].
    by apply pres_mapM.
Qed.

Lemma agree_perform_member rec rec' deepRel relOptions member :
  (forall g d o, agree I (rec g d o) (rec' g d o)) ->
  agree I (perform_member rec deepRel relOptions member)
          (perform_member rec' deepRel relOptions member).
Proof.
  intros Hrec. destruct member; simpl; try apply agree_refl.
  apply agree_bind; [apply (pres_get_IS_COPYABLE R R_refl (VObject g))|apply agree_refl|].
  intros [|]; [|apply agree_refl].
  intros s Hs. unfold bind. by rewrite (Hrec g deepRel relOptions s Hs).
Qed.

Lemma agree_copyRelationship env rec rec' this model deep options rAttrs r :
  (forall g d o, pres R (rec g d o)) ->
  (forall g d o, agree I (rec g d o) (rec' g d o)) ->
  agree I (copyRelationship env rec this model deep options rAttrs r)
          (copyRelationship env rec' this model deep options rAttrs r).
Proof.
  intros Hp Hrec. unfold copyRelationship.
  destruct (negb (isUndefined _)); [apply agree_refl|].
  destruct (_ || _); [apply agree_refl|].
  apply agree_bind; [by apply pres_get|apply agree_refl|]. intros value.
  destruct r.2.
  - apply agree_bind; [by apply pres_and_IS_COPYABLE|apply agree_refl|].
    intros [|]; [|apply agree_refl].
    destruct value; try apply agree_refl.
    intros s Hs. unfold bind. by rewrite (Hrec _ _ _ s Hs).
  - apply agree_bind; [by apply pres_get_firstObject|apply agree_refl|]. intros fo.
    apply agree_bind; [by apply pres_and_IS_COPYABLE|apply agree_refl|].
    intros [|]; [|apply agree_refl].
    intros s Hs. unfold bind.
    rewrite (agree_mapM (perform_member rec _ _) (perform_member rec' _ _) _
               (fun x => pres_perform_member R R_refl R_trans rec _ _ x Hp)
               (fun x => agree_perform_member rec rec' _ _ x Hrec) s Hs).
    reflexivity.
Qed.
End Agree.

Lemma guarded_agrees this rec g d o :
  agree (fun s => is_Some (copies (_meta s) !! this)) (rec g d o) (guarded this rec g d o).
Proof.
  intros s Hs. unfold guarded. by rewrite bool_decide_eq_true_2.
Qed.

(** Line 148 comes before the passes: a fresh copy starts its nested
    performs only in states in which its own record is registered, so that
    a perform which leads back to the record finds the memo entry. *)
Lemma nested_performs_follow_registration env rec this self deep options s :
  (forall g d o, pres (session_step nothing) (rec g d o)) ->
  copy_fresh env rec this self deep options s
  = copy_fresh env (guarded this rec) this self deep options s.
Proof.
  intros Hrec. unfold copy_fresh. unfold bind at 1 3.
  destruct (allocate self options s) as [s1 [model| |]]; try reflexivity.
  rewrite !bind_register.
  set (I := fun st : state => is_Some (copies (_meta st) !! this)).
  set (R := session_step (fun g => g = model)).
  assert (forall st st', I st -> R st st' -> I st') as HIR.
  { intros st st' [c Hc] Hst. exists c.
    eapply lookup_weaken; [exact Hc | apply (ss_copies _ _ _ Hst)]. }
  assert (I (register this model s1).1) as Hreg.
  { exists model. simpl. apply lookup_insert_eq. }
  pose proof (session_step_refl (fun g => g = model)) as Hr.
  pose proof (session_step_trans (fun g => g = model)) as Ht.
  assert (forall g d o, pres R (rec g d o)) as Hrec'.
  { intros g d o st. eapply session_step_weaken; [|apply Hrec]. intros ? []. }
  revert Hreg. generalize (register this model s1).1. intros s2 Hs2.
  unfold populate.
  apply (agree_bind I R HIR); [| |intros dAttrs|exact Hs2].
  { apply pres_foldM; [exact Hr|exact Ht|]. intros a x.
    apply pres_copyAttribute; [exact Hr|exact Ht|]. intros; apply getTransform_step. }
  { apply agree_refl. }
  apply (agree_bind I R HIR); [| |intros; apply agree_refl].
  { apply pres_foldM; [exact Hr|exact Ht|]. intros a x.
    apply pres_copyRelationship; [exact Hr|exact Ht|exact Hrec'|].
    apply link_members_step. }
  apply (agree_foldM I R HIR).
  - intros a x. apply pres_copyRelationship; [exact Hr|exact Ht|exact Hrec'|].
    apply link_members_step.
  - intros a x. apply (agree_copyRelationship I R Hr Ht HIR); [exact Hrec'|].
    intros g d o. apply guarded_agrees.
Qed.

(** ** Termination *)

Lemma safe_bind {A B} (I : state -> Prop) (m : M A) (k : A -> M B) :
  safe I m ->
  (forall s s' a, I s -> m s = (s', Ok a) -> (k a s').2 ≠ OutOfFuel) ->
  safe I (bind m k).
Proof.
  intros Hm Hk s Hs. unfold bind. specialize (Hm s Hs).
  destruct (m s) as [s1 [a|e|]] eqn:E; simpl in *; try done.
  by eapply Hk.
Qed.

Section Safe.
Context (I : state -> Prop) (R : state -> state -> Prop).
Hypothesis I_R : forall s s', I s -> R s s' -> I s'.

Lemma safe_foldM {A B} (f : A -> B -> M A) l :
  (forall a x, pres R (f a x)) ->
  (forall a x, x ∈ l -> safe I (f a x)) ->
  forall a, safe I (foldM f a l).
Proof.
  intros Hp. induction l as [|x l IH]; intros Hf a; simpl.
  - intros s _. done.
  - apply safe_bind; [apply Hf, list_elem_of_here|].
    intros s s' a' Hs E. apply IH.
    + intros. apply Hf. by apply list_elem_of_further.
    + eapply I_R; [exact Hs|]. specialize (Hp a x s). by rewrite E in Hp.
Qed.

Lemma safe_mapM {A B} (f : A -> M B) l :
  (forall x, pres R (f x)) ->
  (forall x, x ∈ l -> safe I (f x)) ->
  safe I (mapM f l).
Proof.
  intros Hp. induction l as [|x l IH]; intros Hf; simpl.
  - intros s _. done.
  - apply safe_bind; [apply Hf, list_elem_of_here|].
    intros s s' y Hs E.
    assert (I s') as Hs'.
    { eapply I_R; [exact Hs|]. specialize (Hp x s). by rewrite E in Hp. }
    assert (safe I (mapM f l)) as Hl.
    { apply IH. intros. apply Hf. by apply list_elem_of_further. }
    specialize (Hl s' Hs'). unfold bind.
    by destruct (mapM f l s') as [s2 [ys| |]].
Qed.
End Safe.

Lemma safe_anything_bind {A B} (m : M A) (k : A -> M B) :
  safe anything m -> (forall a, safe anything (k a)) -> safe anything (bind m k).
Proof.
  intros Hm Hk. apply safe_bind; [done|].
  intros s s' a _ _. by apply Hk.
Qed.

Lemma safe_lift {A} I (r : result A) : safe I (lift r).
Proof. by destruct r. Qed.

(** The attribute pass performs no task: it cannot exhaust the fuel. *)
Lemma safe_copyAttribute env this deep options dAttrs a :
  safe anything (copyAttribute env this deep options dAttrs a).
Proof.
  unfold copyAttribute.
  destruct (includes _ _); [done|].
  destruct (negb (isUndefined _)); [done|].
  destruct (_ && _).
  - apply safe_anything_bind; [done|]. intros value.
    destruct (Copyable_detect env value).
    + apply safe_anything_bind; [|done].
      unfold value_copy. destruct (Copyable env) as [[d c]|]; [|done].
      apply safe_lift.
    + apply safe_anything_bind.
      { intros s _. unfold getTransform.
        destruct (transforms (_meta s) !! _); [done|].
        by destruct (lookup_transform env _). }
      intros t. apply safe_anything_bind; [|done].
      destruct t as [t|]; simpl; [|done].
      apply safe_anything_bind; [apply safe_lift|]. intros; apply safe_lift.
  - apply safe_anything_bind; done.
Qed.

Lemma safe_weaken {A} (I : state -> Prop) (m : M A) : safe anything m -> safe I m.
Proof. intros H s _. by apply H. Qed.

Lemma good_step h0 fuel (W : guid -> Prop) s s' :
  (forall g, W g -> h0 !! g = None) ->
  good h0 fuel s -> session_step W s s' -> good h0 fuel s'.
Proof.
  intros HW [HJ Hsz] Hs. split.
  - intros g ob Hg. eapply ss_heap; eauto.
    intros Hw. apply HW in Hw. congruence.
  - eapply Nat.le_lt_trans; [|exact Hsz]. apply subseteq_size.
    pose proof (subseteq_dom _ _ (ss_copies _ _ _ Hs)). set_solver.
Qed.

Lemma closed_read h0 this self name s :
  closed h0 -> h0 !! this = Some self -> heap s !! this = Some self ->
  Forall (fun g => g ∈ dom h0) (refs (read this name s)).
Proof.
  intros Hcl H0 Hs. unfold read, prop. rewrite Hs.
  destruct (fields self !! name) as [v|] eqn:Hv; simpl; [|constructor].
  exact (Hcl this self H0 name v Hv).
Qed.

Lemma refs_array_item v g : VObject g ∈ array_items v -> g ∈ refs v.
Proof.
  destruct v; simpl; try (by intros ?%elem_of_nil).
  intros Hin. apply list_elem_of_omap. exists (VObject g). auto.
Qed.

Lemma and_IS_COPYABLE_outcome v s :
  (and_IS_COPYABLE v s).1 = s /\
  (and_IS_COPYABLE v s).2 ≠ OutOfFuel /\
  ((and_IS_COPYABLE v s).2 = Ok true ->
   exists g, v = VObject g /\ exposes_copy v s = true).
Proof.
  unfold and_IS_COPYABLE. destruct (truthy v); [|by simpl].
  destruct v; simpl; try done.
  split; [done|]. split; [done|]. intros H. inversion H. eauto.
Qed.

Lemma get_firstObject_outcome v s :
  (get_firstObject v s).1 = s /\ (get_firstObject v s).2 ≠ OutOfFuel.
Proof. by destruct v. Qed.

Lemma safe_perform_member h0 fuel rec deepRel relOptions member :
  (forall g, member = VObject g -> g ∈ dom h0) ->
  (forall g d o, g ∈ dom h0 -> safe (good h0 fuel) (rec g d o)) ->
  safe (good h0 fuel) (perform_member rec deepRel relOptions member).
Proof.
  intros Hm Hrec s Hs. destruct member; try (simpl; done).
  unfold perform_member, bind. rewrite get_IS_COPYABLE_object.
  destruct (exposes_copy (VObject g) s); [|done].
  specialize (Hrec g deepRel relOptions (Hm g eq_refl) s Hs).
  by destruct (rec g deepRel relOptions s) as [s1 [c| |]].
Qed.

(** One turn of the relationship loop terminates when the performs it
    may start do. *)
Lemma safe_copyRelationship env h0 fuel rec this self model deep options rAttrs r :
  closed h0 -> h0 !! this = Some self ->
  (forall g d o, pres (session_step nothing) (rec g d o)) ->
  (forall g d o, g ∈ dom h0 -> safe (good h0 fuel) (rec g d o)) ->
  safe (good h0 fuel) (copyRelationship env rec this model deep options rAttrs r).
Proof.
  intros Hcl Hself Hpres Hrec. unfold copyRelationship.
  destruct (negb (isUndefined _)); [done|].
  destruct (_ || _).
  - intros s _. unfold try_catch, bind.
    pose proof (link_members_outcome env this model r.2 r.1 s) as Hl.
    by destruct (link_members env this model r.2 r.1 s) as [s1 [[]|e|]].
  - intros s Hs. unfold bind at 1, get.
    pose proof (closed_read h0 this self r.1 s Hcl Hself (proj1 Hs this self Hself))
      as Hrefs.
    rewrite Forall_forall in Hrefs.
    set (value := read this r.1 s) in *.
    set (relOptions := m_relationships options !! r.1).
    set (deepRel := resolve_deep relOptions deep).
    destruct r.2.
    + (* belongsTo *)
      unfold bind at 1.
      destruct (and_IS_COPYABLE_outcome value s) as (Hst & Hout & Htrue).
      destruct (and_IS_COPYABLE value s) as [s1 [[|]|e|]]; simpl in *; subst;
        try done.
      destruct (Htrue eq_refl) as (g & Hv & _). rewrite Hv.
      assert (g ∈ dom h0) as Hg by (apply Hrefs; rewrite Hv; simpl; set_solver).
      specialize (Hrec g deepRel relOptions Hg s Hs). unfold bind.
      by destruct (rec g deepRel relOptions s) as [s1 [c| |]].
    + (* hasMany *)
      unfold bind at 1.
      destruct (get_firstObject_outcome value s) as (Hst & Hout).
      destruct (get_firstObject value s) as [s1 [fo|e|]]; simpl in *; subst;
        try done.
      unfold bind at 1.
      destruct (and_IS_COPYABLE_outcome fo s) as (Hst & Hout' & _).
      destruct (and_IS_COPYABLE fo s) as [s1 [[|]|e|]]; simpl in *; subst;
        try done.
      assert (safe (good h0 fuel)
                (mapM (perform_member rec deepRel relOptions) (array_items value)))
        as Hmap.
      { apply (safe_mapM _ (session_step nothing)).
        - intros st st' Hst. by apply good_step; [intros g []|].
        - intros x. apply pres_perform_member;
            [apply session_step_refl|apply session_step_trans|exact Hpres].
        - intros x Hx. apply safe_perform_member; [|exact Hrec].
          intros g ->. apply Hrefs. by apply refs_array_item. }
      specialize (Hmap s Hs). unfold bind.
      by destruct (mapM _ (array_items value) s) as [s1 [cs| |]].
Qed.

Lemma safe_populate env h0 fuel rec this self model deep options :
  closed h0 -> h0 !! this = Some self -> h0 !! model = None ->
  (forall g d o, pres (session_step nothing) (rec g d o)) ->
  (forall g d o, g ∈ dom h0 -> safe (good h0 fuel) (rec g d o)) ->
  safe (good h0 fuel) (populate env rec this self model deep options).
Proof.
  intros Hcl Hself Hmodel Hpres Hrec.
  pose proof (session_step_refl (fun g => g = model)) as Hr.
  pose proof (session_step_trans (fun g => g = model)) as Ht.
  assert (forall s s', good h0 fuel s -> session_step (fun g => g = model) s s' ->
                       good h0 fuel s') as HIR.
  { intros s s' Hs. by apply good_step; [intros g ->|]. }
  unfold populate. apply safe_bind.
  { apply (safe_foldM _ _ HIR).
    - intros a x. apply pres_copyAttribute; [exact Hr|exact Ht|].
      intros; apply getTransform_step.
    - intros a x _. apply safe_weaken, safe_copyAttribute. }
  intros s s1 dAttrs Hs HA.
  assert (good h0 fuel s1) as Hs1.
  { eapply HIR; [exact Hs|].
    assert (pres (session_step (fun g => g = model))
              (foldM (copyAttribute env this deep options) ∅ (attributes self))) as Hp.
    { apply pres_foldM; [exact Hr|exact Ht|]. intros a x.
      apply pres_copyAttribute; [exact Hr|exact Ht|]. intros; apply getTransform_step. }
    specialize (Hp s). by rewrite HA in Hp. }
  assert (safe (good h0 fuel)
            (foldM (copyRelationship env rec this model deep options) ∅
                   (collect_relationships self options))) as HR.
  { apply (safe_foldM _ _ HIR).
    - intros a x. apply pres_copyRelationship; [exact Hr|exact Ht| |].
      + intros g d o st. eapply session_step_weaken; [|apply Hpres]. intros ? [].
      + apply link_members_step.
    - intros a x _. by eapply safe_copyRelationship. }
  specialize (HR s1 Hs1). unfold bind at 1.
  destruct (foldM (copyRelationship env rec this model deep options) ∅ _ s1)
    as [s2 [rAttrs| |]]; simpl in *; try done.
  unfold bind, read_properties, setProperties.
  destruct (heap s2 !! model) as [o|]; [|done]. by destruct (refuses o _).
Qed.

(** With a budget above the number of source records that have no clone
    yet, the copy task does not exhaust it: every perform that misses the
    memo registers its record before it performs anything else. *)
Lemma COPY_TASK_safe env h0 :
  closed h0 ->
  forall fuel this deep _options,
    this ∈ dom h0 -> safe (good h0 fuel) (COPY_TASK env fuel this deep _options).
Proof.
  intros Hcl. induction fuel as [|fuel IH]; intros this deep o Hthis s [HJ Hsz].
  { lia. }
  apply elem_of_dom in Hthis as [self Hself].
  rewrite COPY_TASK_unfold, (HJ this self Hself).
  destruct (copies (_meta s) !! this) as [c|] eqn:Hc; [done|].
  unfold bind. unfold copy_fresh at 1. unfold bind at 1.
  destruct (allocate self (assign_options (copyableOptions self) o) (logged this s))
    as [s1 [model| |]] eqn:Ealloc; try done.
  2:{ unfold allocate, createRecord, createPlain in Ealloc.
      destruct (m_createAsModel _); discriminate. }
  apply allocate_Ok in Ealloc as (Hfresh & ob & Hh1 & _ & _ & Hm1 & _).
  simpl in Hfresh, Hm1. rewrite bind_register.
  assert (h0 !! model = None) as Hmodel.
  { destruct (h0 !! model) as [x|] eqn:E; [|done].
    apply HJ in E. congruence. }
  assert (good h0 fuel (register this model s1).1) as Hgood.
  { split.
    - intros g x Hg. simpl. rewrite Hh1. simpl.
      rewrite lookup_insert_ne; [by apply HJ|]. intros <-. congruence.
    - simpl. rewrite Hm1, dom_insert_L.
      assert (dom h0 ∖ ({[this]} ∪ dom (copies (_meta s)))
              ⊂ dom h0 ∖ dom (copies (_meta s))) as Hsub.
      { apply not_elem_of_dom in Hc.
        assert (this ∈ dom h0) by (apply elem_of_dom; eauto). set_solver. }
      apply subset_size in Hsub. lia. }
  pose proof (safe_populate env h0 fuel (COPY_TASK env fuel) this self model deep
                (assign_options (copyableOptions self) o) Hcl Hself Hmodel
                (fun g d o' => COPY_TASK_step env fuel g d o')
                (fun g d o' Hg => IH g d o' Hg) _ Hgood) as Hpop.
  by destruct (populate env (COPY_TASK env fuel) this self model deep _ _)
    as [s3 [cd| |]].
Qed.

(** C2. On a record graph (every reference of a record leads to a record
    of the heap), cyclic or not, a top-level copy of a record of the graph
    terminates: one state and one outcome, a clone or an exception, are
    what the runner returns for every recursion budget above the number of
    objects in the heap. *)
Theorem copy_terminates env s this deep _options :
  closed (heap s) ->
  is_Some (heap s !! this) ->
  exists s' r,
    r ≠ OutOfFuel /\
    forall fuel, size (dom (heap s)) < fuel ->
                 COPY_TASK_RUNNER env fuel this deep _options s = (s', r).
Proof.
  intros Hcl Hthis.
  set (fuel0 := S (size (dom (heap s)))).
  assert (good (heap s) fuel0 (set_meta new_meta s)) as Hgood.
  { split; [done|]. simpl. rewrite dom_empty_L, difference_empty_L. unfold fuel0. lia. }
  pose proof (COPY_TASK_safe env (heap s) Hcl fuel0 this deep _options
                (proj2 (elem_of_dom _ _) Hthis) _ Hgood) as Hsafe.
  destruct (COPY_TASK env fuel0 this deep _options (set_meta new_meta s))
    as [s1 r1] eqn:E. simpl in Hsafe.
  assert (forall fuel, size (dom (heap s)) < fuel ->
            COPY_TASK env fuel this deep _options (set_meta new_meta s) = (s1, r1))
    as Hfuel.
  { intros fuel Hlt.
    apply (COPY_TASK_more_fuel env fuel0 fuel); [unfold fuel0; lia|exact E|exact Hsafe]. }
  destruct r1 as [model|e|]; [| |done].
  - exists s1, (Ok model). split; [done|]. intros fuel Hlt.
    unfold COPY_TASK_RUNNER. by rewrite (Hfuel fuel Hlt).
  - destruct (rollback_outcome e s1) as (s2 & e' & Hroll & _).
    exists s2, (Throw e'). split; [done|]. intros fuel Hlt.
    unfold COPY_TASK_RUNNER. by rewrite (Hfuel fuel Hlt).
Qed.

(** ** The scenarios, evaluated *)

(** The scenario of the specification: the clone of the post holds the
    clones of its comments in the order of the source, and the two comment
    clones share one clone of the user. *)
Example blog_deep_copy :
  let r := COPY_TASK_RUNNER env0 5 1%positive true (Some no_options) (start blog) in
  r.2 = Ok 5%positive /\
  read 5%positive "title" r.1 = VString "x" /\
  read 5%positive "comments" r.1 = VArray [VObject 6%positive; VObject 8%positive] /\
  copies (_meta r.1) !! 2%positive = Some 6%positive /\
  copies (_meta r.1) !! 3%positive = Some 8%positive /\
  read 6%positive "author" r.1 = VObject 7%positive /\
  read 8%positive "author" r.1 = VObject 7%positive /\
  copies (_meta r.1) !! 4%positive = Some 7%positive.
Proof. vm_compute. repeat split; reflexivity. Qed.

(** Two records that point at each other: the clones point at each other,
    and the second perform on record 1 is the memo hit. *)
Example pair_deep_copy :
  let r := COPY_TASK_RUNNER env0 3 1%positive true (Some no_options) (start pair) in
  r.2 = Ok 3%positive /\
  read 3%positive "next" r.1 = VObject 4%positive /\
  read 4%positive "next" r.1 = VObject 3%positive /\
  performed r.1 = [1%positive; 2%positive; 1%positive].
Proof. vm_compute. repeat split; reflexivity. Qed.

(** The state in which the passes of record 1 of that pair run: what the
    root perform does is the two passes and the merge, run from
    [pair_in_progress], where the clone of record 1 is registered. *)
Example pair_in_progress_is_reached :
  COPY_TASK env0 3 1%positive true None (set_meta new_meta (start pair))
  = (let r := populate env0 (COPY_TASK env0 2) 1%positive node_1 3%positive true
                       (assign_options (copyableOptions node_1) None) pair_in_progress in
     (r.1, match r.2 with
           | Ok cd => Ok (c_model cd)
           | Throw e => Throw e
           | OutOfFuel => OutOfFuel
           end)).
Proof. vm_compute. reflexivity. Qed.

(** A to-many collection with a record without the mixin between two
    records with it: the two are performed, the collection built for the
    clone has a hole in the middle, and setting it on the clone, a record
    of the store, fails the copy. *)
Example holed_folder_copy_fails :
  let r := COPY_TASK_RUNNER env0 3 1%positive true (Some no_options) (start holed_folder) in
  (exists e, r.2 = Throw (NewError (TypeError e))) /\
  performed r.1 = [1%positive; 2%positive; 4%positive].
Proof. vm_compute. split; [eexists|]; reflexivity. Qed.

(** A failed deep copy whose root clone is a plain object: the rollback
    starts with the root clone, which has no [unloadRecord]; the call
    fails with that error, and the clones of the two comments stay in the
    store. *)
Example plain_root_breaks_rollback :
  let r := COPY_TASK_RUNNER env0 5 1%positive true (Some as_plain_object)
                            (start broken_blog) in
  r.2 = Throw (TypeError "record.unloadRecord is not a function") /\
  copies (_meta r.1) !! 2%positive = Some 5%positive /\
  copies (_meta r.1) !! 3%positive = Some 6%positive /\
  elements (store (start broken_blog)) ≡ₚ [1%positive; 2%positive; 3%positive] /\
  elements (store r.1)
    ≡ₚ [1%positive; 2%positive; 3%positive; 5%positive; 6%positive].
Proof.
  vm_compute. repeat split; try reflexivity.
  - eapply (bool_decide_unpack _). vm_compute. exact I.
  - eapply (bool_decide_unpack _). vm_compute. exact I.
Qed.

(** ** Witnesses and counterexamples *)

Lemma copy_terminates_witness :
  closed (heap (start pair)) /\
  is_Some (heap (start pair) !! 1%positive) /\
  exists s' r,
    r ≠ OutOfFuel /\
    forall fuel, size (dom (heap (start pair))) < fuel ->
                 COPY_TASK_RUNNER env0 fuel 1%positive true (Some no_options) (start pair)
                 = (s', r).
Proof.
  assert (closed (heap (start pair))) as H1.
  { unfold closed. eapply (bool_decide_unpack _). vm_compute. exact I. }
  assert (is_Some (heap (start pair) !! 1%positive)) as H2.
  { vm_compute. eexists. reflexivity. }
  split; [exact H1|]. split; [exact H2|].
  exact (copy_terminates env0 (start pair) 1%positive true (Some no_options) H1 H2).
Defined.

Lemma failed_copy_rolls_back_witness :
  COPY_TASK env0 5 1%positive true None (set_meta new_meta (start broken_blog))
    = (broken_failed, Throw serialize_error) /\
  (forall g c, copies (_meta broken_failed) !! g = Some c ->
               store_record c broken_failed = true) /\
  exists s',
    COPY_TASK_RUNNER env0 5 1%positive true None (start broken_blog)
      = (s', Throw (NewError serialize_error)) /\
    (forall g c, copies (_meta broken_failed) !! g = Some c -> c ∉ store s') /\
    store s' ⊆ store broken_failed /\ heap s' = heap broken_failed /\
    _meta s' = _meta broken_failed.
Proof.
  assert (COPY_TASK env0 5 1%positive true None (set_meta new_meta (start broken_blog))
          = (broken_failed, Throw serialize_error)) as H1 by (vm_compute; reflexivity).
  assert (forall g c, copies (_meta broken_failed) !! g = Some c ->
                      store_record c broken_failed = true) as H2.
  { assert (map_Forall (fun _ c => store_record c broken_failed = true)
                       (copies (_meta broken_failed))) as Hall.
    { eapply (bool_decide_unpack _). vm_compute. exact I. }
    exact Hall. }
  split; [exact H1|]. split; [exact H2|].
  exact (failed_copy_rolls_back env0 5 1%positive true None (start broken_blog)
           broken_failed serialize_error H1 H2).
Defined.

(** C3 as the specification words it fails on the broken blog: the error
    the caller sees is not the error that the copy task raised. *)
Lemma rollback_reraises_other_error :
  ~ rollback_as_specified env0 5 1%positive true None (start broken_blog).
Proof.
  intros H.
  destruct (H broken_failed serialize_error) as (s' & Hr & _).
  { vm_compute. reflexivity. }
  vm_compute in Hr. discriminate Hr.
Qed.

Lemma overwrite_wins_witness :
  heap (start blog) !! 1%positive = Some post_1 /\
  m_overwrite (assign_options (copyableOptions post_1) (Some retitle)) !! "title"
    = Some (VString "y") /\
  isUndefined (VString "y") = false /\
  COPY_TASK_RUNNER env0 3 1%positive true (Some retitle) (start blog)
    = (blog_retitled, Ok 5%positive) /\
  exists clone,
    heap blog_retitled !! 5%positive = Some clone /\
    prop (fields clone) "title" = VString "y".
Proof.
  assert (heap (start blog) !! 1%positive = Some post_1) as H1
    by (vm_compute; reflexivity).
  assert (m_overwrite (assign_options (copyableOptions post_1) (Some retitle)) !! "title"
          = Some (VString "y")) as H2 by (vm_compute; reflexivity).
  assert (COPY_TASK_RUNNER env0 3 1%positive true (Some retitle) (start blog)
          = (blog_retitled, Ok 5%positive)) as H3 by (vm_compute; reflexivity).
  split; [exact H1|]. split; [exact H2|]. split; [reflexivity|]. split; [exact H3|].
  exact (overwrite_wins env0 3 1%positive true (Some retitle) (start blog)
           blog_retitled 5%positive post_1 "title" (VString "y") H1 H2 eq_refl H3).
Defined.

Lemma shallow_copy_links_by_reference_witness :
  heap (start blog) !! 1%positive = Some post_1 /\
  COPY_TASK_RUNNER env0 1 1%positive false (Some no_options) (start blog)
    = (blog_shallow, Ok 5%positive) /\
  performed blog_shallow = performed (start blog) ++ [1%positive] /\
  exists clone,
    heap blog_shallow !! 5%positive = Some clone /\
    forall name k,
      (name, k) ∈ relationship_defs post_1 ->
      name ∉ m_ignoreAttributes (assign_options (copyableOptions post_1) (Some no_options)) ->
      m_overwrite (assign_options (copyableOptions post_1) (Some no_options)) !! name = None ->
      (forall g, g ∈ default [] (members clone !! name) <->
                 g ∈ default [] (members post_1 !! name)) \/
      fields clone !! name = Some (prop (fields post_1) name).
Proof.
  assert (heap (start blog) !! 1%positive = Some post_1) as H1
    by (vm_compute; reflexivity).
  assert (COPY_TASK_RUNNER env0 1 1%positive false (Some no_options) (start blog)
          = (blog_shallow, Ok 5%positive)) as H2 by (vm_compute; reflexivity).
  split; [exact H1|]. split; [exact H2|].
  exact (shallow_copy_links_by_reference env0 1 1%positive (Some no_options)
           (start blog) blog_shallow 5%positive post_1 H1 H2).
Defined.

(** C5 as the specification words it fails on a post whose class ignores
    its comments: the clone has no comments, linked or assigned. *)
Lemma shallow_copy_leaves_ignored_relationship :
  ~ shallow_as_specified env0 1 1%positive (start quiet_blog).
Proof.
  intros H.
  set (r := COPY_TASK_RUNNER env0 1 1%positive false (Some no_options) (start quiet_blog)).
  assert (r = (r.1, Ok 3%positive)) as Hrun by (vm_compute; reflexivity).
  assert (exists clone, heap r.1 !! 3%positive = Some clone /\
                        members clone !! "comments" = None /\
                        fields clone !! "comments" = None) as (clone & Hc & Hm & Hf).
  { vm_compute. eexists. repeat split; reflexivity. }
  destruct (H quiet_post r.1 3%positive clone) with (name := "comments") (k := hasMany)
    as [Hlinked|Hassigned].
  - vm_compute. reflexivity.
  - exact Hrun.
  - exact Hc.
  - vm_compute. apply list_elem_of_here.
  - rewrite Hm in Hlinked. specialize (Hlinked 2%positive). simpl in Hlinked.
    assert (2%positive ∈ default [] (members quiet_post !! "comments")) as Hin.
    { vm_compute. apply list_elem_of_here. }
    apply Hlinked in Hin. by apply elem_of_nil in Hin.
  - rewrite Hf in Hassigned. discriminate.
Qed.

(** C6. On a folder whose items are a record with the mixin followed by a
    record without it, the deep copy neither keeps the collection nor
    copies every member: the first item alone is performed, the [items]
    of the clone hold its clone and nothing else, and the second item is
    lost.  The property as the specification words it fails there. *)
Theorem to_many_copy_loses_member :
  COPY_TASK_RUNNER env0 3 1%positive true (Some no_options) (start mixed_folder)
    = (mixed_folder_copied, Ok 4%positive) /\
  read 1%positive "items" (start mixed_folder)
    = VArray [VObject 2%positive; VObject 3%positive] /\
  read 4%positive "items" mixed_folder_copied = VArray [VObject 5%positive] /\
  copies (_meta mixed_folder_copied) !! 2%positive = Some 5%positive /\
  copies (_meta mixed_folder_copied) !! 3%positive = None /\
  ~ to_many_as_specified env0 3 1%positive "items" (start mixed_folder).
Proof.
  assert (COPY_TASK_RUNNER env0 3 1%positive true (Some no_options) (start mixed_folder)
          = (mixed_folder_copied, Ok 4%positive)) as Hrun by (vm_compute; reflexivity).
  split; [exact Hrun|]. split; [vm_compute; reflexivity|].
  split; [vm_compute; reflexivity|]. split; [vm_compute; reflexivity|].
  split; [vm_compute; reflexivity|].
  intros H.
  assert (exists clone, heap mixed_folder_copied !! 4%positive = Some clone /\
            fields clone !! "items" = Some (VArray [VObject 5%positive]))
    as (clone & Hc & Hf).
  { vm_compute. eexists. split; reflexivity. }
  destruct (H folder_1 [VObject 2%positive; VObject 3%positive] mixed_folder_copied
              4%positive clone) as [_ Hcopied].
  - vm_compute. reflexivity.
  - reflexivity.
  - vm_compute. apply list_elem_of_here.
  - vm_compute. reflexivity.
  - exact Hrun.
  - exact Hc.
  - destruct Hcopied as (cs & Hcs & Hall).
    + intros Hnone. apply Forall_cons in Hnone as [Hfirst _].
      vm_compute in Hfirst. discriminate.
    + rewrite Hf in Hcs. inversion Hcs; subst cs.
      apply Forall2_cons in Hall as [_ Hall]. inversion Hall.
Qed.

Lemma ignored_name_is_not_copied_witness :
  heap (start blog) !! 1%positive = Some post_1 /\
  "title" ∈ m_ignoreAttributes (assign_options (copyableOptions post_1) (Some skip_title)) /\
  COPY_TASK_RUNNER env0 3 1%positive true (Some skip_title) (start blog)
    = (blog_without_title, Ok 5%positive) /\
  exists clone,
    heap blog_without_title !! 5%positive = Some clone /\
    members clone !! "title" = None /\
    (is_Some (fields clone !! "title") ->
     "title" ∈ m_otherAttributes (assign_options (copyableOptions post_1) (Some skip_title)) \/
     is_Some (m_overwrite (assign_options (copyableOptions post_1) (Some skip_title))
                !! "title")).
Proof.
  assert (heap (start blog) !! 1%positive = Some post_1) as H1
    by (vm_compute; reflexivity).
  assert ("title" ∈ m_ignoreAttributes
                      (assign_options (copyableOptions post_1) (Some skip_title))) as H2
    by (vm_compute; apply list_elem_of_here).
  assert (COPY_TASK_RUNNER env0 3 1%positive true (Some skip_title) (start blog)
          = (blog_without_title, Ok 5%positive)) as H3 by (vm_compute; reflexivity).
  split; [exact H1|]. split; [exact H2|]. split; [exact H3|].
  exact (proj2 (proj2 (ignored_name_is_not_copied env0 3 1%positive true
                         (Some skip_title) (start blog) blog_without_title 5%positive
                         post_1 "title" H1 H2 H3))).
Defined.

Lemma link_error_is_swallowed_witness :
  isUndefined (prop (m_overwrite DEFAULT_OPTIONS) "comments") = true /\
  negb false || includes "comments" (m_copyByReference DEFAULT_OPTIONS) = true /\
  exists s' rAttrs',
    copyRelationship env_no_link (COPY_TASK env_no_link 0) 1%positive 5%positive false
      DEFAULT_OPTIONS ∅ ("comments", hasMany) blog_allocated = (s', Ok rAttrs') /\
    forall e,
      (link_members env_no_link 1%positive 5%positive hasMany "comments" blog_allocated).2
        = Throw e ->
      s' = blog_allocated /\
      rAttrs' = <["comments" := read 1%positive "comments" blog_allocated]> ∅.
Proof.
  split; [reflexivity|]. split; [reflexivity|].
  exact (link_error_is_swallowed env_no_link (COPY_TASK env_no_link 0) 1%positive
           5%positive false DEFAULT_OPTIONS ∅ "comments" hasMany blog_allocated
           eq_refl eq_refl).
Defined.

Lemma second_copy_is_dropped_witness :
  reachable env0 blog_in_flight /\
  NoDup (call_this <$> in_flight blog_in_flight) /\
  forall this deep options,
    this ∈ call_this <$> in_flight blog_in_flight ->
    copy this deep options blog_in_flight = (blog_in_flight, Dropped).
Proof.
  assert (reachable env0 blog_in_flight) as H1.
  { unfold blog_in_flight. apply reach_copy, reach_init. }
  split; [exact H1|].
  exact (second_copy_is_dropped env0 blog_in_flight H1).
Defined.

Lemma undefined_overwrite_reaches_clone_witness :
  heap (start blog) !! 1%positive = Some post_1 /\
  m_overwrite (assign_options (copyableOptions post_1) (Some untitle)) !! "title"
    = Some VUndefined /\
  COPY_TASK_RUNNER env0 3 1%positive true (Some untitle) (start blog)
    = (blog_untitled, Ok 5%positive) /\
  exists clone,
    heap blog_untitled !! 5%positive = Some clone /\
    fields clone !! "title" = Some VUndefined.
Proof.
  assert (heap (start blog) !! 1%positive = Some post_1) as H1
    by (vm_compute; reflexivity).
  assert (m_overwrite (assign_options (copyableOptions post_1) (Some untitle)) !! "title"
          = Some VUndefined) as H2 by (vm_compute; reflexivity).
  assert (COPY_TASK_RUNNER env0 3 1%positive true (Some untitle) (start blog)
          = (blog_untitled, Ok 5%positive)) as H3 by (vm_compute; reflexivity).
  split; [exact H1|]. split; [exact H2|]. split; [exact H3|].
  exact (proj2 (proj2 (undefined_overwrite_reaches_clone env0 3 1%positive true
                         (Some untitle) (start blog) blog_untitled 5%positive post_1
                         "title" H1 H2 H3))).
Defined.

(** * Further properties of the mixin *)

(** ** The clone of a top-level copy *)

Lemma runner_run_step env fuel this deep _options s s' r :
  COPY_TASK_RUNNER env fuel this deep _options s = (s', r) ->
  (forall g o, heap s !! g = Some o -> heap s' !! g = Some o) /\
  (forall model, r = Ok model -> store s ⊆ store s').
Proof.
  unfold COPY_TASK_RUNNER.
  destruct (COPY_TASK env fuel this deep _options (set_meta new_meta s))
    as [s1 r1] eqn:E.
  apply COPY_TASK_run_step in E. simpl in E.
  destruct r1 as [m|e|]; intros H.
  - inversion H; subst. split.
    + intros g o Hg. by apply (ss_heap _ _ _ E g o (fun F => F)).
    + intros model _. apply (ss_store _ _ _ E).
  - destruct (rollback_outcome e s1) as (s2 & e' & Hroll & Hh & _).
    rewrite Hroll in H. inversion H; subst. split; [|discriminate].
    intros g o Hg. rewrite Hh. by apply (ss_heap _ _ _ E g o (fun F => F)).
  - inversion H; subst. split; [|discriminate].
    intros g o Hg. by apply (ss_heap _ _ _ E g o (fun F => F)).
Qed.

(** The clone of a top-level copy is allocated by that copy. *)
Lemma runner_clone_new env fuel this deep _options s s' model :
  COPY_TASK_RUNNER env fuel this deep _options s = (s', Ok model) ->
  heap s !! model = None /\ is_Some (heap s' !! model).
Proof.
  intros Hrun.
  apply runner_Ok in Hrun as (fuel' & self & cd & -> & Hs & Hf & <-).
  pose proof Hf as Hf'.
  apply copy_fresh_fields in Hf as (o & Ho & _).
  apply copy_fresh_Ok in Hf' as (s1 & s2 & Halloc & _ & _).
  apply allocate_Ok in Halloc as (Hfresh & _). simpl in Hfresh.
  split; [exact Hfresh|eauto].
Qed.

(** X2. The clone that a top-level copy returns is an object that did not
    exist before the copy: it is not the source, nor any other record of
    the heap. *)
Theorem clone_is_a_new_object env fuel this deep _options s s' model :
  COPY_TASK_RUNNER env fuel this deep _options s = (s', Ok model) ->
  heap s !! model = None /\ is_Some (heap s' !! model) /\ model ≠ this.
Proof.
  intros Hrun.
  destruct (runner_clone_new _ _ _ _ _ _ _ _ Hrun) as [Hfresh Hclone].
  split; [exact Hfresh|]. split; [exact Hclone|].
  apply runner_Ok in Hrun as (fuel' & self & cd & _ & Hs & _ & _).
  intros Heq. rewrite Heq, Hs in Hfresh. discriminate.
Qed.

(** ** The guard is released when the copy settles *)

Lemma NoDup_delete_lookup {A} (l : list A) i x :
  NoDup l -> l !! i = Some x -> x ∉ delete i l.
Proof.
  intros Hnd Hi.
  rewrite <- (take_drop_middle l i x Hi) in Hnd.
  rewrite delete_take_drop.
  apply NoDup_app in Hnd as (_ & Hdisj & Hnd2).
  apply NoDup_cons in Hnd2 as [Hx _].
  intros Hin. apply elem_of_app in Hin as [Hin|Hin]; [|done].
  apply (Hdisj x Hin). apply list_elem_of_here.
Qed.

(** X4. When the copy in flight for a record settles, with a clone or
    with an error, the record can be copied again: the next [copy] on it
    is not dropped, it becomes the one running instance for the record. *)
Theorem copy_after_settle_starts env fuel i c deep options sys :
  reachable env sys ->
  in_flight sys !! i = Some c ->
  copy (call_this c) deep options (settle env fuel i sys).1
  = (System (sys_state (settle env fuel i sys).1)
            (delete i (in_flight sys) ++ [Call (call_this c) deep options]),
     Running).
Proof.
  intros Hr Hi.
  pose proof (reachable_NoDup env sys Hr) as Hnd.
  unfold settle. rewrite Hi. simpl.
  unfold copy, perform. simpl.
  assert (call_this c ∉ call_this <$> delete i (in_flight sys)) as Hnot.
  { rewrite list_fmap_delete. apply NoDup_delete_lookup; [done|].
    by rewrite list_lookup_fmap, Hi. }
  destruct (existsb _ (delete i (in_flight sys))) eqn:E; [|reflexivity].
  apply existsb_this in E. done.
Qed.

(** ** Every object a session creates is a registered clone *)

Lemma keeps_wf_refl h0 st0 s : keeps_wf h0 st0 s s.
Proof. by intros H. Qed.

Lemma keeps_wf_trans h0 st0 s1 s2 s3 :
  keeps_wf h0 st0 s1 s2 -> keeps_wf h0 st0 s2 s3 -> keeps_wf h0 st0 s1 s3.
Proof. intros H1 H2 H. auto. Qed.

(** A step that allocates nothing and leaves the memo and the store
    alone keeps the session well formed. *)
Lemma keeps_wf_same h0 st0 s s' :
  (forall g, is_Some (heap s' !! g) <-> is_Some (heap s !! g)) ->
  copies (_meta s') = copies (_meta s) ->
  store s' = store s ->
  keeps_wf h0 st0 s s'.
Proof.
  intros Hd Hc Hs [D N I C S]. split; rewrite ?Hc, ?Hs; auto.
  - intros g Hg. apply Hd. auto.
  - intros k c Hk. destruct (N k c Hk) as [? ?]. split; [done|]. by apply Hd.
  - intros g Hg. apply C. by apply Hd.
Qed.

Lemma insert_existing_dom (h : gmap guid object) g o o' g' :
  h !! g = Some o -> is_Some (<[g := o']> h !! g') <-> is_Some (h !! g').
Proof.
  intros Hg. destruct (decide (g = g')) as [<-|Hne].
  - rewrite lookup_insert_eq, Hg. split; eauto.
  - by rewrite lookup_insert_ne.
Qed.

Lemma getTransform_wf env h0 st0 type : pres (keeps_wf h0 st0) (getTransform env type).
Proof.
  intros s. unfold getTransform.
  destruct (transforms (_meta s) !! type); [apply keeps_wf_refl|].
  destruct (lookup_transform env type); [|apply keeps_wf_refl].
  by apply keeps_wf_same.
Qed.

Lemma link_members_wf env h0 st0 this model k name :
  pres (keeps_wf h0 st0) (link_members env this model k name).
Proof.
  intros s. unfold link_members.
  destruct (heap s !! this) as [src|]; [|apply keeps_wf_refl].
  destruct (heap s !! model) as [tgt|] eqn:Ht; [|apply keeps_wf_refl].
  destruct (obj_shape src); [|apply keeps_wf_refl].
  destruct (obj_shape tgt); [|apply keeps_wf_refl].
  destruct (link_error env this model k name); [apply keeps_wf_refl|].
  apply keeps_wf_same; simpl; auto.
  intros g. by eapply insert_existing_dom.
Qed.

Lemma setProperties_wf h0 st0 model attrs :
  pres (keeps_wf h0 st0) (setProperties model attrs).
Proof.
  intros s. unfold setProperties.
  destruct (heap s !! model) as [o|] eqn:Ho; [|apply keeps_wf_refl].
  destruct (refuses o attrs); [apply keeps_wf_refl|].
  apply keeps_wf_same; simpl; auto.
  intros g. by eapply insert_existing_dom.
Qed.

Lemma populate_wf env h0 st0 rec this self model deep options :
  (forall g d o, pres (keeps_wf h0 st0) (rec g d o)) ->
  pres (keeps_wf h0 st0) (populate env rec this self model deep options).
Proof.
  intros Hrec.
  pose proof (keeps_wf_refl h0 st0) as Hr.
  pose proof (keeps_wf_trans h0 st0) as Ht.
  unfold populate.
  apply pres_bind; [exact Ht| |].
  { apply pres_foldM; [exact Hr|exact Ht|]. intros a x.
    apply pres_copyAttribute; [exact Hr|exact Ht|].
    intros type. apply getTransform_wf. }
  intros dAttrs. apply pres_bind; [exact Ht| |].
  { apply pres_foldM; [exact Hr|exact Ht|]. intros a x.
    apply pres_copyRelationship; [exact Hr|exact Ht|exact Hrec|].
    apply link_members_wf. }
  intros rAttrs. apply pres_bind; [exact Ht|by apply pres_read_properties|].
  intros other. apply pres_bind; [exact Ht|apply setProperties_wf|].
  intros _. by apply pres_ret.
Qed.

(** Allocation and registration together: the new object is the clone
    recorded for [this]. *)
Lemma allocate_register_wf h0 st0 self options this s :
  copies (_meta s) !! this = None ->
  match allocate self options s with
  | (s1, Ok model) => keeps_wf h0 st0 s (register this model s1).1
  | (s1, _) => keeps_wf h0 st0 s s1
  end.
Proof.
  intros Hnone.
  assert (forall o st,
            keeps_wf h0 st0 s
              (register this (fresh (dom (heap s)))
                 (set_store st (set_heap (<[fresh (dom (heap s)) := o]> (heap s)) s))).1
            \/ ~ st ⊆ {[fresh (dom (heap s))]} ∪ store s) as Hgen.
  { intros o st. destruct (decide (st ⊆ {[fresh (dom (heap s))]} ∪ store s)) as [Hst|];
      [left|by right].
    pose proof (fresh_guid (heap s)) as Hfresh.
    set (model := fresh (dom (heap s))) in *.
    intros [D N I C S]. split; simpl.
    - intros g Hg. rewrite lookup_insert_ne; [by apply D|].
      intros <-. apply D in Hg. rewrite Hfresh in Hg. by destruct Hg.
    - intros k c Hk. destruct (decide (this = k)) as [<-|Hne].
      + rewrite lookup_insert_eq in Hk. inversion Hk; subst c.
        split; [|rewrite lookup_insert_eq; eauto].
        destruct (h0 !! model) eqn:E; [|done].
        assert (is_Some (heap s !! model)) as [? Hm] by (apply D; eauto).
        congruence.
      + rewrite lookup_insert_ne in Hk by done.
        destruct (N k c Hk) as [Hn [oc Hc]]. split; [done|].
        rewrite lookup_insert_ne; [eauto|]. intros <-. congruence.
    - intros k1 k2 c H1 H2.
      destruct (decide (this = k1)) as [<-|Hne1];
        destruct (decide (this = k2)) as [<-|Hne2]; [done| | |].
      + rewrite lookup_insert_eq in H1. inversion H1; subst c.
        rewrite lookup_insert_ne in H2 by done.
        destruct (N k2 model H2) as [_ [? Hm]]. congruence.
      + rewrite lookup_insert_eq in H2. inversion H2; subst c.
        rewrite lookup_insert_ne in H1 by done.
        destruct (N k1 model H1) as [_ [? Hm]]. congruence.
      + rewrite lookup_insert_ne in H1, H2 by done. eauto.
    - intros g Hg. destruct (decide (model = g)) as [<-|Hne].
      + right. exists this. apply lookup_insert_eq.
      + rewrite lookup_insert_ne in Hg by done.
        destruct (C g Hg) as [?|[k Hk]]; [by left|right].
        exists k. rewrite lookup_insert_ne; [done|]. intros <-. congruence.
    - intros g Hg. apply Hst in Hg. apply elem_of_union in Hg as [Hg|Hg].
      + apply elem_of_singleton in Hg. subst g. right. exists this.
        apply lookup_insert_eq.
      + destruct (S g Hg) as [?|[k Hk]]; [by left|right].
        exists k. rewrite lookup_insert_ne; [done|]. intros <-. congruence. }
  unfold allocate, createRecord, createPlain.
  destruct (m_createAsModel options).
  - edestruct Hgen as [H|H]; [exact H|]. exfalso. apply H. set_solver.
  - edestruct Hgen as [H|H]; [exact H|]. exfalso. apply H. simpl. set_solver.
Qed.

Lemma copy_body_wf env h0 st0 rec this deep _options :
  (forall g d o, pres (keeps_wf h0 st0) (rec g d o)) ->
  pres (keeps_wf h0 st0) (copy_body env rec this deep _options).
Proof.
  intros Hrec s. unfold copy_body. unfold bind at 1. simpl.
  set (s0 := {| heap := heap s; store := store s; _meta := _meta s;
                performed := performed s ++ [this] |}).
  assert (keeps_wf h0 st0 s s0) as Hl by (by apply keeps_wf_same).
  destruct (heap s !! this) as [self|]; [|exact Hl].
  destruct (copies (_meta s) !! this) as [c|] eqn:Hc; [exact Hl|].
  eapply keeps_wf_trans; [exact Hl|].
  unfold bind. unfold copy_fresh. unfold bind at 1.
  pose proof (allocate_register_wf h0 st0 self
                (assign_options (copyableOptions self) _options) this s0 Hc) as Ha.
  destruct (allocate self _ s0) as [s1 [model| |]]; try exact Ha.
  rewrite bind_register.
  pose proof (populate_wf env h0 st0 rec this self model deep
                (assign_options (copyableOptions self) _options) Hrec
                (register this model s1).1) as Hp.
  destruct (populate env rec this self model deep _ _) as [s3 [cd| |]];
    simpl in *; by eapply keeps_wf_trans.
Qed.

Lemma COPY_TASK_wf env h0 st0 fuel this deep _options :
  pres (keeps_wf h0 st0) (COPY_TASK env fuel this deep _options).
Proof.
  revert this deep _options. induction fuel as [|fuel IH]; intros this deep o.
  - intros s. apply keeps_wf_refl.
  - simpl. apply copy_body_wf. exact IH.
Qed.

(** Where the session of a top-level copy stands when the copy task
    returns. *)
Lemma session_of_copy_wf env fuel this deep _options s :
  session_wf (heap s) (store s)
    (COPY_TASK env fuel this deep _options (set_meta new_meta s)).1.
Proof.
  apply COPY_TASK_wf. split; simpl; auto.
  - intros k c Hk. by rewrite lookup_empty in Hk.
  - intros k1 k2 c Hk. by rewrite lookup_empty in Hk.
Qed.

Lemma runner_session env fuel this deep _options s :
  _meta (COPY_TASK_RUNNER env fuel this deep _options s).1
  = _meta (COPY_TASK env fuel this deep _options (set_meta new_meta s)).1 /\
  heap (COPY_TASK_RUNNER env fuel this deep _options s).1
  = heap (COPY_TASK env fuel this deep _options (set_meta new_meta s)).1.
Proof.
  unfold COPY_TASK_RUNNER.
  destruct (COPY_TASK env fuel this deep _options (set_meta new_meta s))
    as [s1 [m|e|]]; simpl; auto.
  destruct (rollback_outcome e s1) as (s2 & e' & -> & Hh & Hm & _). auto.
Qed.

(** X5. In the session of a top-level copy, whatever its outcome, no two
    source records share a clone, and every clone is an object that did
    not exist when the copy started. *)
Theorem clones_are_distinct_new_objects env fuel this deep _options s k1 k2 c :
  copies (_meta (COPY_TASK_RUNNER env fuel this deep _options s).1) !! k1 = Some c ->
  copies (_meta (COPY_TASK_RUNNER env fuel this deep _options s).1) !! k2 = Some c ->
  k1 = k2 /\ heap s !! c = None.
Proof.
  destruct (runner_session env fuel this deep _options s) as [-> _].
  pose proof (session_of_copy_wf env fuel this deep _options s) as Hwf.
  intros H1 H2. split.
  - by eapply (wf_inj _ _ _ Hwf).
  - by destruct (wf_new _ _ _ Hwf k1 c H1).
Qed.

(** X6. Every object that a top-level copy creates, whatever its outcome,
    is registered in the session's [copies] as the clone of some record:
    nothing is created on the side. *)
Theorem created_objects_are_registered env fuel this deep _options s g :
  is_Some (heap (COPY_TASK_RUNNER env fuel this deep _options s).1 !! g) ->
  heap s !! g = None ->
  exists k, copies (_meta (COPY_TASK_RUNNER env fuel this deep _options s).1) !! k
            = Some g.
Proof.
  destruct (runner_session env fuel this deep _options s) as [-> ->].
  pose proof (session_of_copy_wf env fuel this deep _options s) as Hwf.
  intros Hg Hnone. destruct (wf_created _ _ _ Hwf g Hg) as [[o Ho]|Hk]; [|done].
  congruence.
Qed.

(** X7. A top-level copy that fails, in a session whose clones are all
    records of the store, leaves the store holding exactly the records it
    held before the copy: every record the copy had created is unloaded,
    and nothing else is. *)
Theorem failed_copy_restores_store env fuel this deep _options s s' e :
  (forall g, g ∈ store s -> is_Some (heap s !! g)) ->
  COPY_TASK_RUNNER env fuel this deep _options s = (s', Throw e) ->
  (forall k c, copies (_meta s') !! k = Some c -> store_record c s' = true) ->
  store s' = store s.
Proof.
  intros Hstore Hrun Hrecords.
  pose proof (session_of_copy_wf env fuel this deep _options s) as Hwf.
  pose proof (runner_session env fuel this deep _options s) as [Hm Hh].
  rewrite Hrun in Hm, Hh. simpl in Hm, Hh.
  unfold COPY_TASK_RUNNER in Hrun.
  destruct (COPY_TASK env fuel this deep _options (set_meta new_meta s))
    as [s1 [m|e1|]] eqn:E; [discriminate| |discriminate].
  simpl in Hwf, Hm, Hh.
  destruct (unload_copies_Ok s1 (session_keys_listed _ _ _ _ _ _ _ _ E))
    as (s2 & Hroll & Hst & _).
  { intros k c Hc. unfold store_record. rewrite <- Hh. apply (Hrecords k).
    by rewrite Hm. }
  unfold bind in Hrun. rewrite Hroll in Hrun. inversion Hrun; subst s2 e.
  apply COPY_TASK_run_step in E. simpl in E.
  apply set_eq. intros g. rewrite Hst. split.
  - intros [Hg Hnot].
    destruct (wf_store _ _ _ Hwf g Hg) as [?|[k Hk]]; [done|].
    exfalso. apply Hnot. eauto.
  - intros Hg. split; [by apply (ss_store _ _ _ E)|].
    intros (k & Hk).
    destruct (wf_new _ _ _ Hwf k g Hk) as [Hnew _].
    destruct (Hstore g Hg) as [o Ho]. congruence.
Qed.

(** ** The target of the copy *)

Lemma keeps_class_refl model s : keeps_class model s s.
Proof. intros o Ho. eauto. Qed.

Lemma keeps_class_trans model s1 s2 s3 :
  keeps_class model s1 s2 -> keeps_class model s2 s3 -> keeps_class model s1 s3.
Proof.
  intros H1 H2 o Ho. destruct (H1 o Ho) as (o1 & Ho1 & Hs1 & Hn1).
  destruct (H2 o1 Ho1) as (o2 & Ho2 & Hs2 & Hn2).
  exists o2. split; [done|]. split; congruence.
Qed.

Lemma link_members_class env this model model' k name :
  pres (keeps_class model') (link_members env this model k name).
Proof.
  intros s. unfold link_members.
  destruct (heap s !! this) as [src|]; [|apply keeps_class_refl].
  destruct (heap s !! model) as [tgt|] eqn:Ht; [|apply keeps_class_refl].
  destruct (obj_shape src); [|apply keeps_class_refl].
  destruct (obj_shape tgt) eqn:Hshape; [|apply keeps_class_refl].
  destruct (link_error env this model k name); [apply keeps_class_refl|].
  intros o Ho. simpl in *. destruct (decide (model = model')) as [<-|Hne].
  - rewrite Ht in Ho. inversion Ho; subst o.
    eexists. rewrite lookup_insert_eq. split; [reflexivity|]. by simpl.
  - exists o. by rewrite lookup_insert_ne.
Qed.

Lemma populate_class env fuel this self model deep options :
  pres (keeps_class model)
       (populate env (COPY_TASK env fuel) this self model deep options).
Proof.
  pose proof (keeps_class_refl model) as Hr.
  pose proof (keeps_class_trans model) as Ht.
  unfold populate.
  apply pres_bind; [exact Ht| |].
  { apply pres_foldM; [exact Hr|exact Ht|]. intros a x.
    apply pres_copyAttribute; [exact Hr|exact Ht|].
    intros type s. unfold getTransform.
    destruct (transforms (_meta s) !! type); [apply Hr|].
    destruct (lookup_transform env type); [|apply Hr].
    intros o Ho. exists o. auto. }
  intros dAttrs. apply pres_bind; [exact Ht| |].
  { apply pres_foldM; [exact Hr|exact Ht|]. intros a x.
    apply pres_copyRelationship; [exact Hr|exact Ht| |].
    - intros g d o s ob Hob. exists ob. split; [|done].
      by apply (ss_heap _ _ _ (COPY_TASK_step env fuel g d o s) model ob (fun F => F)).
    - apply link_members_class. }
  intros rAttrs. apply pres_bind; [exact Ht|by apply pres_read_properties|].
  intros other. apply pres_bind; [exact Ht| |intros; by apply pres_ret].
  intros s. unfold setProperties.
  destruct (heap s !! model) as [o|] eqn:Ho; [|apply Hr].
  destruct (refuses o _); [apply Hr|].
  intros o' Ho'. rewrite Ho in Ho'. inversion Ho'; subst o'. simpl.
  eexists. rewrite lookup_insert_eq. split; [reflexivity|]. by simpl.
Qed.

Lemma allocate_class self options s s1 model :
  allocate self options s = (s1, Ok model) ->
  exists o, heap s1 !! model = Some o /\
    if m_createAsModel options
    then obj_shape o = Model /\ modelName o = modelName self /\ model ∈ store s1
    else obj_shape o = Plain (m_objectDefinition options).
Proof.
  unfold allocate, createRecord, createPlain.
  destruct (m_createAsModel options); intros H; inversion H; subst; simpl;
    eexists; rewrite lookup_insert_eq; (split; [reflexivity|]); simpl; auto.
  repeat split. set_solver.
Qed.

(** X8. What a top-level copy returns is decided by [createAsModel]: when
    the option is set, the clone is a record of the store, of the model
    class of the source, and it is loaded in the store when the copy
    returns; when it is not, the clone is a plain object made from
    [objectDefinition] (or a bare object).  A copy that succeeds unloads
    nothing. *)
Theorem clone_is_what_createAsModel_asks env fuel this deep _options s s' model self :
  heap s !! this = Some self ->
  COPY_TASK_RUNNER env fuel this deep _options s = (s', Ok model) ->
  store s ⊆ store s' /\
  exists clone,
    heap s' !! model = Some clone /\
    if m_createAsModel (assign_options (copyableOptions self) _options)
    then obj_shape clone = Model /\ modelName clone = modelName self /\
         model ∈ store s'
    else obj_shape clone
         = Plain (m_objectDefinition (assign_options (copyableOptions self) _options)).
Proof.
  intros Hself Hrun.
  pose proof (runner_run_step _ _ _ _ _ _ _ _ Hrun) as [_ Hstore].
  split; [by eapply Hstore|].
  apply runner_Ok in Hrun as (fuel' & self' & cd & -> & Hs & Hf & <-).
  rewrite Hself in Hs. inversion Hs; subst self'.
  apply copy_fresh_Ok in Hf as (s1 & s2 & Halloc & Hreg & Hpop).
  apply allocate_class in Halloc as (o & Ho & Hclass).
  assert (heap s2 = heap s1 /\ store s2 = store s1) as [Hh2 Hst2]
    by (unfold register in Hreg; by inversion Hreg).
  pose proof (populate_class env fuel' this self (c_model cd) deep
                (assign_options (copyableOptions self) _options) s2) as Hk.
  pose proof (populate_run_step _ _ _ _ _ _ _ _ _ _
                (fun g d o' => COPY_TASK_step env fuel' g d o') Hpop) as Hstep.
  rewrite Hpop in Hk. simpl in Hk.
  destruct (Hk o) as (clone & Hclone & Hshape & Hname); [by rewrite Hh2|].
  exists clone. split; [exact Hclone|].
  destruct (m_createAsModel _).
  - destruct Hclass as (Hs1 & Hn1 & Hin). repeat split; try congruence.
    apply (ss_store _ _ _ Hstep). by rewrite Hst2.
  - congruence.
Qed.

(** One turn of the relationship loop of a shallow copy into a plain
    object: the object has no relationship API, so the turn writes
    nothing and stores the overwrite or the value read. *)
Lemma copyRelationship_plain_target env rec this model options rAttrs r s tgt d :
  heap s !! model = Some tgt -> obj_shape tgt = Plain d ->
  copyRelationship env rec this model false options rAttrs r s
  = (s, Ok (if isUndefined (prop (m_overwrite options) r.1)
            then <[r.1 := read this r.1 s]> rAttrs
            else <[r.1 := prop (m_overwrite options) r.1]> rAttrs)).
Proof.
  intros Ht Hshape. unfold copyRelationship.
  destruct (isUndefined _); simpl; [|reflexivity].
  unfold try_catch, bind, link_members. rewrite Ht, Hshape.
  destruct (heap s !! this) as [src|]; [|reflexivity].
  by destruct (obj_shape src).
Qed.

(** X9. A shallow copy with [createAsModel] off gives the clone every
    relationship of the source by value: for each relationship that is
    not ignored and is not a key of [overwrite], the clone's property
    holds the value read from the source. *)
Theorem plain_shallow_copy_assigns_relationships env fuel this _options s s' model self
    name k :
  heap s !! this = Some self ->
  m_createAsModel (assign_options (copyableOptions self) _options) = false ->
  COPY_TASK_RUNNER env fuel this false _options s = (s', Ok model) ->
  (name, k) ∈ relationship_defs self ->
  name ∉ m_ignoreAttributes (assign_options (copyableOptions self) _options) ->
  m_overwrite (assign_options (copyableOptions self) _options) !! name = None ->
  exists clone, heap s' !! model = Some clone /\
                fields clone !! name = Some (prop (fields self) name).
Proof.
  intros Hself Hplain Hrun Hin Hign Hov.
  apply runner_Ok in Hrun as (fuel' & self' & cd & -> & Hs & Hf & <-).
  rewrite Hself in Hs. inversion Hs; subst self'.
  set (options := assign_options (copyableOptions self) _options) in *.
  pose proof Hf as Hfields. apply copy_fresh_fields in Hfields as (clone & Hclone & Hfields).
  exists clone. split; [exact Hclone|]. apply Hfields.
  apply copy_fresh_Ok in Hf as (s1 & s2 & Halloc & Hreg & Hpop).
  pose proof Halloc as Hfresh. apply allocate_Ok in Hfresh as (Hfresh & o0 & Hh1 & _).
  simpl in Hfresh.
  apply allocate_class in Halloc as (o & Ho & Hclass). rewrite Hplain in Hclass.
  assert (o0 = o) as -> by (rewrite Hh1, lookup_insert_eq in Ho; by inversion Ho).
  assert (heap s2 = heap s1) as Hh2 by (unfold register in Hreg; by inversion Hreg).
  apply populate_Ok in Hpop
    as (dA & rA & ot & s3 & s4 & o4 & HA & HR & _ & Hc & _).
  apply attribute_pass_same_objects in HA as [Hh3 _].
  assert (heap s3 !! this = Some self) as Hthis.
  { rewrite Hh3, Hh2, Hh1. rewrite lookup_insert_ne; [done|].
    intros Heq. rewrite Heq, Hself in Hfresh. discriminate. }
  assert (heap s3 !! c_model cd = Some o) as Hmodel by (by rewrite Hh3, Hh2).
  assert (rA !! name = Some (prop (fields self) name)) as HrA.
  { pose (Inv := fun (done : list (string * kind)) (a : gmap string value) (st : state) =>
        st = s3 /\
        forall x, x ∈ done -> m_overwrite options !! x.1 = None ->
                  a !! x.1 = Some (prop (fields self) x.1)).
    assert (Inv ([] ++ collect_relationships self options) rA s4) as [_ Hdone].
    { revert HR. apply (foldM_inv_done _ Inv).
      - intros done x a st a' st' _ [-> Hd] Hstep.
        rewrite (copyRelationship_plain_target _ _ _ _ _ _ _ _ o _ Hmodel Hclass)
          in Hstep.
        injection Hstep as <- <-. split; [reflexivity|].
        intros y Hy Hn.
        assert (read this x.1 s3 = prop (fields self) x.1) as Hread
          by (unfold read; by rewrite Hthis).
        destruct (decide (x.1 = y.1)) as [Heq|Hne].
        + rewrite <- Heq in *. unfold prop at 1. rewrite Hn. simpl.
          rewrite lookup_insert_eq. congruence.
        + assert (a !! y.1 = Some (prop (fields self) y.1)) as Hold.
          { apply elem_of_app in Hy as [Hy|Hy]; [by apply Hd|].
            apply list_elem_of_singleton in Hy. by subst y. }
          destruct (isUndefined _); by rewrite lookup_insert_ne.
      - split; [reflexivity|]. intros x Hx. by apply elem_of_nil in Hx. }
    apply (Hdone (name, k)); [|done].
    apply in_collect_relationships. auto. }
  rewrite Hc. simpl. unfold assign.
  rewrite lookup_union_r by done. by apply lookup_union_Some_l.
Qed.

(** ** The passes of a copy *)

(** What a perform that misses the memo and returns a clone went through,
    in whatever state of a session it started. *)
Lemma fresh_copy_Ok env fuel this deep _options s s' model self :
  heap s !! this = Some self ->
  copies (_meta s) !! this = None ->
  COPY_TASK env fuel this deep _options s = (s', Ok model) ->
  let options := assign_options (copyableOptions self) _options in
  exists fuel' o s2 s3 s4 dAttrs rAttrs clone o4,
    fuel = S fuel' /\ this ≠ model /\ heap s !! model = None /\
    heap s2 = <[model := o]> (heap s) /\ fields o = ∅ /\ members o = ∅ /\
    _meta s2 = Meta (<[this := model]> (copies (_meta s))) (transforms (_meta s))
                    (copy_keys (_meta s) ++ [this]) /\
    foldM (copyAttribute env this deep options) ∅ (attributes self) s2
      = (s3, Ok dAttrs) /\
    foldM (copyRelationship env (COPY_TASK env fuel') this model deep options) ∅
          (collect_relationships self options) s3 = (s4, Ok rAttrs) /\
    heap s4 !! this = Some self /\
    heap s4 !! model = Some o4 /\
    heap s' !! model = Some clone /\
    _meta s' = _meta s4 /\
    members clone = members o4 /\
    fields clone
    = assign (fields o4)
        (assign (assign (assign (getProperties self (m_otherAttributes options)) dAttrs)
                        rAttrs) (m_overwrite options)).
Proof.
  intros Hself Hnone Hrun options.
  apply COPY_TASK_Ok in Hrun
    as (fuel' & self' & -> & Hs & [[Hc _]|[_ (cd & Hf & <-)]]); [congruence|].
  rewrite Hself in Hs. inversion Hs; subst self'. fold options in Hf.
  apply copy_fresh_Ok in Hf as (s1 & s2 & Halloc & Hreg & Hpop).
  apply allocate_Ok in Halloc as (Hfresh & o & Hh1 & Hf1 & Hm1 & Hmeta1 & _).
  simpl in Hfresh, Hh1, Hmeta1.
  assert (this ≠ c_model cd) as Hne.
  { intros Heq. rewrite <- Heq, Hself in Hfresh. discriminate. }
  assert (heap s2 = heap s1 /\
          _meta s2 = Meta (<[this := c_model cd]> (copies (_meta s)))
                          (transforms (_meta s)) (copy_keys (_meta s) ++ [this]))
    as [Hh2 Hmeta2].
  { unfold register in Hreg. rewrite Hmeta1, Hnone in Hreg. by inversion Hreg. }
  pose proof Hpop as Hpop'.
  apply populate_Ok in Hpop
    as (dA & rA & ot & s3 & s4 & o4 & HA & HR & Hot & Hc & Ho4 & Hh' & Hm' & _).
  pose proof (attribute_pass_same_objects _ _ _ _ _ _ _ _ _ HA) as [Hh3 _].
  assert (heap s3 !! this = Some self) as Hthis3.
  { rewrite Hh3, Hh2, Hh1. by rewrite lookup_insert_ne. }
  assert (heap s4 !! this = Some self) as Hthis4.
  { assert (pres (session_step (fun g => g = c_model cd))
              (foldM (copyRelationship env (COPY_TASK env fuel') this (c_model cd) deep
                        options) ∅ (collect_relationships self options))) as Hp.
    { apply pres_foldM; [apply session_step_refl|apply session_step_trans|].
      intros a x. apply pres_copyRelationship;
        [apply session_step_refl|apply session_step_trans| |apply link_members_step].
      intros g d o' st. eapply session_step_weaken; [|apply COPY_TASK_step].
      intros ? []. }
    specialize (Hp s3). rewrite HR in Hp.
    apply (ss_heap _ _ _ Hp this self Hne Hthis3). }
  exists fuel', o, s2, s3, s4, dA, rA.
  eexists. exists o4.
  split; [reflexivity|]. split; [exact Hne|]. split; [exact Hfresh|].
  split; [by rewrite Hh2|]. split; [exact Hf1|]. split; [exact Hm1|].
  split; [exact Hmeta2|].
  split; [exact HA|]. split; [exact HR|]. split; [exact Hthis4|].
  split; [exact Ho4|]. split; [rewrite Hh'; apply lookup_insert_eq|].
  split; [exact Hm'|]. split; [reflexivity|]. simpl.
  rewrite Hc. simpl. unfold read_properties in Hot. rewrite Hthis4 in Hot.
  by inversion Hot.
Qed.

(** What a top-level copy that returns a clone went through. *)
Lemma root_copy_Ok env fuel this deep _options s s' model self :
  heap s !! this = Some self ->
  COPY_TASK_RUNNER env fuel this deep _options s = (s', Ok model) ->
  let options := assign_options (copyableOptions self) _options in
  exists fuel' o s2 s3 s4 dAttrs rAttrs clone o4,
    fuel = S fuel' /\ this ≠ model /\ heap s !! model = None /\
    heap s2 = <[model := o]> (heap s) /\ fields o = ∅ /\ members o = ∅ /\
    _meta s2 = Meta {[this := model]} ∅ [this] /\
    foldM (copyAttribute env this deep options) ∅ (attributes self) s2
      = (s3, Ok dAttrs) /\
    foldM (copyRelationship env (COPY_TASK env fuel') this model deep options) ∅
          (collect_relationships self options) s3 = (s4, Ok rAttrs) /\
    heap s4 !! this = Some self /\
    heap s4 !! model = Some o4 /\
    heap s' !! model = Some clone /\
    _meta s' = _meta s4 /\
    members clone = members o4 /\
    fields clone
    = assign (fields o4)
        (assign (assign (assign (getProperties self (m_otherAttributes options)) dAttrs)
                        rAttrs) (m_overwrite options)).
Proof.
  intros Hself Hrun options.
  assert (COPY_TASK env fuel this deep _options (set_meta new_meta s) = (s', Ok model))
    as Htask.
  { unfold COPY_TASK_RUNNER in Hrun.
    destruct (COPY_TASK env fuel this deep _options (set_meta new_meta s))
      as [s1 [c|e|]]; [by inversion Hrun| |discriminate].
    destruct (rollback_outcome e s1) as (s2 & e' & Hroll & _). congruence. }
  destruct (fresh_copy_Ok env fuel this deep _options (set_meta new_meta s) s' model self
              Hself (lookup_empty _) Htask)
    as (fuel' & o & s2 & s3 & s4 & dA & rA & clone & o4 & H).
  exists fuel', o, s2, s3, s4, dA, rA, clone, o4.
  simpl in H. by rewrite insert_empty in H.
Qed.

Lemma merged_lookup (other dAttrs rAttrs overwrite old : gmap string value) name :
  overwrite !! name = None ->
  assign old (assign (assign (assign other dAttrs) rAttrs) overwrite) !! name
  = match rAttrs !! name with
    | Some v => Some v
    | None =>
        match dAttrs !! name with
        | Some v => Some v
        | None => match other !! name with Some v => Some v | None => old !! name end
        end
    end.
Proof.
  intros Hov. unfold assign.
  destruct (rAttrs !! name) as [v|] eqn:Hr.
  { apply lookup_union_Some_l. rewrite lookup_union_r by done.
    by apply lookup_union_Some_l. }
  destruct (dAttrs !! name) as [v|] eqn:Hd.
  { apply lookup_union_Some_l. rewrite !lookup_union_r by done.
    by apply lookup_union_Some_l. }
  destruct (other !! name) as [v|] eqn:Ho.
  { apply lookup_union_Some_l. by rewrite !lookup_union_r by done. }
  rewrite lookup_union_r; [done|]. by rewrite !lookup_union_r by done.
Qed.

Lemma attribute_pass_other_keys env this deep options l name :
  (forall x, x ∈ l -> x.1 = name ->
             includes name (m_ignoreAttributes options) = true) ->
  forall a s s' dAttrs,
    foldM (copyAttribute env this deep options) a l s = (s', Ok dAttrs) ->
    dAttrs !! name = a !! name.
Proof.
  intros Hl a s s' dAttrs H.
  revert H. apply (foldM_inv _ (fun a' _ => a' !! name = a !! name)); [|done].
  intros a0 x st a' st' Hx Ha Hstep.
  apply copyAttribute_keys in Hstep as [Hi Ho].
  destruct (decide (name = x.1)) as [Heq|Hne].
  - rewrite Hi; [done|]. rewrite <- Heq. apply (Hl x); [done|by symmetry].
  - by rewrite Ho.
Qed.

Lemma relationship_pass_other_keys env rec this model deep options l name :
  (forall x, x ∈ l -> x.1 ≠ name) ->
  forall a s s' rAttrs,
    foldM (copyRelationship env rec this model deep options) a l s = (s', Ok rAttrs) ->
    rAttrs !! name = a !! name.
Proof.
  intros Hl a s s' rAttrs H.
  revert H. apply (foldM_inv _ (fun a' _ => a' !! name = a !! name)); [|done].
  intros a0 x st a' st' Hx Ha Hstep.
  erewrite copyRelationship_other_key; eauto.
  intros Heq. by apply (Hl x Hx).
Qed.

Lemma not_a_collected_relationship self options name :
  (forall k, (name, k) ∈ relationship_defs self ->
             name ∈ m_ignoreAttributes options) ->
  forall x, x ∈ collect_relationships self options -> x.1 ≠ name.
Proof.
  intros Hrel [n k] Hx Heq. simpl in Heq. subst n.
  apply in_collect_relationships in Hx as [Hin Hign]. by apply Hign, (Hrel k).
Qed.

Lemma getProperties_lookup_in o names name :
  name ∈ names -> getProperties o names !! name = Some (prop (fields o) name).
Proof.
  unfold getProperties. induction names as [|n names IH]; intros Hin.
  - by apply elem_of_nil in Hin.
  - simpl. destruct (decide (n = name)) as [->|Hne].
    + apply lookup_insert_eq.
    + rewrite lookup_insert_ne by done. apply IH.
      apply elem_of_cons in Hin as [?|?]; [congruence|done].
Qed.

(** X10. A property named in [otherAttributes] that the schema passes do
    not copy (it is no attribute or relationship of the schema, or it is
    ignored) and that [overwrite] does not mention is copied verbatim: the
    clone holds under that name what the source reads, even when that is
    [undefined]. *)
Theorem other_attribute_is_copied_verbatim env fuel this deep _options s s' model self name :
  heap s !! this = Some self ->
  COPY_TASK_RUNNER env fuel this deep _options s = (s', Ok model) ->
  name ∈ m_otherAttributes (assign_options (copyableOptions self) _options) ->
  (forall am, (name, am) ∈ attributes self ->
     name ∈ m_ignoreAttributes (assign_options (copyableOptions self) _options)) ->
  (forall k, (name, k) ∈ relationship_defs self ->
     name ∈ m_ignoreAttributes (assign_options (copyableOptions self) _options)) ->
  m_overwrite (assign_options (copyableOptions self) _options) !! name = None ->
  exists clone, heap s' !! model = Some clone /\
                fields clone !! name = Some (prop (fields self) name).
Proof.
  intros Hself Hrun Hother Hattr Hrel Hov.
  destruct (root_copy_Ok _ _ _ _ _ _ _ _ _ Hself Hrun)
    as (fuel' & o & s2 & s3 & s4 & dA & rA & clone & o4 & _ & _ & _ & _ & _ & _ & _ &
        HA & HR & _ & _ & Hclone & _ & _ & Hfields).
  exists clone. split; [exact Hclone|].
  assert (rA !! name = None) as HrA.
  { rewrite (relationship_pass_other_keys _ _ _ _ _ _ _ name
               (not_a_collected_relationship _ _ _ Hrel) _ _ _ _ HR).
    apply lookup_empty. }
  assert (dA !! name = None) as HdA.
  { rewrite (attribute_pass_other_keys _ _ _ _ _ name) with (2 := HA);
      [apply lookup_empty|].
    intros [n am] Hx Heq. simpl in Heq. subst n.
    unfold includes. apply bool_decide_eq_true. by apply (Hattr am). }
  rewrite Hfields, merged_lookup, HrA, HdA by done.
  by rewrite getProperties_lookup_in.
Qed.

(** ** What the attribute pass gives the clone *)

Lemma attribute_step_refl env s : attribute_step env s s.
Proof. by split. Qed.

Lemma attribute_step_trans env s1 s2 s3 :
  attribute_step env s1 s2 -> attribute_step env s2 s3 -> attribute_step env s1 s3.
Proof. intros [H1 C1] [H2 C2]. split; [congruence|auto]. Qed.

Lemma getTransform_attribute_step env type :
  pres (attribute_step env) (getTransform env type).
Proof.
  intros s. unfold getTransform.
  destruct (transforms (_meta s) !! type) eqn:Hc; [apply attribute_step_refl|].
  destruct (lookup_transform env type) as [tr|] eqn:Hl; [|apply attribute_step_refl].
  split; [reflexivity|]. intros Hok t tr'. simpl.
  destruct (decide (type = t)) as [<-|Hne].
  - rewrite lookup_insert_eq. congruence.
  - rewrite lookup_insert_ne by done. apply Hok.
Qed.

Lemma copyAttribute_attribute_step env this deep options a x s s' r :
  copyAttribute env this deep options a x s = (s', r) -> attribute_step env s s'.
Proof.
  intros H.
  pose proof (pres_copyAttribute _ (attribute_step_refl env) (attribute_step_trans env)
                env this deep options a x (getTransform_attribute_step env) s) as Hp.
  by rewrite H in Hp.
Qed.

(** The value that the attribute pass leaves under [name], when every
    turn for [name] leaves a value in [V]. *)
Lemma attribute_pass_value env this deep options l name (V : value -> Prop) s0 :
  (forall a x st a' st',
      x ∈ l -> x.1 = name -> heap st = heap s0 -> cache_ok env st ->
      copyAttribute env this deep options a x st = (st', Ok a') ->
      exists v, a' !! name = Some v /\ V v) ->
  (exists x, x ∈ l /\ x.1 = name) ->
  cache_ok env s0 ->
  forall s' dAttrs,
    foldM (copyAttribute env this deep options) ∅ l s0 = (s', Ok dAttrs) ->
    exists v, dAttrs !! name = Some v /\ V v.
Proof.
  intros Hown (x0 & Hx0 & Hn0) Hcache s' dAttrs H.
  pose (Inv := fun (done : list (string * attr_meta)) (a : gmap string value)
                   (st : state) =>
    heap st = heap s0 /\ cache_ok env st /\
    ((exists x, x ∈ done /\ x.1 = name) -> exists v, a !! name = Some v /\ V v)).
  assert (Inv ([] ++ l) dAttrs s') as (_ & _ & Hdone).
  { revert H. apply (foldM_inv_done _ Inv).
    - intros done x a st a' st' Hx (Hh & Hc & Hd) Hstep.
      pose proof (copyAttribute_attribute_step _ _ _ _ _ _ _ _ _ Hstep) as [Hh' Hc'].
      split; [congruence|]. split; [auto|].
      intros (y & Hy & Hyn). destruct (decide (x.1 = name)) as [Hxn|Hxn].
      + by eapply Hown.
      + apply copyAttribute_keys in Hstep as [_ Ho]. rewrite Ho by done.
        apply Hd. exists y. split; [|done].
        apply elem_of_app in Hy as [Hy|Hy]; [done|].
        apply list_elem_of_singleton in Hy. by subst y.
    - split; [done|]. split; [done|]. intros (x & Hx & _). by apply elem_of_nil in Hx. }
  apply Hdone. eauto.
Qed.

Lemma copyAttribute_unfold env this deep options dAttrs a s :
  includes a.1 (m_ignoreAttributes options) = false ->
  isUndefined (prop (m_overwrite options) a.1) = true ->
  copyAttribute env this deep options dAttrs a s
  = if cloned_by_value options a then
      (if Copyable_detect env (read this a.1 s) then
         value' <- value_copy env (read this a.1 s) deep ;;
         ret (<[a.1 := value']> dAttrs)
       else
         transform <- getTransform env (default "" (attr_type a.2)) ;;
         value' <- run_transform transform (read this a.1 s) (attr_options a.2) ;;
         ret (<[a.1 := value']> dAttrs)) s
    else (s, Ok (<[a.1 := read this a.1 s]> dAttrs)).
Proof.
  intros Hign Hov. unfold copyAttribute, cloned_by_value. rewrite Hign, Hov. simpl.
  by destruct (_ && _).
Qed.

(** The start of the attribute pass of a root copy, and where the value
    of the pass ends up. *)
Lemma root_attribute env fuel this deep _options s s' model self name (V : value -> Prop) :
  heap s !! this = Some self ->
  COPY_TASK_RUNNER env fuel this deep _options s = (s', Ok model) ->
  let options := assign_options (copyableOptions self) _options in
  (exists am, (name, am) ∈ attributes self) ->
  (forall k, (name, k) ∈ relationship_defs self -> name ∈ m_ignoreAttributes options) ->
  m_overwrite options !! name = None ->
  (forall a x st a' st',
      x ∈ attributes self -> x.1 = name ->
      read this name st = prop (fields self) name -> cache_ok env st ->
      copyAttribute env this deep options a x st = (st', Ok a') ->
      exists v, a' !! name = Some v /\ V v) ->
  exists clone v, heap s' !! model = Some clone /\ fields clone !! name = Some v /\ V v.
Proof.
  intros Hself Hrun options [am Ham] Hrel Hov Hown.
  destruct (root_copy_Ok _ _ _ _ _ _ _ _ _ Hself Hrun)
    as (fuel' & o & s2 & s3 & s4 & dA & rA & clone & o4 & _ & Hne & _ & Hh2 & _ & _ &
        Hmeta2 & HA & HR & _ & _ & Hclone & _ & _ & Hfields).
  fold options in HA, HR, Hfields.
  assert (exists v, dA !! name = Some v /\ V v) as (v & Hv & HV).
  { apply (attribute_pass_value env this deep options (attributes self) name V s2)
      with (s' := s3);
      [| |intros t tr; rewrite Hmeta2; simpl; by rewrite lookup_empty|exact HA].
    - intros a x st a' st' Hx Hxn Hh Hc Hstep.
      apply (Hown a x st a' st'); auto.
      unfold read. rewrite Hh, Hh2, lookup_insert_ne, Hself; done.
    - exists (name, am). auto. }
  assert (rA !! name = None) as HrA.
  { rewrite (relationship_pass_other_keys _ _ _ _ _ _ _ name
               (not_a_collected_relationship _ _ _ Hrel) _ _ _ _ HR).
    apply lookup_empty. }
  exists clone, v. split; [exact Hclone|]. split; [|exact HV].
  by rewrite Hfields, (merged_lookup _ _ _ _ _ _ Hov), HrA, Hv.
Qed.

(** X11. An attribute that is not cloned by value (it is untyped, of a
    primitive type, or named in [copyByReference]) and is neither ignored
    nor overwritten reads on the clone exactly what it reads on the
    source. *)
Theorem plain_attribute_is_copied_as_is env fuel this deep _options s s' model self name :
  heap s !! this = Some self ->
  COPY_TASK_RUNNER env fuel this deep _options s = (s', Ok model) ->
  (exists am, (name, am) ∈ attributes self) ->
  (forall am, (name, am) ∈ attributes self ->
     cloned_by_value (assign_options (copyableOptions self) _options) (name, am) = false) ->
  name ∉ m_ignoreAttributes (assign_options (copyableOptions self) _options) ->
  m_overwrite (assign_options (copyableOptions self) _options) !! name = None ->
  (forall k, (name, k) ∈ relationship_defs self ->
     name ∈ m_ignoreAttributes (assign_options (copyableOptions self) _options)) ->
  exists clone, heap s' !! model = Some clone /\
                fields clone !! name = Some (prop (fields self) name).
Proof.
  intros Hself Hrun Hex Hkind Hign Hov Hrel.
  destruct (root_attribute env fuel this deep _options s s' model self name
              (fun v => v = prop (fields self) name) Hself Hrun Hex Hrel Hov)
    as (clone & v & Hclone & Hv & ->); [|eauto].
  intros a [n am] st a' st' Hx Hn Hread _ Hstep. simpl in Hn. subst n.
  rewrite copyAttribute_unfold in Hstep.
  - rewrite (Hkind am Hx) in Hstep. injection Hstep as _ <-. simpl.
    rewrite lookup_insert_eq. eauto.
  - unfold includes. by apply bool_decide_eq_false.
  - simpl. unfold prop. by rewrite Hov.
Qed.

(** X12. An attribute that is cloned by value and whose value is no
    [Ember.Copyable] reads on the clone the value that the transform of
    its declared type gives back for the source value, serialized and
    then deserialized with the attribute's options; the transform is the
    one the container resolves for the type. *)
Theorem typed_attribute_goes_through_its_transform env fuel this deep _options s s'
    model self name am t :
  heap s !! this = Some self ->
  COPY_TASK_RUNNER env fuel this deep _options s = (s', Ok model) ->
  (name, am) ∈ attributes self ->
  (forall am', (name, am') ∈ attributes self -> am' = am) ->
  attr_type am = Some t ->
  cloned_by_value (assign_options (copyableOptions self) _options) (name, am) = true ->
  Copyable_detect env (prop (fields self) name) = false ->
  name ∉ m_ignoreAttributes (assign_options (copyableOptions self) _options) ->
  m_overwrite (assign_options (copyableOptions self) _options) !! name = None ->
  (forall k, (name, k) ∈ relationship_defs self ->
     name ∈ m_ignoreAttributes (assign_options (copyableOptions self) _options)) ->
  exists tr wire v clone,
    lookup_transform env t = Some tr /\
    serialize tr (prop (fields self) name) (attr_options am) = Return wire /\
    deserialize tr wire (attr_options am) = Return v /\
    heap s' !! model = Some clone /\ fields clone !! name = Some v.
Proof.
  intros Hself Hrun Hin Huniq Htype Hkind Hdetect Hign Hov Hrel.
  destruct (root_attribute env fuel this deep _options s s' model self name
              (fun v => exists tr wire,
                 lookup_transform env t = Some tr /\
                 serialize tr (prop (fields self) name) (attr_options am) = Return wire /\
                 deserialize tr wire (attr_options am) = Return v)
              Hself Hrun (ex_intro _ am Hin) Hrel Hov)
    as (clone & v & Hclone & Hv & tr & wire & Hl & Hs & Hd); [|eauto 10].
  intros a [n am'] st a' st' Hx Hn Hread Hcache Hstep. simpl in Hn. subst n.
  rewrite (Huniq am' Hx) in *. clear Hx.
  rewrite copyAttribute_unfold in Hstep.
  2:{ unfold includes. by apply bool_decide_eq_false. }
  2:{ simpl. unfold prop. by rewrite Hov. }
  rewrite Hkind in Hstep. simpl in Hstep. rewrite Hread, Hdetect, Htype in Hstep.
  simpl in Hstep. bind_inv Hstep. bind_inv Hstep. apply ret_Ok in Hstep as [-> ->].
  assert (a0 = lookup_transform env t) as ->.
  { unfold getTransform in Hstep0.
    destruct (transforms (_meta st) !! t) as [tr|] eqn:Ec.
    - inversion Hstep0; subst. symmetry. by apply Hcache.
    - destruct (lookup_transform env t); by inversion Hstep0. }
  destruct (lookup_transform env t) as [tr|]; [|discriminate].
  simpl in Hstep1. unfold bind, lift in Hstep1.
  destruct (serialize tr (prop (fields self) name) (attr_options am)) as [wire|] eqn:Es;
    [|discriminate].
  simpl in Hstep1.
  destruct (deserialize tr wire (attr_options am)) as [v|] eqn:Ed; [|discriminate].
  injection Hstep1 as _ <-. exists v. rewrite lookup_insert_eq. eauto 10.
Qed.

(** X13. An attribute that is cloned by value and whose value is an
    [Ember.Copyable] reads on the clone what the value's own [copy],
    called with the [deep] flag of the copy, returned; no transform is
    involved. *)
Theorem copyable_attribute_is_copied_by_itself env fuel this deep _options s s'
    model self name am detect copy_value :
  heap s !! this = Some self ->
  COPY_TASK_RUNNER env fuel this deep _options s = (s', Ok model) ->
  (name, am) ∈ attributes self ->
  (forall am', (name, am') ∈ attributes self -> am' = am) ->
  cloned_by_value (assign_options (copyableOptions self) _options) (name, am) = true ->
  Copyable env = Some (detect, copy_value) ->
  detect (prop (fields self) name) = true ->
  name ∉ m_ignoreAttributes (assign_options (copyableOptions self) _options) ->
  m_overwrite (assign_options (copyableOptions self) _options) !! name = None ->
  (forall k, (name, k) ∈ relationship_defs self ->
     name ∈ m_ignoreAttributes (assign_options (copyableOptions self) _options)) ->
  exists v clone,
    copy_value (prop (fields self) name) deep = Return v /\
    heap s' !! model = Some clone /\ fields clone !! name = Some v.
Proof.
  intros Hself Hrun Hin Huniq Hkind HC Hdetect Hign Hov Hrel.
  destruct (root_attribute env fuel this deep _options s s' model self name
              (fun v => copy_value (prop (fields self) name) deep = Return v)
              Hself Hrun (ex_intro _ am Hin) Hrel Hov)
    as (clone & v & Hclone & Hv & Hcopy); [|eauto 10].
  intros a [n am'] st a' st' Hx Hn Hread Hcache Hstep. simpl in Hn. subst n.
  rewrite (Huniq am' Hx) in *. clear Hx.
  rewrite copyAttribute_unfold in Hstep.
  2:{ unfold includes. by apply bool_decide_eq_false. }
  2:{ simpl. unfold prop. by rewrite Hov. }
  rewrite Hkind in Hstep. simpl in Hstep. rewrite Hread in Hstep.
  unfold Copyable_detect, value_copy in Hstep. rewrite HC, Hdetect in Hstep.
  bind_inv Hstep. apply ret_Ok in Hstep as [-> ->].
  destruct (copy_value (prop (fields self) name) deep) as [v|] eqn:Ec;
    [|discriminate].
  injection Hstep0 as _ <-. exists v. by rewrite lookup_insert_eq.
Qed.

(** ** What the relationship pass gives the clone *)

Lemma copyRelationship_run_step env fuel this model deep options a x s s' r :
  copyRelationship env (COPY_TASK env fuel) this model deep options a x s = (s', r) ->
  session_step (fun g => g = model) s s'.
Proof.
  intros H.
  assert (pres (session_step (fun g => g = model))
            (copyRelationship env (COPY_TASK env fuel) this model deep options a x)) as Hp.
  { apply pres_copyRelationship;
      [apply session_step_refl|apply session_step_trans| |apply link_members_step].
    intros g d o st. eapply session_step_weaken; [|apply COPY_TASK_step]. intros ? []. }
  specialize (Hp s). by rewrite H in Hp.
Qed.

Lemma copyRelationship_keeps_other env fuel this model deep options a x name s s' r :
  x.1 ≠ name ->
  copyRelationship env (COPY_TASK env fuel) this model deep options a x s = (s', r) ->
  keeps model name s s'.
Proof.
  intros Hne H.
  assert (pres (keeps model name)
            (copyRelationship env (COPY_TASK env fuel) this model deep options a x)) as Hp.
  { apply pres_copyRelationship; [apply keeps_refl|apply keeps_trans| |].
    - intros g d o st. apply keeps_frame, COPY_TASK_step.
    - by apply link_members_keeps. }
  specialize (Hp s). by rewrite H in Hp.
Qed.

Lemma sources_kept_step s0 this self model s s' :
  heap s0 !! model = None -> this ≠ model ->
  sources_kept s0 this self s ->
  session_step (fun g => g = model) s s' ->
  sources_kept s0 this self s'.
Proof.
  intros Hmodel Hne [Hthis Hsrc] Hstep. split.
  - by apply (ss_heap _ _ _ Hstep this self Hne).
  - intros g o Hg. apply (ss_heap _ _ _ Hstep g o); [|by apply Hsrc].
    intros ->. congruence.
Qed.

(** What the relationship pass leaves for [name]: [Q0] holds until the
    first turn for [name], and [Q] from that turn on. *)
Lemma relationship_pass_value env fuel this self model deep options l name
    (Q0 Q : option value -> state -> Prop) sinit s0 :
  heap sinit !! model = None -> this ≠ model ->
  (forall a x st a' st',
      x ∈ l -> x.1 = name -> sources_kept sinit this self st ->
      session_step (fun g => g = model) s0 st ->
      Q0 (a !! name) st \/ Q (a !! name) st ->
      copyRelationship env (COPY_TASK env fuel) this model deep options a x st
      = (st', Ok a') ->
      Q (a' !! name) st') ->
  (forall ov st st',
      session_step (fun g => g = model) st st' -> keeps model name st st' ->
      (Q0 ov st -> Q0 ov st') /\ (Q ov st -> Q ov st')) ->
  (exists x, x ∈ l /\ x.1 = name) ->
  sources_kept sinit this self s0 ->
  Q0 None s0 ->
  forall s' rAttrs,
    foldM (copyRelationship env (COPY_TASK env fuel) this model deep options) ∅ l s0
    = (s', Ok rAttrs) ->
    Q (rAttrs !! name) s'.
Proof.
  intros Hmodel Hne Hown Hstable (x0 & Hx0 & Hn0) HJ HQ0 s' rAttrs H.
  pose (Inv := fun (done : list (string * kind)) (a : gmap string value) (st : state) =>
    sources_kept sinit this self st /\
    session_step (fun g => g = model) s0 st /\
    (Exists (fun x => x.1 = name) done -> Q (a !! name) st) /\
    (~ Exists (fun x => x.1 = name) done -> Q0 (a !! name) st)).
  assert (Inv ([] ++ l) rAttrs s') as (_ & _ & Hdone & _).
  { revert H. apply (foldM_inv_done _ Inv).
    - intros done x a st a' st' Hx (Hk & Hs0 & HQ & HQ0') Hstep.
      pose proof (copyRelationship_run_step _ _ _ _ _ _ _ _ _ _ _ Hstep) as Hss.
      split; [by eapply sources_kept_step|].
      split; [by eapply session_step_trans|].
      destruct (decide (x.1 = name)) as [Hxn|Hxn].
      + split.
        * intros _. eapply (Hown a x st a' st'); eauto.
          destruct (decide (Exists (fun x => x.1 = name) done)); auto.
        * intros Hno. exfalso. apply Hno, Exists_app. right. by constructor.
      + pose proof (copyRelationship_keeps_other _ _ _ _ _ _ _ _ name _ _ _ Hxn Hstep)
          as Hkeep.
        rewrite (copyRelationship_other_key _ _ _ _ _ _ _ _ _ _ _ name Hstep)
          by (intros Heq; by apply Hxn).
        destruct (Hstable (a !! name) st st' Hss Hkeep) as [S0 S].
        split.
        * intros Hex. apply S, HQ. apply Exists_app in Hex as [Hex|Hex]; [done|].
          apply Exists_cons in Hex as [Hex|Hex]; [done|]. by apply Exists_nil in Hex.
        * intros Hno. apply S0, HQ0'. intros Hex. apply Hno, Exists_app. by left.
    - split; [done|]. split; [apply session_step_refl|].
      split; [intros Hex; by apply Exists_nil in Hex|].
      intros _. by rewrite lookup_empty. }
  apply Hdone. simpl. apply Exists_exists. eauto.
Qed.

(** The relationship pass of a root copy, and where its value for [name]
    ends up. *)
Lemma root_relationship env fuel this deep _options s s' model self name k
    (Q0 Q : guid -> option value -> state -> Prop) :
  heap s !! this = Some self ->
  COPY_TASK_RUNNER env fuel this deep _options s = (s', Ok model) ->
  let options := assign_options (copyableOptions self) _options in
  (name, k) ∈ relationship_defs self ->
  name ∉ m_ignoreAttributes options ->
  (forall fuel' s3 a x st a' st',
      x ∈ relationship_defs self -> x.1 = name ->
      sources_kept s this self st ->
      session_step (fun g => g = model) s3 st ->
      Q0 model (a !! name) st \/ Q model (a !! name) st ->
      copyRelationship env (COPY_TASK env fuel') this model deep options a x st
      = (st', Ok a') ->
      Q model (a' !! name) st') ->
  (forall ov st st',
      session_step (fun g => g = model) st st' -> keeps model name st st' ->
      (Q0 model ov st -> Q0 model ov st') /\ (Q model ov st -> Q model ov st')) ->
  (forall s3 o, heap s3 !! model = Some o -> members o = ∅ -> Q0 model None s3) ->
  exists clone o4 s4 (rAttrs : gmap string value),
    heap s' !! model = Some clone /\ _meta s' = _meta s4 /\
    heap s4 !! model = Some o4 /\ members clone = members o4 /\
    Q model (rAttrs !! name) s4 /\
    (m_overwrite options !! name = None ->
     forall v, rAttrs !! name = Some v -> fields clone !! name = Some v).
Proof.
  intros Hself Hrun options Hin Hign Hown Hstable Hstart.
  destruct (root_copy_Ok _ _ _ _ _ _ _ _ _ Hself Hrun)
    as (fuel' & o & s2 & s3 & s4 & dA & rA & clone & o4 & _ & Hne & Hfresh & Hh2 & _ &
        Hm & _ & HA & HR & _ & Ho4 & Hclone & Hmeta & Hmem & Hfields).
  fold options in HA, HR, Hfields.
  apply attribute_pass_same_objects in HA as [Hh3 _].
  assert (sources_kept s this self s3) as Hkept.
  { split; rewrite Hh3, Hh2.
    - by rewrite lookup_insert_ne.
    - intros g og Hg. rewrite lookup_insert_ne; [done|]. intros <-. congruence. }
  assert (Q model (rA !! name) s4) as HQ.
  { apply (relationship_pass_value env fuel' this self model deep options
             (collect_relationships self options) name (Q0 model) (Q model) s s3)
      with (s' := s4); auto.
    - intros a x st a' st' Hx. apply in_collect_relationships in Hx as [Hx _].
      by apply Hown.
    - exists (name, k). split; [|done]. by apply in_collect_relationships.
    - apply (Hstart s3 o); [|done]. rewrite Hh3, Hh2. apply lookup_insert_eq. }
  exists clone, o4, s4, rA. repeat (split; [done|]).
  intros Hov v Hv. by rewrite Hfields, (merged_lookup _ _ _ _ _ _ Hov), Hv.
Qed.

Lemma copyRelationship_deep_unfold env rec this model deep options a x s :
  isUndefined (prop (m_overwrite options) x.1) = true ->
  negb deep || includes x.1 (m_copyByReference options) = false ->
  copyRelationship env rec this model deep options a x s
  = (let relOptions := m_relationships options !! x.1 in
     let deepRel := resolve_deep relOptions deep in
     match x.2 with
     | belongsTo =>
         c <- and_IS_COPYABLE (read this x.1 s) ;;
         if c then
           match read this x.1 s with
           | VObject g =>
               copy <- rec g deepRel relOptions ;;
               ret (<[x.1 := VObject copy]> a)
           | _ => ret (<[x.1 := read this x.1 s]> a)
           end
         else ret (<[x.1 := read this x.1 s]> a)
     | hasMany =>
         firstObject <- get_firstObject (read this x.1 s) ;;
         c <- and_IS_COPYABLE firstObject ;;
         if c then
           copies <- mapM (perform_member rec deepRel relOptions)
                          (array_items (read this x.1 s)) ;;
           ret (<[x.1 := VArray (invoked copies)]> a)
         else ret (<[x.1 := read this x.1 s]> a)
     end) s.
Proof.
  intros Hov Hmode. unfold copyRelationship. rewrite Hov, Hmode. reflexivity.
Qed.

Lemma read_source s0 this self st name :
  sources_kept s0 this self st -> read this name st = prop (fields self) name.
Proof. intros [Hthis _]. unfold read. by rewrite Hthis. Qed.

Lemma exposes_copy_source s0 this self st g og :
  sources_kept s0 this self st -> heap s0 !! g = Some og ->
  exposes_copy (VObject g) st = IS_COPYABLE og.
Proof. intros [_ Hsrc] Hg. simpl. by rewrite (Hsrc g og Hg). Qed.

Lemma and_IS_COPYABLE_object g s :
  and_IS_COPYABLE (VObject g) s = (s, Ok (exposes_copy (VObject g) s)).
Proof. reflexivity. Qed.

(** X14. In a deep copy, a to-one relationship whose related record
    exposes the copy capability is, on the clone, the clone that the
    session records for that related record. *)
Theorem to_one_relationship_is_cloned env fuel this _options s s' model self name g og :
  heap s !! this = Some self ->
  COPY_TASK_RUNNER env fuel this true _options s = (s', Ok model) ->
  (name, belongsTo) ∈ relationship_defs self ->
  (forall k, (name, k) ∈ relationship_defs self -> k = belongsTo) ->
  name ∉ m_ignoreAttributes (assign_options (copyableOptions self) _options) ->
  name ∉ m_copyByReference (assign_options (copyableOptions self) _options) ->
  m_overwrite (assign_options (copyableOptions self) _options) !! name = None ->
  prop (fields self) name = VObject g ->
  heap s !! g = Some og -> IS_COPYABLE og = true ->
  exists clone c,
    heap s' !! model = Some clone /\
    fields clone !! name = Some (VObject c) /\
    copies (_meta s') !! g = Some c.
Proof.
  intros Hself Hrun Hin Hkind Hign Href Hov Hval Hg Hcopyable.
  destruct (root_relationship env fuel this true _options s s' model self name belongsTo
              (fun _ _ _ => True)
              (fun _ ov st => exists c, ov = Some (VObject c) /\
                                        copies (_meta st) !! g = Some c)
              Hself Hrun Hin Hign)
    as (clone & o4 & s4 & rA & Hclone & Hmeta & _ & _ & (c & HrA & Hc) & Hfields).
  - intros fuel' s3 a [n k] st a' st' Hx Hn Hkept _ _ Hstep. simpl in Hn. subst n.
    rewrite (Hkind k Hx) in Hstep.
    rewrite copyRelationship_deep_unfold in Hstep; simpl.
    2:{ unfold prop. by rewrite Hov. }
    2:{ unfold includes. by apply bool_decide_eq_false. }
    simpl in Hstep.
    rewrite (read_source _ _ _ _ _ Hkept), Hval in Hstep.
    unfold bind at 1 in Hstep.
    rewrite and_IS_COPYABLE_object, (exposes_copy_source _ _ _ _ _ _ Hkept Hg), Hcopyable
      in Hstep.
    bind_inv Hstep. apply ret_Ok in Hstep as [-> ->].
    exists a0. rewrite lookup_insert_eq. split; [done|].
    by eapply COPY_TASK_registers.
  - intros ov st st' Hstep _. split; [done|]. intros (c & -> & Hc).
    exists c. split; [done|].
    eapply lookup_weaken; [exact Hc|apply (ss_copies _ _ _ Hstep)].
  - done.
  - exists clone, c. split; [done|]. split; [by apply Hfields|]. by rewrite Hmeta.
Qed.

(** X15. In a deep copy, a to-one relationship that is empty, or whose
    related record does not expose the copy capability, is not cloned: the
    clone's property holds the very value read from the source. *)
Theorem to_one_relationship_is_kept env fuel this _options s s' model self name :
  heap s !! this = Some self ->
  COPY_TASK_RUNNER env fuel this true _options s = (s', Ok model) ->
  (name, belongsTo) ∈ relationship_defs self ->
  (forall k, (name, k) ∈ relationship_defs self -> k = belongsTo) ->
  name ∉ m_ignoreAttributes (assign_options (copyableOptions self) _options) ->
  name ∉ m_copyByReference (assign_options (copyableOptions self) _options) ->
  m_overwrite (assign_options (copyableOptions self) _options) !! name = None ->
  (truthy (prop (fields self) name) = false \/
   exists g og, prop (fields self) name = VObject g /\
                heap s !! g = Some og /\ IS_COPYABLE og = false) ->
  exists clone,
    heap s' !! model = Some clone /\
    fields clone !! name = Some (prop (fields self) name).
Proof.
  intros Hself Hrun Hin Hkind Hign Href Hov Hval.
  destruct (root_relationship env fuel this true _options s s' model self name belongsTo
              (fun _ _ _ => True)
              (fun _ ov _ => ov = Some (prop (fields self) name))
              Hself Hrun Hin Hign)
    as (clone & o4 & s4 & rA & Hclone & _ & _ & _ & HrA & Hfields).
  - intros fuel' s3 a [n k] st a' st' Hx Hn Hkept _ _ Hstep. simpl in Hn. subst n.
    rewrite (Hkind k Hx) in Hstep.
    rewrite copyRelationship_deep_unfold in Hstep; simpl.
    2:{ unfold prop. by rewrite Hov. }
    2:{ unfold includes. by apply bool_decide_eq_false. }
    simpl in Hstep. rewrite (read_source _ _ _ _ _ Hkept) in Hstep.
    assert (and_IS_COPYABLE (prop (fields self) name) st = (st, Ok false)) as Hno.
    { destruct Hval as [Hfalsy|(g & og & Hv & Hg & Hog)].
      - unfold and_IS_COPYABLE. by rewrite Hfalsy.
      - by rewrite Hv, and_IS_COPYABLE_object,
          (exposes_copy_source _ _ _ _ _ _ Hkept Hg), Hog. }
    unfold bind in Hstep. rewrite Hno in Hstep. apply ret_Ok in Hstep as [-> ->].
    apply lookup_insert_eq.
  - intros ov st st' _ _. by split.
  - done.
  - exists clone. split; [done|]. by apply Hfields.
Qed.

Lemma clones_in_order_step items cs s s' :
  copies (_meta s) ⊆ copies (_meta s') ->
  clones_in_order items cs s -> clones_in_order items cs s'.
Proof.
  intros Hsub H. eapply Forall2_impl; [exact H|].
  intros item c (g & c' & -> & -> & Hc).
  exists g, c'. repeat split. by eapply lookup_weaken.
Qed.

(** X16. In a deep copy, a to-many relationship whose collection is not
    empty and whose members all expose the copy capability is, on the
    clone, a collection of the same length that holds, position by
    position, the clone that the session records for the member of the
    source collection at that position. *)
Theorem to_many_relationship_is_cloned_in_order env fuel this _options s s' model self
    name items :
  heap s !! this = Some self ->
  COPY_TASK_RUNNER env fuel this true _options s = (s', Ok model) ->
  (name, hasMany) ∈ relationship_defs self ->
  (forall k, (name, k) ∈ relationship_defs self -> k = hasMany) ->
  name ∉ m_ignoreAttributes (assign_options (copyableOptions self) _options) ->
  name ∉ m_copyByReference (assign_options (copyableOptions self) _options) ->
  m_overwrite (assign_options (copyableOptions self) _options) !! name = None ->
  prop (fields self) name = VArray items ->
  items ≠ [] ->
  Forall (fun item => exists g og, item = VObject g /\ heap s !! g = Some og /\
                                   IS_COPYABLE og = true) items ->
  exists clone cs,
    heap s' !! model = Some clone /\
    fields clone !! name = Some (VArray cs) /\
    clones_in_order items cs s'.
Proof.
  intros Hself Hrun Hin Hkind Hign Href Hov Hval Hnonempty Hall.
  destruct (root_relationship env fuel this true _options s s' model self name hasMany
              (fun _ _ _ => True)
              (fun _ ov st => exists cs, ov = Some (VArray cs) /\
                                         clones_in_order items cs st)
              Hself Hrun Hin Hign)
    as (clone & o4 & s4 & rA & Hclone & Hmeta & _ & _ & (cs & HrA & Hcs) & Hfields).
  - intros fuel' s3 a [n k] st a' st' Hx Hn Hkept _ _ Hstep. simpl in Hn. subst n.
    rewrite (Hkind k Hx) in Hstep.
    rewrite copyRelationship_deep_unfold in Hstep; simpl.
    2:{ unfold prop. by rewrite Hov. }
    2:{ unfold includes. by apply bool_decide_eq_false. }
    simpl in Hstep. rewrite (read_source _ _ _ _ _ Hkept), Hval in Hstep.
    assert (forall item, item ∈ items ->
              exists g, item = VObject g /\ exposes_copy (VObject g) st = true)
      as Hexposed.
    { intros item Hitem. rewrite Forall_forall in Hall.
      destruct (Hall item Hitem) as (g & og & -> & Hg & Hog). exists g.
      split; [done|]. by rewrite (exposes_copy_source _ _ _ _ _ _ Hkept Hg). }
    destruct items as [|first rest]; [done|].
    destruct (Hexposed first) as (g1 & -> & He1); [apply list_elem_of_here|].
    unfold bind at 1 in Hstep. simpl get_firstObject in Hstep. unfold ret at 1 in Hstep.
    unfold bind at 1 in Hstep. rewrite and_IS_COPYABLE_object, He1 in Hstep.
    simpl array_items in Hstep.
    bind_inv Hstep. apply ret_Ok in Hstep as [-> ->].
    apply mapM_members_performed in Hstep0.
    pose proof (members_performed_length _ _ _ _ _ _ _ Hstep0) as Hlen.
    apply members_performed_in_order in Hstep0 as [_ Horder].
    assert (Forall is_Some a0) as Hset.
    { apply Forall_lookup. intros i r Hr.
      destruct (lookup_lt_is_Some_2 (VObject g1 :: rest) i) as [item Hi];
        [rewrite <- Hlen; by eapply lookup_lt_Some|].
      destruct (Hexposed item) as (g & -> & He); [by eapply list_elem_of_lookup_2|].
      destruct (Horder i g Hi He) as (c' & Hc' & _). rewrite Hr in Hc'.
      inversion Hc'. eauto. }
    exists (invoked a0). rewrite lookup_insert_eq. split; [done|].
    rewrite (invoked_all_set a0 Hset).
    apply Forall2_same_length_lookup. split; [by rewrite length_fmap|].
    intros i item c Hi Hc.
    destruct (Hexposed item) as (g & -> & He); [by eapply list_elem_of_lookup_2|].
    destruct (Horder i g Hi He) as (c' & Hc' & Hcopies).
    rewrite list_lookup_fmap, Hc' in Hc. inversion Hc; subst c. eauto 10.
  - intros ov st st' Hstep _. split; [done|]. intros (cs & -> & Hcs).
    exists cs. split; [done|].
    eapply clones_in_order_step; [apply (ss_copies _ _ _ Hstep)|done].
  - done.
  - exists clone, cs. split; [done|]. split; [by apply Hfields|].
    unfold clones_in_order. by rewrite Hmeta.
Qed.

(** One turn of the relationship loop in reference-link mode: the members
    of the source are linked into the clone, or (the link having raised)
    the value read from the source is stored. *)
Lemma copyRelationship_reference env rec this model deep options rAttrs r s s' r' :
  isUndefined (prop (m_overwrite options) r.1) = true ->
  negb deep || includes r.1 (m_copyByReference options) = true ->
  copyRelationship env rec this model deep options rAttrs r s = (s', Ok r') ->
  (s' = s /\ r' = <[r.1 := read this r.1 s]> rAttrs) \/
  (exists src tgt,
      heap s !! this = Some src /\ heap s !! model = Some tgt /\
      heap s' = <[model := set_members
                    (<[r.1 := addRecords (default [] (members tgt !! r.1))
                                         (default [] (members src !! r.1))]>
                       (members tgt)) tgt]> (heap s) /\
      r' = rAttrs).
Proof.
  intros Hov Hmode. unfold copyRelationship. rewrite Hov, Hmode. simpl.
  unfold try_catch, bind, link_members.
  destruct (heap s !! this) as [src|];
    [|intros H; inversion H; subst; left; auto].
  destruct (heap s !! model) as [tgt|];
    [|intros H; inversion H; subst; left; auto].
  destruct (obj_shape src); [|intros H; inversion H; subst; left; auto].
  destruct (obj_shape tgt); [|intros H; inversion H; subst; left; auto].
  destruct (link_error env this model r.2 r.1);
    intros H; inversion H; subst; [left; auto|].
  right. exists src, tgt. simpl. auto 10.
Qed.

(** X17. A relationship named in [copyByReference] that is neither
    ignored nor a key of [overwrite] is not cloned, in a deep copy as in
    a shallow one: on the clone it is tied to the related records of the
    source, through the members linked into it or through the value read
    from the source. *)
Theorem referenced_relationship_is_tied env fuel this deep _options s s' model self name k :
  heap s !! this = Some self ->
  COPY_TASK_RUNNER env fuel this deep _options s = (s', Ok model) ->
  (name, k) ∈ relationship_defs self ->
  name ∉ m_ignoreAttributes (assign_options (copyableOptions self) _options) ->
  name ∈ m_copyByReference (assign_options (copyableOptions self) _options) ->
  m_overwrite (assign_options (copyableOptions self) _options) !! name = None ->
  exists clone, heap s' !! model = Some clone /\ tied self clone name.
Proof.
  intros Hself Hrun Hin Hign Href Hov.
  assert (negb deep
          || includes name
               (m_copyByReference (assign_options (copyableOptions self) _options))
          = true) as Hmode.
  { apply orb_true_iff. right. unfold includes. by apply bool_decide_eq_true. }
  destruct (root_relationship env fuel this deep _options s s' model self name k
              (fun model ov st =>
                 ov = None /\
                 exists om, heap st !! model = Some om /\ members om !! name = None)
              (fun model ov st =>
                 exists om, heap st !! model = Some om /\
                   (forall g, g ∈ default [] (members om !! name) ->
                              g ∈ default [] (members self !! name)) /\
                   ((forall g, g ∈ default [] (members self !! name) ->
                               g ∈ default [] (members om !! name)) \/
                    ov = Some (prop (fields self) name)))
              Hself Hrun Hin Hign)
    as (clone & o4 & s4 & rA & Hclone & _ & Ho4 & Hmem & (om & Hom & Hsub & Htied) &
        Hfields).
  - intros fuel' s3 a [n k'] st a' st' Hx Hn Hkept _ Hbefore Hstep.
    simpl in Hn. subst n.
    assert (exists om, heap st !! model = Some om /\
              (forall g, g ∈ default [] (members om !! name) ->
                         g ∈ default [] (members self !! name)) /\
              (a !! name = None \/
               (forall g, g ∈ default [] (members self !! name) ->
                          g ∈ default [] (members om !! name)) \/
               a !! name = Some (prop (fields self) name)))
      as (om & Hom & Hsub & Hprev).
    { destruct Hbefore as [(Ha & om & Hom & Hnone)|(om & Hom & Hsub & Hq)].
      - exists om. split; [done|]. split; [|by left].
        intros g. rewrite Hnone. simpl. by intros ?%elem_of_nil.
      - exists om. split; [done|]. split; [done|]. by right. }
    apply copyRelationship_reference in Hstep
      as [[-> ->]|(src & tgt & Hsrc & Htgt & Hh & ->)]; simpl.
    + exists om. split; [done|]. split; [done|]. right.
      rewrite lookup_insert_eq. by rewrite (read_source _ _ _ _ _ Hkept).
    + destruct Hkept as [Hthis _]. rewrite Hthis in Hsrc. rewrite Hom in Htgt.
      inversion Hsrc; subst src. inversion Htgt; subst tgt.
      eexists. split; [rewrite Hh; apply lookup_insert_eq|]. simpl.
      rewrite lookup_insert_eq. simpl. split.
      * intros g Hg. apply elem_of_addRecords in Hg as [Hg|Hg]; auto.
      * left. intros g Hg. apply elem_of_addRecords. by right.
    + simpl. unfold prop. by rewrite Hov.
    + exact Hmode.
  - intros ov st st' _ Hkeep. split.
    + intros (-> & om & Hom & Hnone). split; [done|].
      destruct (Hkeep om Hom) as (om' & Hom' & _ & Hm). exists om'.
      split; [done|]. congruence.
    + intros (om & Hom & Hsub & Hq).
      destruct (Hkeep om Hom) as (om' & Hom' & _ & Hm). exists om'.
      split; [done|]. rewrite Hm. auto.
  - intros s3 o Ho Hm. split; [done|]. exists o. split; [done|].
    by rewrite Hm, lookup_empty.
  - rewrite Ho4 in Hom. inversion Hom; subst om.
    exists clone. split; [done|]. unfold tied. rewrite Hmem.
    destruct Htied as [Hsup|HrA].
    + left. intros g. split; auto.
    + right. by apply Hfields.
Qed.

(** ** Every visit of a record returns its recorded clone *)

(** The relationship pass of a perform that misses the memo, in whatever
    state of a session it started, and where its value for [name] ends
    up. *)
Lemma fresh_relationship env fuel this deep _options s s' model self name k
    (Q0 Q : guid -> option value -> state -> Prop) :
  heap s !! this = Some self ->
  copies (_meta s) !! this = None ->
  COPY_TASK env fuel this deep _options s = (s', Ok model) ->
  let options := assign_options (copyableOptions self) _options in
  (name, k) ∈ relationship_defs self ->
  name ∉ m_ignoreAttributes options ->
  (forall fuel' s3 a x st a' st',
      x ∈ relationship_defs self -> x.1 = name ->
      sources_kept s this self st ->
      session_step (fun g => g = model) s3 st ->
      Q0 model (a !! name) st \/ Q model (a !! name) st ->
      copyRelationship env (COPY_TASK env fuel') this model deep options a x st
      = (st', Ok a') ->
      Q model (a' !! name) st') ->
  (forall ov st st',
      session_step (fun g => g = model) st st' -> keeps model name st st' ->
      (Q0 model ov st -> Q0 model ov st') /\ (Q model ov st -> Q model ov st')) ->
  (forall s3 o, heap s3 !! model = Some o -> members o = ∅ -> Q0 model None s3) ->
  exists clone o4 s4 (rAttrs : gmap string value),
    heap s' !! model = Some clone /\ _meta s' = _meta s4 /\
    heap s4 !! model = Some o4 /\ members clone = members o4 /\
    Q model (rAttrs !! name) s4 /\
    (m_overwrite options !! name = None ->
     forall v, rAttrs !! name = Some v -> fields clone !! name = Some v).
Proof.
  intros Hself Hnone Hrun options Hin Hign Hown Hstable Hstart.
  destruct (fresh_copy_Ok _ _ _ _ _ _ _ _ _ Hself Hnone Hrun)
    as (fuel' & o & s2 & s3 & s4 & dA & rA & clone & o4 & _ & Hne & Hfresh & Hh2 & _ &
        Hm & _ & HA & HR & _ & Ho4 & Hclone & Hmeta & Hmem & Hfields).
  fold options in HA, HR, Hfields.
  apply attribute_pass_same_objects in HA as [Hh3 _].
  assert (sources_kept s this self s3) as Hkept.
  { split; rewrite Hh3, Hh2.
    - by rewrite lookup_insert_ne.
    - intros g og Hg. rewrite lookup_insert_ne; [done|]. intros <-. congruence. }
  assert (Q model (rA !! name) s4) as HQ.
  { apply (relationship_pass_value env fuel' this self model deep options
             (collect_relationships self options) name (Q0 model) (Q model) s s3)
      with (s' := s4); auto.
    - intros a x st a' st' Hx. apply in_collect_relationships in Hx as [Hx _].
      by apply Hown.
    - exists (name, k). split; [|done]. by apply in_collect_relationships.
    - apply (Hstart s3 o); [|done]. rewrite Hh3, Hh2. apply lookup_insert_eq. }
  exists clone, o4, s4, rA. repeat (split; [done|]).
  intros Hov v Hv. by rewrite Hfields, (merged_lookup _ _ _ _ _ _ Hov), Hv.
Qed.

(** One turn of a deep relationship pass on a to-one relationship whose
    related record exposes the copy capability: the record is performed
    and the turn stores the clone that the session records for it. *)
Lemma to_one_turn_clones env fuel s0 this self model options a name st a' st' g og :
  sources_kept s0 this self st ->
  m_overwrite options !! name = None ->
  name ∉ m_copyByReference options ->
  prop (fields self) name = VObject g ->
  heap s0 !! g = Some og -> IS_COPYABLE og = true ->
  copyRelationship env (COPY_TASK env fuel) this model true options a (name, belongsTo) st
  = (st', Ok a') ->
  exists c, a' !! name = Some (VObject c) /\ copies (_meta st') !! g = Some c.
Proof.
  intros Hkept Hov Href Hval Hg Hcopyable Hstep.
  rewrite copyRelationship_deep_unfold in Hstep; simpl.
  2:{ unfold prop. by rewrite Hov. }
  2:{ unfold includes. by apply bool_decide_eq_false. }
  simpl in Hstep.
  rewrite (read_source _ _ _ _ _ Hkept), Hval in Hstep.
  unfold bind at 1 in Hstep.
  rewrite and_IS_COPYABLE_object, (exposes_copy_source _ _ _ _ _ _ Hkept Hg), Hcopyable
    in Hstep.
  bind_inv Hstep. apply ret_Ok in Hstep as [-> ->].
  exists a0. rewrite lookup_insert_eq. split; [done|].
  by eapply COPY_TASK_registers.
Qed.

(** One turn of a deep relationship pass on a to-many relationship whose
    members all expose the copy capability: every member is performed and
    the turn stores, in the order of the collection, the clones that the
    session records for them. *)
Lemma to_many_turn_clones env fuel s0 this self model options a name st a' st' items :
  sources_kept s0 this self st ->
  m_overwrite options !! name = None ->
  name ∉ m_copyByReference options ->
  prop (fields self) name = VArray items ->
  items ≠ [] ->
  Forall (fun item => exists g og, item = VObject g /\ heap s0 !! g = Some og /\
                                   IS_COPYABLE og = true) items ->
  copyRelationship env (COPY_TASK env fuel) this model true options a (name, hasMany) st
  = (st', Ok a') ->
  exists cs, a' !! name = Some (VArray cs) /\ clones_in_order items cs st'.
Proof.
  intros Hkept Hov Href Hval Hnonempty Hall Hstep.
  rewrite copyRelationship_deep_unfold in Hstep; simpl.
  2:{ unfold prop. by rewrite Hov. }
  2:{ unfold includes. by apply bool_decide_eq_false. }
  simpl in Hstep. rewrite (read_source _ _ _ _ _ Hkept), Hval in Hstep.
  assert (forall item, item ∈ items ->
            exists g, item = VObject g /\ exposes_copy (VObject g) st = true)
    as Hexposed.
  { intros item Hitem. rewrite Forall_forall in Hall.
    destruct (Hall item Hitem) as (g & og & -> & Hg & Hog). exists g.
    split; [done|]. by rewrite (exposes_copy_source _ _ _ _ _ _ Hkept Hg). }
  destruct items as [|first rest]; [done|].
  destruct (Hexposed first) as (g1 & -> & He1); [apply list_elem_of_here|].
  unfold bind at 1 in Hstep. simpl get_firstObject in Hstep. unfold ret at 1 in Hstep.
  unfold bind at 1 in Hstep. rewrite and_IS_COPYABLE_object, He1 in Hstep.
  simpl array_items in Hstep.
  bind_inv Hstep. apply ret_Ok in Hstep as [-> ->].
  apply mapM_members_performed in Hstep0.
  pose proof (members_performed_length _ _ _ _ _ _ _ Hstep0) as Hlen.
  apply members_performed_in_order in Hstep0 as [_ Horder].
  assert (Forall is_Some a0) as Hset.
  { apply Forall_lookup. intros i r Hr.
    destruct (lookup_lt_is_Some_2 (VObject g1 :: rest) i) as [item Hi];
      [rewrite <- Hlen; by eapply lookup_lt_Some|].
    destruct (Hexposed item) as (g & -> & He); [by eapply list_elem_of_lookup_2|].
    destruct (Horder i g Hi He) as (c' & Hc' & _). rewrite Hr in Hc'.
    inversion Hc'. eauto. }
  exists (invoked a0). rewrite lookup_insert_eq. split; [done|].
  rewrite (invoked_all_set a0 Hset).
  apply Forall2_same_length_lookup. split; [by rewrite length_fmap|].
  intros i item c Hi Hc.
  destruct (Hexposed item) as (g & -> & He); [by eapply list_elem_of_lookup_2|].
  destruct (Horder i g Hi He) as (c' & Hc' & Hcopies).
  rewrite list_lookup_fmap, Hc' in Hc. inversion Hc; subst c. eauto 10.
Qed.

(** C1. Every perform of the copy task, on the root or nested, and
    whatever the session has already recorded, returns the clone that
    [copies] records for its record, and no perform changes the clone of
    a record that has one, be that record copied or still being copied.
    A perform on a record that has a clone returns that clone and
    creates and writes nothing.  A perform that makes a clone in deep
    mode gives it, for a to-one relationship to a record that exposes the
    copy capability, the clone recorded for that record, and for a
    to-many relationship to such records their recorded clones in the
    order of the collection: two references to one record, from anywhere
    in the graph, end in one clone, and a reference back to a record that
    is being copied ends in the clone of that record.  And the perform
    does return: on a record graph, in any state of a session, a budget
    above the number of records that have no clone yet is not exhausted,
    because a record is registered before its passes perform anything. *)
Theorem revisit_returns_recorded_clone env fuel this deep _options s :
  (forall s' c,
     COPY_TASK env fuel this deep _options s = (s', Ok c) ->
     copies (_meta s') !! this = Some c /\
     (forall g c0, copies (_meta s) !! g = Some c0 -> copies (_meta s') !! g = Some c0) /\
     (forall c0, copies (_meta s) !! this = Some c0 -> c = c0 /\ s' = logged this s) /\
     (forall self name,
        heap s !! this = Some self ->
        copies (_meta s) !! this = None ->
        deep = true ->
        name ∉ m_ignoreAttributes (assign_options (copyableOptions self) _options) ->
        name ∉ m_copyByReference (assign_options (copyableOptions self) _options) ->
        m_overwrite (assign_options (copyableOptions self) _options) !! name = None ->
        (forall g og,
           (name, belongsTo) ∈ relationship_defs self ->
           (forall k, (name, k) ∈ relationship_defs self -> k = belongsTo) ->
           prop (fields self) name = VObject g ->
           heap s !! g = Some og -> IS_COPYABLE og = true ->
           exists clone cg,
             heap s' !! c = Some clone /\
             fields clone !! name = Some (VObject cg) /\
             copies (_meta s') !! g = Some cg) /\
        (forall items,
           (name, hasMany) ∈ relationship_defs self ->
           (forall k, (name, k) ∈ relationship_defs self -> k = hasMany) ->
           prop (fields self) name = VArray items ->
           items ≠ [] ->
           Forall (fun item => exists g og, item = VObject g /\ heap s !! g = Some og /\
                                            IS_COPYABLE og = true) items ->
           exists clone cs,
             heap s' !! c = Some clone /\
             fields clone !! name = Some (VArray cs) /\
             clones_in_order items cs s'))) /\
  (forall h0,
     closed h0 -> this ∈ dom h0 -> good h0 fuel s ->
     (COPY_TASK env fuel this deep _options s).2 ≠ OutOfFuel).
Proof.
  split.
  2:{ intros h0 Hclosed Hthis Hgood.
      exact (COPY_TASK_safe env h0 Hclosed fuel this deep _options Hthis s Hgood). }
  intros s' c Hrun.
  pose proof (COPY_TASK_run_step _ _ _ _ _ _ _ _ Hrun) as Hsession.
  split; [by eapply COPY_TASK_registers|].
  split.
  { intros g c0 Hc0. eapply lookup_weaken; [exact Hc0|apply (ss_copies _ _ _ Hsession)]. }
  split.
  { intros c0 Hc0.
    apply COPY_TASK_Ok in Hrun as (fuel' & self & _ & _ & [[Hc ->]|[Hc _]]);
      [|congruence].
    split; [congruence|reflexivity]. }
  intros self name Hself Hnone -> Hign Href Hov. split.
  - intros g og Hin Hkind Hval Hg Hcopyable.
    destruct (fresh_relationship env fuel this true _options s s' c self name belongsTo
                (fun _ _ _ => True)
                (fun _ ov st => exists cg, ov = Some (VObject cg) /\
                                           copies (_meta st) !! g = Some cg)
                Hself Hnone Hrun Hin Hign)
      as (clone & o4 & s4 & rA & Hclone & Hmeta & _ & _ & (cg & HrA & Hcg) & Hfields).
    + intros fuel' s3 a [n k] st a' st' Hx Hn Hkept _ _ Hstep. simpl in Hn. subst n.
      rewrite (Hkind k Hx) in Hstep. by eapply to_one_turn_clones.
    + intros ov st st' Hstep _. split; [done|]. intros (cg & -> & Hcg).
      exists cg. split; [done|].
      eapply lookup_weaken; [exact Hcg|apply (ss_copies _ _ _ Hstep)].
    + done.
    + exists clone, cg. split; [done|]. split; [by apply Hfields|]. by rewrite Hmeta.
  - intros items Hin Hkind Hval Hnonempty Hall.
    destruct (fresh_relationship env fuel this true _options s s' c self name hasMany
                (fun _ _ _ => True)
                (fun _ ov st => exists cs, ov = Some (VArray cs) /\
                                           clones_in_order items cs st)
                Hself Hnone Hrun Hin Hign)
      as (clone & o4 & s4 & rA & Hclone & Hmeta & _ & _ & (cs & HrA & Hcs) & Hfields).
    + intros fuel' s3 a [n k] st a' st' Hx Hn Hkept _ _ Hstep. simpl in Hn. subst n.
      rewrite (Hkind k Hx) in Hstep. by eapply to_many_turn_clones.
    + intros ov st st' Hstep _. split; [done|]. intros (cs & -> & Hcs).
      exists cs. split; [done|].
      eapply clones_in_order_step; [apply (ss_copies _ _ _ Hstep)|done].
    + done.
    + exists clone, cs. split; [done|]. split; [by apply Hfields|].
      unfold clones_in_order. by rewrite Hmeta.
Qed.

Lemma revisit_returns_recorded_clone_witness :
  COPY_TASK env0 2 2%positive true None pair_in_progress
    = (pair_second_copied, Ok 4%positive) /\
  copies (_meta pair_in_progress) !! 1%positive = Some 3%positive /\
  copies (_meta pair_in_progress) !! 2%positive = None /\
  copies (_meta pair_second_copied) !! 2%positive = Some 4%positive /\
  (forall g c0, copies (_meta pair_in_progress) !! g = Some c0 ->
                copies (_meta pair_second_copied) !! g = Some c0) /\
  (exists clone cg,
     heap pair_second_copied !! 4%positive = Some clone /\
     fields clone !! "next" = Some (VObject cg) /\
     copies (_meta pair_second_copied) !! 1%positive = Some cg) /\
  closed pair /\ 2%positive ∈ dom pair /\ good pair 2 pair_in_progress /\
  (COPY_TASK env0 2 2%positive true None pair_in_progress).2 ≠ OutOfFuel.
Proof.
  assert (COPY_TASK env0 2 2%positive true None pair_in_progress
          = (pair_second_copied, Ok 4%positive)) as H1 by (vm_compute; reflexivity).
  assert (copies (_meta pair_in_progress) !! 1%positive = Some 3%positive) as H2
    by (vm_compute; reflexivity).
  assert (copies (_meta pair_in_progress) !! 2%positive = None) as H3
    by (vm_compute; reflexivity).
  assert (heap pair_in_progress !! 2%positive = Some node_2) as H4
    by (vm_compute; reflexivity).
  assert (heap pair_in_progress !! 1%positive = Some node_1) as H5
    by (vm_compute; reflexivity).
  assert (("next", belongsTo) ∈ relationship_defs node_2) as H6
    by apply list_elem_of_here.
  assert (forall k, ("next", k) ∈ relationship_defs node_2 -> k = belongsTo) as H7.
  { intros k H. apply list_elem_of_singleton in H. injection H as ->. reflexivity. }
  assert ("next" ∉ m_ignoreAttributes (assign_options (copyableOptions node_2) None))
    as H8 by apply not_elem_of_nil.
  assert ("next" ∉ m_copyByReference (assign_options (copyableOptions node_2) None))
    as H9 by apply not_elem_of_nil.
  assert (closed pair) as H10.
  { unfold closed. eapply (bool_decide_unpack _). vm_compute. exact I. }
  assert (2%positive ∈ dom pair) as H11.
  { apply elem_of_dom. exists node_2. vm_compute. reflexivity. }
  assert (good pair 2 pair_in_progress) as H12.
  { split.
    - intros g o Hg. unfold pair in Hg. simpl in Hg.
      destruct (decide (g = 1%positive)) as [->|Hg1].
      { rewrite lookup_insert_eq in Hg. injection Hg as <-. exact H5. }
      rewrite lookup_insert_ne in Hg; [|congruence].
      destruct (decide (g = 2%positive)) as [->|Hg2].
      { rewrite lookup_insert_eq in Hg. injection Hg as <-. exact H4. }
      rewrite lookup_insert_ne in Hg; [|congruence].
      rewrite lookup_empty in Hg. discriminate Hg.
    - vm_compute. lia. }
  pose proof (revisit_returns_recorded_clone env0 2 2%positive true None pair_in_progress)
    as [Hvisit Hreturns].
  destruct (Hvisit pair_second_copied 4%positive H1) as (Hreturned & Hkept & _ & Hnested).
  split; [exact H1|]. split; [exact H2|]. split; [exact H3|].
  split; [exact Hreturned|]. split; [exact Hkept|].
  split.
  { exact (proj1 (Hnested node_2 "next" H4 H3 eq_refl H8 H9 eq_refl)
             1%positive node_1 H6 H7 eq_refl H5 eq_refl). }
  split; [exact H10|]. split; [exact H11|]. split; [exact H12|].
  exact (Hreturns pair H10 H11 H12).
Defined.

(** ** Failures of the attribute pass *)

Lemma bind_outcome {A B} (m : M A) (k : A -> M B) :
  (forall s, (m s).2 ≠ OutOfFuel) -> (forall a s, (k a s).2 ≠ OutOfFuel) ->
  forall s, (bind m k s).2 ≠ OutOfFuel.
Proof.
  intros Hm Hk s. unfold bind. specialize (Hm s).
  destruct (m s) as [s1 [a|e|]]; simpl in *; [apply Hk|done|done].
Qed.

Lemma lift_outcome {A} (r : result A) s : (lift r s).2 ≠ OutOfFuel.
Proof. by destruct r. Qed.

Lemma copyAttribute_outcome env this deep options a x s :
  (copyAttribute env this deep options a x s).2 ≠ OutOfFuel.
Proof.
  revert s. unfold copyAttribute.
  destruct (includes _ _); [done|].
  destruct (negb (isUndefined _)); [done|].
  destruct (_ && _); [|done].
  apply bind_outcome; [done|]. intros v.
  destruct (Copyable_detect env v).
  - apply bind_outcome; [|done]. intros s. unfold value_copy.
    destruct (Copyable env) as [[d c]|]; [apply lift_outcome|done].
  - apply bind_outcome.
    + intros s. unfold getTransform.
      destruct (transforms (_meta s) !! _); [done|].
      by destruct (lookup_transform env _).
    + intros tr. apply bind_outcome; [|done].
      intros s. destruct tr as [tr|]; [|done]. simpl.
      apply bind_outcome; [apply lift_outcome|]. intros w. apply lift_outcome.
Qed.

(** The attribute pass fails when it holds an attribute that is cloned by
    value, whose value is no [Ember.Copyable], and for whose type the
    container has no transform: at that attribute at the latest. *)
Lemma attribute_pass_fails env this self deep options name am t l :
  (name, am) ∈ l ->
  attr_type am = Some t ->
  cloned_by_value options (name, am) = true ->
  Copyable_detect env (prop (fields self) name) = false ->
  lookup_transform env t = None ->
  name ∉ m_ignoreAttributes options ->
  m_overwrite options !! name = None ->
  forall a s,
    heap s !! this = Some self -> cache_ok env s ->
    exists s' e, foldM (copyAttribute env this deep options) a l s = (s', Throw e).
Proof.
  intros Hin Htype Hkind Hdetect Hnone Hign Hov.
  induction l as [|y l IH]; intros a s Hthis Hcache; [by apply elem_of_nil in Hin|].
  cbn [foldM]. unfold bind at 1.
  destruct (copyAttribute env this deep options a y s) as [s1 r] eqn:Estep.
  pose proof (copyAttribute_outcome env this deep options a y s) as Hfuel.
  rewrite Estep in Hfuel. simpl in Hfuel.
  destruct r as [a1|e|]; [|eauto|done].
  apply elem_of_cons in Hin as [<-|Hin].
  - exfalso. rewrite copyAttribute_unfold in Estep; simpl.
    2:{ unfold includes. by apply bool_decide_eq_false. }
    2:{ unfold prop. by rewrite Hov. }
    rewrite Hkind in Estep. simpl in Estep.
    assert (read this name s = prop (fields self) name) as Hread
      by (unfold read; by rewrite Hthis).
    rewrite Hread, Hdetect, Htype in Estep. simpl in Estep.
    unfold bind at 1, getTransform in Estep.
    destruct (transforms (_meta s) !! t) as [tr|] eqn:Ec.
    + apply Hcache in Ec. congruence.
    + rewrite Hnone in Estep. discriminate.
  - pose proof (copyAttribute_attribute_step _ _ _ _ _ _ _ _ _ Estep) as [Hh Hc].
    apply IH; [done| |auto]. by rewrite Hh.
Qed.

(** The attribute pass writes in the session nothing but the cache of
    transforms. *)
Lemma attribute_pass_session env this deep options l a s s' r :
  foldM (copyAttribute env this deep options) a l s = (s', r) ->
  heap s' = heap s /\ copies (_meta s') = copies (_meta s) /\
  copy_keys (_meta s') = copy_keys (_meta s).
Proof.
  intros H.
  pose (R := fun s s' : state =>
               heap s' = heap s /\ copies (_meta s') = copies (_meta s) /\
               copy_keys (_meta s') = copy_keys (_meta s)).
  assert (forall st, R st st) as Hr by (intros st; by repeat split).
  assert (forall s1 s2 s3, R s1 s2 -> R s2 s3 -> R s1 s3) as Ht.
  { intros s1 s2 s3 (H1 & H1' & H1'') (H2 & H2' & H2''). repeat split; congruence. }
  assert (pres R (foldM (copyAttribute env this deep options) a l)) as Hp.
  { apply pres_foldM; [exact Hr|exact Ht|]. intros a0 x.
    apply pres_copyAttribute; [exact Hr|exact Ht|].
    intros type st. unfold getTransform.
    destruct (transforms (_meta st) !! type); [apply Hr|].
    destruct (lookup_transform env type); [by repeat split|apply Hr]. }
  specialize (Hp s). by rewrite H in Hp.
Qed.

(** X18. A record with an attribute that is cloned by value, whose value
    is no [Ember.Copyable], and for whose declared type the container has
    no transform cannot be copied: the copy fails.  With [createAsModel]
    on, the error is a new [Error] built from the error of the attribute
    pass; with [createAsModel] off, it is the error that the rollback
    raises on the plain clone. *)
Theorem unknown_transform_fails_the_copy env fuel this deep _options s self name am t :
  heap s !! this = Some self ->
  (name, am) ∈ attributes self ->
  attr_type am = Some t ->
  cloned_by_value (assign_options (copyableOptions self) _options) (name, am) = true ->
  Copyable_detect env (prop (fields self) name) = false ->
  lookup_transform env t = None ->
  name ∉ m_ignoreAttributes (assign_options (copyableOptions self) _options) ->
  m_overwrite (assign_options (copyableOptions self) _options) !! name = None ->
  exists s' e,
    COPY_TASK_RUNNER env (S fuel) this deep _options s = (s', Throw e) /\
    if m_createAsModel (assign_options (copyableOptions self) _options)
    then exists e', e = NewError e'
    else e = TypeError "record.unloadRecord is not a function".
Proof.
  intros Hself Hin Htype Hkind Hdetect Hnone Hign Hov.
  set (options := assign_options (copyableOptions self) _options) in *.
  assert (exists s2 e model o,
            COPY_TASK env (S fuel) this deep _options (set_meta new_meta s)
            = (s2, Throw e) /\
            copies (_meta s2) = {[this := model]} /\
            copy_keys (_meta s2) = [this] /\
            heap s2 !! model = Some o /\
            obj_shape o = if m_createAsModel options then Model
                          else Plain (m_objectDefinition options))
    as (s2 & e & model & o & Htask & Hc2 & Hk2 & Ho2 & Hshape).
  { rewrite COPY_TASK_unfold. simpl heap. simpl _meta.
    rewrite Hself. simpl. rewrite lookup_empty. fold options.
    set (s0 := logged this (set_meta new_meta s)).
    unfold bind at 1, copy_fresh. unfold bind at 1.
    destruct (allocate self options s0) as [s1 r1] eqn:Ealloc.
    assert (exists model, r1 = Ok model) as [model ->].
    { revert Ealloc. unfold allocate, createRecord, createPlain.
      destruct (m_createAsModel options); intros H; inversion H; eauto. }
    pose proof (allocate_class _ _ _ _ _ Ealloc) as (o & Ho & Hclass).
    apply allocate_Ok in Ealloc as (Hfresh & o' & Hh1 & _ & _ & Hmeta1 & _).
    rewrite bind_register. unfold populate. unfold bind at 1.
    destruct (attribute_pass_fails env this self deep options name am t
                (attributes self) Hin Htype Hkind Hdetect Hnone Hign Hov ∅
                (register this model s1).1) as (s2 & e & Hpass).
    { simpl. rewrite Hh1. rewrite lookup_insert_ne; [exact Hself|].
      intros <-. simpl in Hfresh. congruence. }
    { intros t' tr. simpl. rewrite Hmeta1. simpl. by rewrite lookup_empty. }
    rewrite Hpass. exists s2, e, model, o. split; [reflexivity|].
    apply attribute_pass_session in Hpass as (Hh2 & Hc2 & Hk2).
    simpl in Hh2, Hc2, Hk2. rewrite Hmeta1 in Hc2, Hk2. simpl in Hc2, Hk2.
    rewrite lookup_empty in Hk2. simpl in Hk2.
    split; [by rewrite Hc2, insert_empty|]. split; [exact Hk2|].
    split; [by rewrite Hh2|].
    destruct (m_createAsModel options); [by destruct Hclass|exact Hclass]. }
  unfold COPY_TASK_RUNNER. rewrite Htask.
  unfold bind, unload_copies. rewrite Hk2. simpl. unfold bind, unload_copy.
  rewrite Hc2, lookup_singleton_eq. unfold unloadRecord. rewrite Ho2, Hshape.
  destruct (m_createAsModel options); simpl; eauto.
Qed.

(** ** The further properties on the example graphs *)

(** Goes through the cases of a membership in a list that is written
    out. *)
Ltac in_list H :=
  repeat (apply elem_of_cons in H as [H|H]; [try discriminate H|]);
  try (apply elem_of_nil in H; destruct H).

Lemma clone_is_a_new_object_witness :
  COPY_TASK_RUNNER env0 3 1%positive true None (start blog)
    = (blog_copied, Ok 5%positive) /\
  heap (start blog) !! 5%positive = None /\
  is_Some (heap blog_copied !! 5%positive) /\
  5%positive ≠ 1%positive.
Proof.
  assert (COPY_TASK_RUNNER env0 3 1%positive true None (start blog)
          = (blog_copied, Ok 5%positive)) as H1 by (vm_compute; reflexivity).
  split; [exact H1|].
  exact (clone_is_a_new_object env0 3 1%positive true None (start blog) blog_copied
           5%positive H1).
Defined.

Lemma copy_after_settle_starts_witness :
  reachable env0 blog_in_flight /\
  in_flight blog_in_flight !! 0 = Some (Call 1%positive true None) /\
  copy 1%positive false None (settle env0 3 0 blog_in_flight).1
  = (System (sys_state (settle env0 3 0 blog_in_flight).1)
            (delete 0 (in_flight blog_in_flight) ++ [Call 1%positive false None]),
     Running).
Proof.
  assert (reachable env0 blog_in_flight) as H1.
  { unfold blog_in_flight. apply reach_copy, reach_init. }
  assert (in_flight blog_in_flight !! 0 = Some (Call 1%positive true None)) as H2
    by reflexivity.
  split; [exact H1|]. split; [exact H2|].
  exact (copy_after_settle_starts env0 3 0 (Call 1%positive true None) false None
           blog_in_flight H1 H2).
Defined.

Lemma clones_are_distinct_new_objects_witness :
  copies (_meta (COPY_TASK_RUNNER env0 3 1%positive true None (start blog)).1)
    !! 2%positive = Some 6%positive /\
  2%positive = 2%positive /\ heap (start blog) !! 6%positive = None.
Proof.
  assert (copies (_meta (COPY_TASK_RUNNER env0 3 1%positive true None (start blog)).1)
            !! 2%positive = Some 6%positive) as H1 by (vm_compute; reflexivity).
  split; [exact H1|].
  exact (clones_are_distinct_new_objects env0 3 1%positive true None (start blog)
           2%positive 2%positive 6%positive H1 H1).
Defined.

Lemma created_objects_are_registered_witness :
  is_Some (heap (COPY_TASK_RUNNER env0 3 1%positive true None (start blog)).1
             !! 7%positive) /\
  heap (start blog) !! 7%positive = None /\
  exists k,
    copies (_meta (COPY_TASK_RUNNER env0 3 1%positive true None (start blog)).1) !! k
    = Some 7%positive.
Proof.
  assert (is_Some (heap (COPY_TASK_RUNNER env0 3 1%positive true None (start blog)).1
                     !! 7%positive)) as H1.
  { vm_compute. eexists. reflexivity. }
  assert (heap (start blog) !! 7%positive = None) as H2 by (vm_compute; reflexivity).
  split; [exact H1|]. split; [exact H2|].
  exact (created_objects_are_registered env0 3 1%positive true None (start blog)
           7%positive H1 H2).
Defined.

Lemma failed_copy_restores_store_witness :
  (forall g, g ∈ store (start broken_blog) -> is_Some (heap (start broken_blog) !! g)) /\
  COPY_TASK_RUNNER env0 5 1%positive true None (start broken_blog)
    = (broken_rolled_back, Throw (NewError serialize_error)) /\
  (forall k c, copies (_meta broken_rolled_back) !! k = Some c ->
               store_record c broken_rolled_back = true) /\
  store broken_rolled_back = store (start broken_blog).
Proof.
  assert (forall g, g ∈ store (start broken_blog) ->
                    is_Some (heap (start broken_blog) !! g)) as H1.
  { intros g Hg. apply elem_of_dom. exact Hg. }
  assert (COPY_TASK_RUNNER env0 5 1%positive true None (start broken_blog)
          = (broken_rolled_back, Throw (NewError serialize_error))) as H2
    by (vm_compute; reflexivity).
  assert (forall k c, copies (_meta broken_rolled_back) !! k = Some c ->
                      store_record c broken_rolled_back = true) as H3.
  { assert (map_Forall (fun _ c => store_record c broken_rolled_back = true)
                       (copies (_meta broken_rolled_back))) as Hall.
    { eapply (bool_decide_unpack _). vm_compute. exact I. }
    exact Hall. }
  split; [exact H1|]. split; [exact H2|]. split; [exact H3|].
  exact (failed_copy_restores_store env0 5 1%positive true None (start broken_blog)
           broken_rolled_back (NewError serialize_error) H1 H2 H3).
Defined.

Lemma clone_is_what_createAsModel_asks_witness :
  heap (start blog) !! 1%positive = Some post_1 /\
  COPY_TASK_RUNNER env0 1 1%positive false (Some as_plain_object) (start blog)
    = (blog_as_plain_object, Ok 5%positive) /\
  store (start blog) ⊆ store blog_as_plain_object /\
  exists clone,
    heap blog_as_plain_object !! 5%positive = Some clone /\
    obj_shape clone = Plain None.
Proof.
  assert (heap (start blog) !! 1%positive = Some post_1) as H1
    by (vm_compute; reflexivity).
  assert (COPY_TASK_RUNNER env0 1 1%positive false (Some as_plain_object) (start blog)
          = (blog_as_plain_object, Ok 5%positive)) as H2 by (vm_compute; reflexivity).
  split; [exact H1|]. split; [exact H2|].
  exact (clone_is_what_createAsModel_asks env0 1 1%positive false (Some as_plain_object)
           (start blog) blog_as_plain_object 5%positive post_1 H1 H2).
Defined.

Lemma plain_shallow_copy_assigns_relationships_witness :
  heap (start blog) !! 1%positive = Some post_1 /\
  m_createAsModel (assign_options (copyableOptions post_1) (Some as_plain_object))
    = false /\
  COPY_TASK_RUNNER env0 1 1%positive false (Some as_plain_object) (start blog)
    = (blog_as_plain_object, Ok 5%positive) /\
  exists clone,
    heap blog_as_plain_object !! 5%positive = Some clone /\
    fields clone !! "comments" = Some (prop (fields post_1) "comments").
Proof.
  assert (heap (start blog) !! 1%positive = Some post_1) as H1
    by (vm_compute; reflexivity).
  assert (COPY_TASK_RUNNER env0 1 1%positive false (Some as_plain_object) (start blog)
          = (blog_as_plain_object, Ok 5%positive)) as H2 by (vm_compute; reflexivity).
  assert (("comments", hasMany) ∈ relationship_defs post_1) as H3
    by apply list_elem_of_here.
  assert ("comments" ∉ m_ignoreAttributes
            (assign_options (copyableOptions post_1) (Some as_plain_object))) as H4
    by apply not_elem_of_nil.
  split; [exact H1|]. split; [reflexivity|]. split; [exact H2|].
  exact (plain_shallow_copy_assigns_relationships env0 1 1%positive
           (Some as_plain_object) (start blog) blog_as_plain_object 5%positive post_1
           "comments" hasMany H1 eq_refl H2 H3 H4 eq_refl).
Defined.

Lemma other_attribute_is_copied_verbatim_witness :
  heap (start notebook) !! 1%positive = Some note_1 /\
  COPY_TASK_RUNNER env_copyable 2 1%positive true (Some keep_draft) (start notebook)
    = (notebook_with_draft, Ok 4%positive) /\
  "draft" ∈ m_otherAttributes (assign_options (copyableOptions note_1) (Some keep_draft)) /\
  exists clone,
    heap notebook_with_draft !! 4%positive = Some clone /\
    fields clone !! "draft" = Some (prop (fields note_1) "draft").
Proof.
  assert (heap (start notebook) !! 1%positive = Some note_1) as H1
    by (vm_compute; reflexivity).
  assert (COPY_TASK_RUNNER env_copyable 2 1%positive true (Some keep_draft)
            (start notebook) = (notebook_with_draft, Ok 4%positive)) as H2
    by (vm_compute; reflexivity).
  assert ("draft" ∈ m_otherAttributes
            (assign_options (copyableOptions note_1) (Some keep_draft))) as H3
    by apply list_elem_of_here.
  assert (forall am, ("draft", am) ∈ attributes note_1 ->
            "draft" ∈ m_ignoreAttributes
              (assign_options (copyableOptions note_1) (Some keep_draft))) as H4.
  { intros am H. in_list H. }
  assert (forall k, ("draft", k) ∈ relationship_defs note_1 ->
            "draft" ∈ m_ignoreAttributes
              (assign_options (copyableOptions note_1) (Some keep_draft))) as H5.
  { intros k H. in_list H. }
  split; [exact H1|]. split; [exact H2|]. split; [exact H3|].
  exact (other_attribute_is_copied_verbatim env_copyable 2 1%positive true
           (Some keep_draft) (start notebook) notebook_with_draft 4%positive note_1
           "draft" H1 H2 H3 H4 H5 eq_refl).
Defined.

Lemma plain_attribute_is_copied_as_is_witness :
  heap (start notebook) !! 1%positive = Some note_1 /\
  COPY_TASK_RUNNER env_copyable 2 1%positive true None (start notebook)
    = (notebook_copied, Ok 4%positive) /\
  cloned_by_value (assign_options (copyableOptions note_1) None) ("title", string_attr)
    = false /\
  exists clone,
    heap notebook_copied !! 4%positive = Some clone /\
    fields clone !! "title" = Some (prop (fields note_1) "title").
Proof.
  assert (heap (start notebook) !! 1%positive = Some note_1) as H1
    by (vm_compute; reflexivity).
  assert (COPY_TASK_RUNNER env_copyable 2 1%positive true None (start notebook)
          = (notebook_copied, Ok 4%positive)) as H2 by (vm_compute; reflexivity).
  assert (exists am, ("title", am) ∈ attributes note_1) as H3
    by (exists string_attr; apply list_elem_of_here).
  assert (forall am, ("title", am) ∈ attributes note_1 ->
            cloned_by_value (assign_options (copyableOptions note_1) None) ("title", am)
            = false) as H4.
  { intros am H. in_list H. injection H as ->. reflexivity. }
  assert ("title" ∉ m_ignoreAttributes (assign_options (copyableOptions note_1) None))
    as H5 by apply not_elem_of_nil.
  assert (forall k, ("title", k) ∈ relationship_defs note_1 ->
            "title" ∈ m_ignoreAttributes (assign_options (copyableOptions note_1) None))
    as H6.
  { intros k H. in_list H. }
  split; [exact H1|]. split; [exact H2|]. split; [reflexivity|].
  exact (plain_attribute_is_copied_as_is env_copyable 2 1%positive true None
           (start notebook) notebook_copied 4%positive note_1 "title"
           H1 H2 H3 H4 H5 eq_refl H6).
Defined.

Lemma typed_attribute_goes_through_its_transform_witness :
  heap (start notebook) !! 1%positive = Some note_1 /\
  COPY_TASK_RUNNER env_copyable 2 1%positive true None (start notebook)
    = (notebook_copied, Ok 4%positive) /\
  ("body", json_attr) ∈ attributes note_1 /\
  cloned_by_value (assign_options (copyableOptions note_1) None) ("body", json_attr)
    = true /\
  Copyable_detect env_copyable (prop (fields note_1) "body") = false /\
  exists tr wire v clone,
    lookup_transform env_copyable "json" = Some tr /\
    serialize tr (prop (fields note_1) "body") (attr_options json_attr) = Return wire /\
    deserialize tr wire (attr_options json_attr) = Return v /\
    heap notebook_copied !! 4%positive = Some clone /\ fields clone !! "body" = Some v.
Proof.
  assert (heap (start notebook) !! 1%positive = Some note_1) as H1
    by (vm_compute; reflexivity).
  assert (COPY_TASK_RUNNER env_copyable 2 1%positive true None (start notebook)
          = (notebook_copied, Ok 4%positive)) as H2 by (vm_compute; reflexivity).
  assert (("body", json_attr) ∈ attributes note_1) as H3
    by apply list_elem_of_further, list_elem_of_here.
  assert (forall am', ("body", am') ∈ attributes note_1 -> am' = json_attr) as H4.
  { intros am' H. in_list H. injection H as ->. reflexivity. }
  assert ("body" ∉ m_ignoreAttributes (assign_options (copyableOptions note_1) None))
    as H5 by apply not_elem_of_nil.
  assert (forall k, ("body", k) ∈ relationship_defs note_1 ->
            "body" ∈ m_ignoreAttributes (assign_options (copyableOptions note_1) None))
    as H6.
  { intros k H. in_list H. }
  split; [exact H1|]. split; [exact H2|]. split; [exact H3|].
  split; [reflexivity|]. split; [reflexivity|].
  exact (typed_attribute_goes_through_its_transform env_copyable 2 1%positive true None
           (start notebook) notebook_copied 4%positive note_1 "body" json_attr "json"
           H1 H2 H3 H4 eq_refl eq_refl eq_refl H5 eq_refl H6).
Defined.

Lemma copyable_attribute_is_copied_by_itself_witness :
  heap (start notebook) !! 1%positive = Some note_1 /\
  COPY_TASK_RUNNER env_copyable 2 1%positive true None (start notebook)
    = (notebook_copied, Ok 4%positive) /\
  ("labels", array_attr) ∈ attributes note_1 /\
  cloned_by_value (assign_options (copyableOptions note_1) None) ("labels", array_attr)
    = true /\
  Copyable_detect env_copyable (prop (fields note_1) "labels") = true /\
  exists v clone,
    Return (A := value) (prop (fields note_1) "labels") = Return v /\
    heap notebook_copied !! 4%positive = Some clone /\ fields clone !! "labels" = Some v.
Proof.
  assert (heap (start notebook) !! 1%positive = Some note_1) as H1
    by (vm_compute; reflexivity).
  assert (COPY_TASK_RUNNER env_copyable 2 1%positive true None (start notebook)
          = (notebook_copied, Ok 4%positive)) as H2 by (vm_compute; reflexivity).
  assert (("labels", array_attr) ∈ attributes note_1) as H3
    by apply list_elem_of_further, list_elem_of_further, list_elem_of_here.
  assert (forall am', ("labels", am') ∈ attributes note_1 -> am' = array_attr) as H4.
  { intros am' H. in_list H. injection H as ->. reflexivity. }
  assert ("labels" ∉ m_ignoreAttributes (assign_options (copyableOptions note_1) None))
    as H5 by apply not_elem_of_nil.
  assert (forall k, ("labels", k) ∈ relationship_defs note_1 ->
            "labels" ∈ m_ignoreAttributes (assign_options (copyableOptions note_1) None))
    as H6.
  { intros k H. in_list H. }
  split; [exact H1|]. split; [exact H2|]. split; [exact H3|].
  split; [reflexivity|]. split; [reflexivity|].
  exact (copyable_attribute_is_copied_by_itself env_copyable 2 1%positive true None
           (start notebook) notebook_copied 4%positive note_1 "labels" array_attr
           (fun v => match v with VArray _ => true | _ => false end)
           (fun v _ => Return v)
           H1 H2 H3 H4 eq_refl eq_refl eq_refl H5 eq_refl H6).
Defined.

Lemma to_one_relationship_is_cloned_witness :
  heap (start notebook) !! 1%positive = Some note_1 /\
  COPY_TASK_RUNNER env_copyable 2 1%positive true None (start notebook)
    = (notebook_copied, Ok 4%positive) /\
  prop (fields note_1) "author" = VObject 2%positive /\
  heap (start notebook) !! 2%positive = Some user_2 /\
  IS_COPYABLE user_2 = true /\
  exists clone c,
    heap notebook_copied !! 4%positive = Some clone /\
    fields clone !! "author" = Some (VObject c) /\
    copies (_meta notebook_copied) !! 2%positive = Some c.
Proof.
  assert (heap (start notebook) !! 1%positive = Some note_1) as H1
    by (vm_compute; reflexivity).
  assert (COPY_TASK_RUNNER env_copyable 2 1%positive true None (start notebook)
          = (notebook_copied, Ok 4%positive)) as H2 by (vm_compute; reflexivity).
  assert (("author", belongsTo) ∈ relationship_defs note_1) as H3
    by apply list_elem_of_here.
  assert (forall k, ("author", k) ∈ relationship_defs note_1 -> k = belongsTo) as H4.
  { intros k H. in_list H. injection H as ->. reflexivity. }
  assert ("author" ∉ m_ignoreAttributes (assign_options (copyableOptions note_1) None))
    as H5 by apply not_elem_of_nil.
  assert ("author" ∉ m_copyByReference (assign_options (copyableOptions note_1) None))
    as H6 by apply not_elem_of_nil.
  assert (heap (start notebook) !! 2%positive = Some user_2) as H7
    by (vm_compute; reflexivity).
  split; [exact H1|]. split; [exact H2|]. split; [reflexivity|]. split; [exact H7|].
  split; [reflexivity|].
  exact (to_one_relationship_is_cloned env_copyable 2 1%positive None (start notebook)
           notebook_copied 4%positive note_1 "author" 2%positive user_2
           H1 H2 H3 H4 H5 H6 eq_refl eq_refl H7 eq_refl).
Defined.

Lemma to_one_relationship_is_kept_witness :
  heap (start notebook) !! 1%positive = Some note_1 /\
  COPY_TASK_RUNNER env_copyable 2 1%positive true None (start notebook)
    = (notebook_copied, Ok 4%positive) /\
  prop (fields note_1) "folder" = VObject 3%positive /\
  heap (start notebook) !! 3%positive = Some folder_3 /\
  IS_COPYABLE folder_3 = false /\
  exists clone,
    heap notebook_copied !! 4%positive = Some clone /\
    fields clone !! "folder" = Some (prop (fields note_1) "folder").
Proof.
  assert (heap (start notebook) !! 1%positive = Some note_1) as H1
    by (vm_compute; reflexivity).
  assert (COPY_TASK_RUNNER env_copyable 2 1%positive true None (start notebook)
          = (notebook_copied, Ok 4%positive)) as H2 by (vm_compute; reflexivity).
  assert (("folder", belongsTo) ∈ relationship_defs note_1) as H3
    by apply list_elem_of_further, list_elem_of_here.
  assert (forall k, ("folder", k) ∈ relationship_defs note_1 -> k = belongsTo) as H4.
  { intros k H. in_list H. injection H as ->. reflexivity. }
  assert ("folder" ∉ m_ignoreAttributes (assign_options (copyableOptions note_1) None))
    as H5 by apply not_elem_of_nil.
  assert ("folder" ∉ m_copyByReference (assign_options (copyableOptions note_1) None))
    as H6 by apply not_elem_of_nil.
  assert (heap (start notebook) !! 3%positive = Some folder_3) as H7
    by (vm_compute; reflexivity).
  split; [exact H1|]. split; [exact H2|]. split; [reflexivity|]. split; [exact H7|].
  split; [reflexivity|].
  exact (to_one_relationship_is_kept env_copyable 2 1%positive None (start notebook)
           notebook_copied 4%positive note_1 "folder"
           H1 H2 H3 H4 H5 H6 eq_refl
           (or_intror (ex_intro _ 3%positive
                         (ex_intro _ folder_3 (conj eq_refl (conj H7 eq_refl)))))).
Defined.

Lemma to_many_relationship_is_cloned_in_order_witness :
  heap (start blog) !! 1%positive = Some post_1 /\
  COPY_TASK_RUNNER env0 3 1%positive true None (start blog)
    = (blog_copied, Ok 5%positive) /\
  prop (fields post_1) "comments" = VArray [VObject 2%positive; VObject 3%positive] /\
  exists clone cs,
    heap blog_copied !! 5%positive = Some clone /\
    fields clone !! "comments" = Some (VArray cs) /\
    clones_in_order [VObject 2%positive; VObject 3%positive] cs blog_copied.
Proof.
  assert (heap (start blog) !! 1%positive = Some post_1) as H1
    by (vm_compute; reflexivity).
  assert (COPY_TASK_RUNNER env0 3 1%positive true None (start blog)
          = (blog_copied, Ok 5%positive)) as H2 by (vm_compute; reflexivity).
  assert (("comments", hasMany) ∈ relationship_defs post_1) as H3
    by apply list_elem_of_here.
  assert (forall k, ("comments", k) ∈ relationship_defs post_1 -> k = hasMany) as H4.
  { intros k H. in_list H. injection H as ->. reflexivity. }
  assert ("comments" ∉ m_ignoreAttributes (assign_options (copyableOptions post_1) None))
    as H5 by apply not_elem_of_nil.
  assert ("comments" ∉ m_copyByReference (assign_options (copyableOptions post_1) None))
    as H6 by apply not_elem_of_nil.
  assert ([VObject 2%positive; VObject 3%positive] ≠ []) as H7 by discriminate.
  assert (Forall (fun item => exists g og, item = VObject g /\
                                heap (start blog) !! g = Some og /\
                                IS_COPYABLE og = true)
                 [VObject 2%positive; VObject 3%positive]) as H8.
  { constructor; [|constructor; [|constructor]].
    - exists 2%positive, comment_2. split; [reflexivity|].
      split; [vm_compute; reflexivity|reflexivity].
    - exists 3%positive, comment_2. split; [reflexivity|].
      split; [vm_compute; reflexivity|reflexivity]. }
  split; [exact H1|]. split; [exact H2|]. split; [reflexivity|].
  exact (to_many_relationship_is_cloned_in_order env0 3 1%positive None (start blog)
           blog_copied 5%positive post_1 "comments"
           [VObject 2%positive; VObject 3%positive]
           H1 H2 H3 H4 H5 H6 eq_refl eq_refl H7 H8).
Defined.

Lemma referenced_relationship_is_tied_witness :
  heap (start blog) !! 1%positive = Some post_1 /\
  COPY_TASK_RUNNER env0 3 1%positive true (Some comments_by_reference) (start blog)
    = (blog_by_reference, Ok 5%positive) /\
  "comments" ∈ m_copyByReference
                 (assign_options (copyableOptions post_1) (Some comments_by_reference)) /\
  exists clone, heap blog_by_reference !! 5%positive = Some clone /\
                tied post_1 clone "comments".
Proof.
  assert (heap (start blog) !! 1%positive = Some post_1) as H1
    by (vm_compute; reflexivity).
  assert (COPY_TASK_RUNNER env0 3 1%positive true (Some comments_by_reference)
            (start blog) = (blog_by_reference, Ok 5%positive)) as H2
    by (vm_compute; reflexivity).
  assert (("comments", hasMany) ∈ relationship_defs post_1) as H3
    by apply list_elem_of_here.
  assert ("comments" ∉ m_ignoreAttributes
            (assign_options (copyableOptions post_1) (Some comments_by_reference)))
    as H4 by apply not_elem_of_nil.
  assert ("comments" ∈ m_copyByReference
            (assign_options (copyableOptions post_1) (Some comments_by_reference)))
    as H5 by apply list_elem_of_here.
  split; [exact H1|]. split; [exact H2|]. split; [exact H5|].
  exact (referenced_relationship_is_tied env0 3 1%positive true
           (Some comments_by_reference) (start blog) blog_by_reference 5%positive
           post_1 "comments" hasMany H1 H2 H3 H4 H5 eq_refl).
Defined.

Lemma unknown_transform_fails_the_copy_witness :
  heap (start notebook) !! 1%positive = Some note_1 /\
  ("labels", array_attr) ∈ attributes note_1 /\
  cloned_by_value (assign_options (copyableOptions note_1) None) ("labels", array_attr)
    = true /\
  Copyable_detect env0 (prop (fields note_1) "labels") = false /\
  lookup_transform env0 "array" = None /\
  exists s' e,
    COPY_TASK_RUNNER env0 2 1%positive true None (start notebook) = (s', Throw e) /\
    exists e', e = NewError e'.
Proof.
  assert (heap (start notebook) !! 1%positive = Some note_1) as H1
    by (vm_compute; reflexivity).
  assert (("labels", array_attr) ∈ attributes note_1) as H2
    by apply list_elem_of_further, list_elem_of_further, list_elem_of_here.
  assert ("labels" ∉ m_ignoreAttributes (assign_options (copyableOptions note_1) None))
    as H3 by apply not_elem_of_nil.
  split; [exact H1|]. split; [exact H2|]. split; [reflexivity|].
  split; [reflexivity|]. split; [reflexivity|].
  exact (unknown_transform_fails_the_copy env0 1 1%positive true None (start notebook)
           note_1 "labels" array_attr "array" H1 H2 eq_refl eq_refl eq_refl eq_refl
           H3 eq_refl).
Defined.
